(** * MOEX bond data collector: a shallow embedding of [moex_collector.py]

    The collector fetches pages of bond data from the MOEX ISS API, maps the
    API columns onto the destination table's columns and inserts the rows into
    PostgreSQL.  This file embeds the ingestion path of [moex_collector.py]
    ([get_all_securities], [get_isin_list], [clear_table],
    [get_column_mapping], [insert_data_generic] and [main]) as functions over
    an explicit world (the HTTP request log and the database connection) and
    proves the properties of the specification against it.

    What the script does not control is kept abstract: Python's [str]
    methods ([PyStr]), the MOEX server ([Network]) and the PostgreSQL server
    ([Storage]).  The general theorems hold for all of their instances; the
    examples fix one.

    After the properties of the specification come further properties of
    the collector, with [get_date_range], and of [table_manager.py], the
    second script, which is embedded in the module [table_manager]. *)

From stdpp Require Import gmap strings list sorting.
From Stdlib Require Import ZArith Lia.

Local Open Scope Z_scope.

(** ** JSON data as the script reads it *)

(** A scalar of a data row.  JSON numbers are integers here; floating point
    scalars are outside the model. *)
Inductive value :=
  | VNull
  | VBool (b : bool)
  | VInt (n : Z)
  | VStr (s : string).

#[global] Instance value_eq_dec : EqDecision value.
Proof. solve_decision. Defined.

Abbreviation row := (list value).

(** One block of a response: [{"columns": [...], "data": [[...], ...]}].
    A key that is absent is [None]. *)
Record block := Block {
  columns : option (list string);
  data : option (list row)
}.

(** A decoded JSON body: block name to block.  The cursor of block [b] is the
    block stored under [b ++ ".cursor"], whose first data row is
    [[index, total, pagesize]].  Bodies have the shape
    [{"<block>": {"columns": [...], "data": [[...], ...]}, ...}]; a body of
    another shape (a block that is no object, a row that is no list) is
    outside the model.  What may still go wrong inside this shape (a missing
    ["data"] key, a cursor row that has not three entries, a cursor entry
    that is no number) raises the exception Python raises. *)
Abbreviation response := (gmap string block).

(** Python truthiness of the values the script tests with [if x] / [not x]. *)
Definition truthy_list {A} (l : list A) : bool :=
  match l with [] => false | _ :: _ => true end.

Definition truthy_opt_list {A} (o : option (list A)) : bool :=
  match o with Some l => truthy_list l | None => false end.

Definition truthy_str (s : string) : bool :=
  match s with EmptyString => false | String _ _ => true end.

Definition truthy_value (v : value) : bool :=
  match v with
  | VNull => false
  | VBool b => b
  | VInt n => negb (n =? 0)
  | VStr s => truthy_str s
  end.

(** [not data] for a decoded body: [None] and the empty object are falsy. *)
Definition truthy_response (d : option response) : bool :=
  match d with Some m => negb (bool_decide (m = ∅)) | None => false end.

(** [data and key in data and data[key].get('data')]: the page stored under
    [key] when the body has one with at least one row. *)
Definition page_of (d : option response) (key : string) : option block :=
  match d with
  | Some m =>
      if truthy_response d then
        match m !! key with
        | Some b => if truthy_opt_list (data b) then Some b else None
        | None => None
        end
      else None
  | None => None
  end.

(** The integer a scalar stands for in [start + pagesize] and in the
    comparison with [total]; [None] is Python's [TypeError]. *)
Definition int_of_value (v : value) : option Z :=
  match v with
  | VInt n => Some n
  | VBool b => Some (if b then 1 else 0)
  | VNull | VStr _ => None
  end.

(** ** Exceptions and the outcome of a computation *)

Inductive exn :=
  | KeyError
  | ValueError
  | TypeError
  | NoOptionError
  | OverflowError
  | IndexError
  | DatabaseError.   (* psycopg2.Error *)

(** [Diverge] is a loop that was still running when the fuel ran out. *)
Inductive result (A : Type) :=
  | Ok (a : A)
  | Raise (e : exn)
  | Diverge.
Arguments Ok {A} a.
Arguments Raise {A} e.
Arguments Diverge {A}.

(** The status the interpreter exits with: 0 when [main] returns, 1 when an
    exception escapes it. *)
Definition exit_status {A} (r : result A) : option Z :=
  match r with
  | Ok _ => Some 0
  | Raise _ => Some 1
  | Diverge => None
  end.

(** ** Python's string methods *)

Class PyStr := {
  upper : string -> string;   (* str.upper *)
  strip : string -> string    (* str.strip *)
}.

(** [s.split(sep)] for a one-character separator. *)
Fixpoint split (sep : Ascii.ascii) (s : string) : list string :=
  match s with
  | EmptyString => [EmptyString]
  | String c s' =>
      if Ascii.eqb c sep then EmptyString :: split sep s'
      else match split sep s' with
           | h :: t => String c h :: t
           | [] => [String c EmptyString]
           end
  end.

(** ** Configuration *)

Inductive table_key := bonds | quotas | coupons | amortizations | offers.

Definition table_key_name (t : table_key) : string :=
  match t with
  | bonds => "bonds"
  | quotas => "quotas"
  | coupons => "coupons"
  | amortizations => "amortizations"
  | offers => "offers"
  end.

(** [config.getint('API', 'default_limit', fallback=100)]: the option may be
    missing, an integer, or text that is no integer. *)
Inductive limit_setting :=
  | LimitMissing
  | LimitValue (n : Z)
  | LimitInvalid.

Record config := Config {
  api_base_url : option string;              (* [API] base_url *)
  api_default_limit : limit_setting;         (* [API] default_limit *)
  database_schema : option string;           (* [DATABASE] schema *)
  tables : gmap string string;               (* [TABLES] *)
  table_schemas : gmap string (list string)  (* options of [TABLE_SCHEMA:<key>], in file order *)
}.

Definition get_db_schema (cfg : config) : string :=
  default "public" (database_schema cfg).

(** ** Column mapper *)

Section ColumnMapper.
Context {py : PyStr}.

(** The loop of [get_column_mapping]: [mapping[name.upper()] = name] for
    each option of the schema section, a later option overwriting an
    earlier one with the same upper-case form. *)
Definition mapping_of_options (opts : list string) : gmap string string :=
  fold_left (fun mapping db_column_name => <[upper db_column_name := db_column_name]> mapping)
            opts ∅.

Definition get_column_mapping (cfg : config) (tk : string) : gmap string string :=
  match table_schemas cfg !! tk with
  | None => ∅
  | Some opts => mapping_of_options opts
  end.
End ColumnMapper.

(** [enumerate(l)] *)
Definition enumerate {A} (l : list A) : list (nat * A) :=
  combine (seq 0 (length l)) l.

(** The column loop of [insert_data_generic]: [db_columns_in_order] and
    [api_indices_in_order], both appended to in page order. *)
Definition resolve_step (column_mapping : gmap string string)
    (acc : list string * list nat) (ic : nat * string) : list string * list nat :=
  match column_mapping !! ic.2 with
  | Some db_col_name => (acc.1 ++ [db_col_name], acc.2 ++ [ic.1])
  | None => acc
  end.

Definition resolve_columns (column_mapping : gmap string string)
    (api_columns : list string) : list string * list nat :=
  fold_left (resolve_step column_mapping) (enumerate api_columns) ([], []).

(** [row[i]] for an index that is not negative: beyond the end of the list
    it raises [IndexError]. *)
Definition index_row (r : row) (i : nat) : result value :=
  match r !! i with
  | Some v => Ok v
  | None => Raise IndexError
  end.

(** [[row[i] if i < len(row) else None for i in api_indices_in_order]]: the
    elements are evaluated in order, and an exception of one of them leaves
    the comprehension. *)
Fixpoint project_row (r : row) (api_indices_in_order : list nat) : result (list value) :=
  match api_indices_in_order with
  | [] => Ok []
  | i :: rest =>
      match (if (i <? length r)%nat then index_row r i else Ok VNull) with
      | Ok v =>
          match project_row r rest with
          | Ok db_row => Ok (v :: db_row)
          | Raise e => Raise e
          | Diverge => Diverge
          end
      | Raise e => Raise e
      | Diverge => Diverge
      end
  end.

(** ** The world of a run: the HTTP request log and the database *)

Inductive param :=
  | PInt (n : Z)
  | PDate (d : Z).   (* a date, sent as [strftime("%Y-%m-%d")] *)

(** [requests.get(url, params=params)]; [params=None] is the empty map. *)
Record request := Request {
  url : string;
  params : gmap string param
}.

(** A row as it is written: the quoted column list of the INSERT and the
    values bound to its placeholders. *)
Record db_row := DbRow {
  row_columns : list string;
  row_values : list value
}.

#[global] Instance db_row_eq_dec : EqDecision db_row.
Proof. solve_decision. Defined.

Inductive stmt :=
  | Truncate (table : string)
  | Insert (table : string) (r : db_row)   (* INSERT ... ON CONFLICT DO NOTHING *)
  | Commit
  | Rollback
  | Close.

#[global] Instance stmt_eq_dec : EqDecision stmt.
Proof. solve_decision. Defined.

Inductive conn_state := NotConnected | Connected | Closed.

(** The lines the script prints that the properties below refer to; its
    progress lines are left out. *)
Inductive message :=
  | MsgFailedSecurities                               (* "Failed to fetch list of all securities." *)
  | MsgNoIsins                                        (* "No ISINs found or specified. Exiting." *)
  | MsgConnectError                                   (* "Error connecting to PostgreSQL: ..." *)
  | MsgCleared (table : string)                       (* "Table ... cleared." *)
  | MsgClearError (table : string)                    (* "Error clearing table ...: ..." *)
  | MsgInserted (table : string) (attempted affected : nat)
                                                      (* "Attempted to insert N rows into ... Rows affected: M." *)
  | MsgInsertError (table : string)                   (* "Database error inserting data into ...: ..." *)
  | MsgUnexpectedError (table : string)               (* "Unexpected error during data insertion into ...: ..." *)
  | MsgClosed.                                        (* "Database connection closed." *)

(** [committed] is the destination table as the server holds it; [working]
    is the table as the open transaction of the connection sees it. *)
Record world := World {
  requests : list request;
  conn : conn_state;
  committed : list db_row;
  working : list db_row;
  statements : list stmt;
  output : list message
}.

(** The MOEX server: the decoded body that the [n]-th request of the run
    receives ([n] counts from 0); [None] is a timeout, a network failure or
    an error status, which [fetch_moex_data] turns into [None]. *)
Class Network := {
  http : nat -> request -> option response
}.

(** The PostgreSQL server, for the destination table of the run. *)
Class Storage := {
  key : Type;
  key_eq_dec :: EqDecision key;
  row_key : db_row -> option key;   (* the row's value of the table's unique key, if one applies *)
  violates : db_row -> bool;        (* the INSERT of this row raises psycopg2.Error *)
  truncate_denied : bool;           (* TRUNCATE raises psycopg2.Error *)
  connect_ok : bool                 (* psycopg2.connect succeeds *)
}.

(** ** A state and exception monad over the world *)

Definition M (A : Type) : Type := world -> result A * world.

Definition ret {A} (a : A) : M A := fun w => (Ok a, w).
Definition raise {A} (e : exn) : M A := fun w => (Raise e, w).
Definition diverge {A} : M A := fun w => (Diverge, w).

Definition bind {A B} (m : M A) (f : A -> M B) : M B :=
  fun w =>
    match m w with
    | (Ok a, w') => f a w'
    | (Raise e, w') => (Raise e, w')
    | (Diverge, w') => (Diverge, w')
    end.

Notation "x <- m ;; k" := (bind m (fun x => k))
  (at level 100, m at next level, right associativity).
Notation "m ;; k" := (bind m (fun _ => k))
  (at level 100, right associativity).

(** [try: body except <catches> as e: handler e] *)
Definition try_except {A} (catches : exn -> bool) (body : M A) (handler : exn -> M A) : M A :=
  fun w =>
    match body w with
    | (Raise e, w') => if catches e then handler e w' else (Raise e, w')
    | rw => rw
    end.

(** [try: body finally: final].  A body that is still running never reaches
    [final]. *)
Definition try_finally {A} (body : M A) (final : M unit) : M A :=
  fun w =>
    match body w with
    | (Diverge, w') => (Diverge, w')
    | (r, w') =>
        match final w' with
        | (Ok _, w'') => (r, w'')
        | (Raise e, w'') => (Raise e, w'')
        | (Diverge, w'') => (Diverge, w'')
        end
    end.

(** [for x in l: body x] *)
Fixpoint for_each {A} (l : list A) (body : A -> M unit) : M unit :=
  match l with
  | [] => ret tt
  | x :: l' => body x ;; for_each l' body
  end.

Definition print (m : message) : M unit :=
  fun w => (Ok tt, World (requests w) (conn w) (committed w) (working w)
                         (statements w) (output w ++ [m])).

Definition log_stmt (s : stmt) : M unit :=
  fun w => (Ok tt, World (requests w) (conn w) (committed w) (working w)
                         (statements w ++ [s]) (output w)).

Definition set_working (t : list db_row) : M unit :=
  fun w => (Ok tt, World (requests w) (conn w) (committed w) t
                         (statements w) (output w)).

Definition get_working : M (list db_row) := fun w => (Ok (working w), w).

(** A pure computation that may raise, run inside [M]. *)
Definition lift {A} (r : result A) : M A := fun w => (r, w).

(** ** The psycopg2 connection *)

Section Database.
Context {st : Storage}.

(** [psycopg2.connect(...)] inside [get_db_connection]: a new connection
    sees the committed table.  The connection options of [DATABASE] are
    taken to be there: a missing one is a [NoOptionError] that the model
    does not have. *)
Definition get_db_connection : M bool :=
  fun w =>
    if connect_ok then
      (Ok true, World (requests w) Connected (committed w) (committed w)
                      (statements w) (output w))
    else
      (Ok false, World (requests w) (conn w) (committed w) (working w)
                       (statements w) (output w ++ [MsgConnectError])).

(** [cur.execute("TRUNCATE TABLE ...")] *)
Definition execute_truncate (table : string) : M unit :=
  log_stmt (Truncate table) ;;
  if truncate_denied then raise DatabaseError else set_working [].

(** Whether a row with the unique key of [r] is already in the table. *)
Definition key_taken (r : db_row) (t : list db_row) : bool :=
  match row_key r with
  | Some k => existsb (fun r' => bool_decide (row_key r' = Some k)) t
  | None => false
  end.

(** [cur.execute(insert_query, db_row)] with its [cur.rowcount]: the server
    checks the row, then skips it when its unique key is taken
    ([ON CONFLICT DO NOTHING], row count 0), else stores it (row count 1). *)
Definition execute_insert (table : string) (r : db_row) : M nat :=
  log_stmt (Insert table r) ;;
  if violates r then raise DatabaseError
  else
    t <- get_working ;;
    if key_taken r t then ret 0%nat
    else set_working (t ++ [r]) ;; ret 1%nat.

(** [conn.commit()] *)
Definition commit : M unit :=
  fun w => (Ok tt, World (requests w) (conn w) (working w) (working w)
                         (statements w ++ [Commit]) (output w)).

(** [conn.rollback()] *)
Definition rollback : M unit :=
  fun w => (Ok tt, World (requests w) (conn w) (committed w) (committed w)
                         (statements w ++ [Rollback]) (output w)).

(** [conn.close()]: what was not committed is discarded. *)
Definition close : M unit :=
  fun w => (Ok tt, World (requests w) Closed (committed w) (committed w)
                         (statements w ++ [Close]) (output w)).

Definition is_database_error (e : exn) : bool :=
  match e with DatabaseError => true | _ => false end.

Definition qualified (cfg : config) (table_name : string) : string :=
  get_db_schema cfg +:+ "." +:+ table_name.

Definition clear_table (table_name : string) (cfg : config) : M unit :=
  let table := qualified cfg table_name in
  try_except is_database_error
    (execute_truncate table ;;
     commit ;;
     print (MsgCleared table))
    (fun _ =>
       print (MsgClearError table) ;;
       rollback).

(** The row loop of [insert_data_generic], with its [inserted_count]. *)
Fixpoint insert_rows (table : string) (db_columns_in_order : list string)
    (api_indices_in_order : list nat) (rows : list row) (inserted_count : nat) : M nat :=
  match rows with
  | [] => ret inserted_count
  | r :: rows' =>
      db_row <- lift (project_row r api_indices_in_order) ;;
      rowcount <- execute_insert table (DbRow db_columns_in_order db_row) ;;
      insert_rows table db_columns_in_order api_indices_in_order rows'
                  (inserted_count + rowcount)%nat
  end.

Context {py : PyStr}.

Definition insert_data_generic (table_name : string) (d : block) (cfg : config)
    (tk : string) : M unit :=
  (* if not data or 'data' not in data or not data['data']: return *)
  if negb (truthy_opt_list (data d)) then ret tt else
  let table := qualified cfg table_name in
  let api_columns := default [] (columns d) in
  let rows := default [] (data d) in
  if negb (truthy_list api_columns) then ret tt else
  let column_mapping := get_column_mapping cfg tk in
  if bool_decide (column_mapping = ∅) then ret tt else
  let resolved := resolve_columns column_mapping api_columns in
  let db_columns_in_order := resolved.1 in
  let api_indices_in_order := resolved.2 in
  if negb (truthy_list db_columns_in_order) then ret tt else
  try_except (fun _ => true)
    (inserted_count <- insert_rows table db_columns_in_order api_indices_in_order rows 0%nat ;;
     commit ;;
     print (MsgInserted table (length rows) inserted_count))
    (fun e =>
       print (if is_database_error e then MsgInsertError table
              else MsgUnexpectedError table) ;;
       rollback).
End Database.

(** ** The MOEX API *)

Section Fetch.
Context {net : Network}.

(** [fetch_moex_data(url, params)]: the request is issued and logged; every
    failure comes back as [None]. *)
Definition fetch_moex_data (url : string) (params : gmap string param)
    : M (option response) :=
  fun w =>
    let req := Request url params in
    (Ok (http (length (requests w)) req),
     World (requests w ++ [req]) (conn w) (committed w) (working w)
           (statements w) (output w)).
End Fetch.

(** [index, total, pagesize = cursor_data[0]] *)
Definition unpack_cursor (r : row) : result (value * value * value) :=
  match r with
  | [index; total; pagesize] => Ok (index, total, pagesize)
  | _ => Raise ValueError
  end.

(** [start + pagesize < total] on JSON scalars. *)
Definition start_plus_pagesize_lt_total (start : Z) (pagesize total : value)
    : result bool :=
  match int_of_value pagesize with
  | None => Raise TypeError
  | Some ps =>
      match int_of_value total with
      | None => Raise TypeError
      | Some tot => Ok (start + ps <? tot)
      end
  end.

(** [start + pagesize >= total] on JSON scalars. *)
Definition start_plus_pagesize_ge_total (start : Z) (pagesize total : value)
    : result bool :=
  match int_of_value pagesize with
  | None => Raise TypeError
  | Some ps =>
      match int_of_value total with
      | None => Raise TypeError
      | Some tot => Ok (start + ps >=? tot)
      end
  end.

(** [start += pagesize]; only reached after the comparison went through. *)
Definition advance (start : Z) (pagesize : value) : Z :=
  start + default 0 (int_of_value pagesize).

(** The cursor part of one iteration of [get_all_securities], lines 151-161,
    for a body [d] that holds a page: [Some start'] when the loop goes on
    with [start'], [None] when it breaks. *)
Definition securities_cursor (d : response) (start : Z) : result (option Z) :=
  match d !! "securities.cursor" with
  | Some cursor_block =>
      match data cursor_block with
      | None => Raise KeyError
      | Some cursor_data =>
          match cursor_data with
          | first :: _ =>
              match unpack_cursor first with
              | Ok (index, total, pagesize) =>
                  match start_plus_pagesize_ge_total start pagesize total with
                  | Ok true => Ok None
                  | Ok false => Ok (Some (advance start pagesize))
                  | Raise e => Raise e
                  | Diverge => Diverge
                  end
              | Raise e => Raise e
              | Diverge => Diverge
              end
          | [] => Ok None
          end
      end
  | None => Ok None
  end.

(** The cursor part of one iteration of a page loop of [main] (lines 383-390,
    418-425, 441-448): [Some start'] when [has_more] ends up [True] and
    [params['start']] is [start'], [None] when [has_more] stays [False]. *)
Definition page_cursor (cursor_key : string) (d : option response) (start : Z)
    : result (option Z) :=
  match d with
  | Some m =>
      if truthy_response d then
        match m !! cursor_key with
        | Some cursor_block =>
            match data cursor_block with
            | None => Raise KeyError
            | Some cursor_data =>
                match cursor_data with
                | first :: _ =>
                    match unpack_cursor first with
                    | Ok (index, total, pagesize) =>
                        match start_plus_pagesize_lt_total start pagesize total with
                        | Ok true => Ok (Some (advance start pagesize))
                        | Ok false => Ok None
                        | Raise e => Raise e
                        | Diverge => Diverge
                        end
                    | Raise e => Raise e
                    | Diverge => Diverge
                    end
                | [] => Ok None
                end
            end
        | None => Ok None
        end
      else Ok None
  | None => Ok None
  end.

(** ** Arguments and configuration lookups *)

Inductive run_mode := clear | update | overwrite.

(** The parsed command line; the dates are the day ordinals that
    [get_date_range] computed. *)
Record arguments := Args {
  args_table : table_key;
  args_isin : option string;
  args_mode : run_mode;
  start_date : Z;
  end_date : Z
}.

(** [if args.isin]: the option was given and is not the empty string. *)
Definition isin_given (args : arguments) : bool :=
  match args_isin args with
  | Some s => truthy_str s
  | None => false
  end.

(** [config.get(section, option)] without a fallback. *)
Definition config_get {A} (o : option A) : result A :=
  match o with
  | Some v => Ok v
  | None => Raise NoOptionError
  end.

(** [config.getint('API', 'default_limit', fallback=100)] *)
Definition get_default_limit (cfg : config) : result Z :=
  match api_default_limit cfg with
  | LimitMissing => Ok 100
  | LimitValue n => Ok n
  | LimitInvalid => Raise ValueError
  end.

(** [date.max.toordinal()]: [date + timedelta(days=1)] overflows beyond it. *)
Definition date_max : Z := 3652059.

(** ['name' in rows] for a list of rows: list membership compares the string
    with each row, and a row (a list) never equals a string. *)
Definition str_in_rows (name : string) (rows : list row) : bool :=
  existsb (fun _ : row => false) rows.

Section Collector.
Context {py : PyStr} {net : Network} {st : Storage}.

(** The loop of [get_all_securities]. *)
Fixpoint get_all_securities_loop (fuel : nat) (securities_url : string)
    (limit : Z) (start : Z) (securities : list row) : M (list row) :=
  match fuel with
  | O => diverge
  | S fuel' =>
      let params : gmap string param :=
        <["limit" := PInt limit]> {["start" := PInt start]} in
      d <- fetch_moex_data securities_url params ;;
      match page_of d "securities" with
      | None => ret securities
      | Some page =>
          let securities := securities ++ default [] (data page) in
          next <- lift (securities_cursor (default ∅ d) start) ;;
          match next with
          | Some start' =>
              get_all_securities_loop fuel' securities_url limit start' securities
          | None => ret securities
          end
      end
  end.

Definition get_all_securities (fuel : nat) (cfg : config) : M (list row) :=
  base_url <- lift (config_get (api_base_url cfg)) ;;
  let securities_url := base_url +:+ "/engines/stock/markets/bonds/securities.json" in
  limit <- lift (get_default_limit cfg) ;;
  get_all_securities_loop fuel securities_url limit 0 [].

(** [get_isin_list]: without [--isin], [all_securities_data] is the list
    of rows that [get_all_securities] returned, so neither ['securities']
    nor ['columns'] is in it, [columns] stays [None] and [isins] stays
    empty; indexing the list with one of the names would be a
    [TypeError]. *)
Definition get_isin_list (fuel : nat) (args : arguments) (cfg : config)
    : M (list string) :=
  if isin_given args then
    ret (map (fun isin => upper (strip isin))
             (split (Ascii.ascii_of_nat 44) (default EmptyString (args_isin args))))
  else
    all_securities_data <- get_all_securities fuel cfg ;;
    if negb (truthy_list all_securities_data) then
      print MsgFailedSecurities ;;
      ret []
    else if str_in_rows "securities" all_securities_data then raise TypeError
    else if str_in_rows "columns" all_securities_data then raise TypeError
    else ret [].

(** The three page loops of [main] (quotes of one date, schedule of one
    ISIN, schedule of all bonds) are the same text up to the URL, the
    fixed parameters and the block name; [params['start']] is [start]. *)
Fixpoint page_loop (fuel : nat) (url : string) (fixed_params : gmap string param)
    (data_block : string) (table_name : string) (cfg : config) (tk : table_key)
    (start : Z) : M unit :=
  match fuel with
  | O => diverge
  | S fuel' =>
      let params := <["start" := PInt start]> fixed_params in
      d <- fetch_moex_data url params ;;
      match page_of d data_block with
      | Some page => insert_data_generic table_name page cfg (table_key_name tk)
      | None => ret tt
      end ;;
      has_more <- lift (page_cursor (data_block +:+ ".cursor") d start) ;;
      if negb (truthy_response d) then ret tt
      else match has_more with
           | Some start' =>
               page_loop fuel' url fixed_params data_block table_name cfg tk start'
           | None => ret tt
           end
  end.

(** [while date <= end_date: body; date += timedelta(days=1)], over the
    [days] dates that are left. *)
Fixpoint date_loop (days : nat) (date : Z) (body : Z -> M unit) : M unit :=
  match days with
  | O => ret tt
  | S days' =>
      body date ;;
      if date_max <? date + 1 then raise OverflowError
      else date_loop days' (date + 1) body
  end.

(** The branch of [main] for the bonds table. *)
Definition process_bonds (fuel : nat) (args : arguments) (cfg : config)
    (isin_list : list string) (base_url table_name : string) : M unit :=
  if isin_given args then
    for_each isin_list (fun isin =>
      let url := base_url +:+ "/engines/stock/markets/bonds/securities/" +:+ isin +:+ ".json" in
      d <- fetch_moex_data url ∅ ;;
      match page_of d "description" with
      | Some page => insert_data_generic table_name page cfg (table_key_name (args_table args))
      | None => ret tt
      end)
  else
    securities_data <- get_all_securities fuel cfg ;;
    if truthy_list securities_data then
      if str_in_rows "securities" securities_data then raise TypeError
      else if str_in_rows "columns" securities_data then
        (if str_in_rows "data" securities_data then raise TypeError else ret tt)
      else ret tt
    else ret tt.

(** The branch of [main] for the quotas table. *)
Definition process_quotas (fuel : nat) (args : arguments) (cfg : config)
    (isin_list : list string) (base_url table_name : string) (default_limit : Z)
    : M unit :=
  date_loop (Z.to_nat (end_date args - start_date args + 1)) (start_date args)
    (fun date =>
       if isin_given args then
         for_each isin_list (fun isin =>
           let url := base_url +:+ "/history/engines/stock/markets/bonds/securities/"
                      +:+ isin +:+ ".json" in
           let params : gmap string param :=
             <["till" := PDate date]> {["from" := PDate date]} in
           d <- fetch_moex_data url params ;;
           match page_of d "history" with
           | Some page =>
               insert_data_generic table_name page cfg (table_key_name (args_table args))
           | None => ret tt
           end)
       else
         let url := base_url +:+ "/history/engines/stock/markets/bonds/securities.json" in
         let params : gmap string param :=
           <["limit" := PInt default_limit]> {["date" := PDate date]} in
         page_loop fuel url params "history" table_name cfg (args_table args) 0).

(** The branch of [main] for the coupons, amortizations and offers tables. *)
Definition process_bondization (fuel : nat) (args : arguments) (cfg : config)
    (isin_list : list string) (base_url table_name : string) (default_limit : Z)
    : M unit :=
  let data_block := table_key_name (args_table args) in
  let params : gmap string param := {["limit" := PInt default_limit]} in
  if isin_given args then
    for_each isin_list (fun isin =>
      let url := base_url +:+ "/statistics/engines/stock/markets/bonds/bondization/"
                 +:+ isin +:+ ".json" in
      page_loop fuel url params data_block table_name cfg (args_table args) 0)
  else
    let url := base_url +:+ "/statistics/engines/stock/markets/bonds/bondization.json" in
    page_loop fuel url params data_block table_name cfg (args_table args) 0.

(** The body of the [try] block of [main]. *)
Definition main_body (fuel : nat) (args : arguments) (cfg : config)
    (isin_list : list string) (base_url table_name : string) (default_limit : Z)
    : M unit :=
  match args_mode args with
  | clear => clear_table table_name cfg     (* ... and return *)
  | m =>
      match m with
      | overwrite => clear_table table_name cfg
      | _ => ret tt
      end ;;
      match args_table args with
      | bonds => process_bonds fuel args cfg isin_list base_url table_name
      | quotas => process_quotas fuel args cfg isin_list base_url table_name default_limit
      | coupons | amortizations | offers =>
          process_bondization fuel args cfg isin_list base_url table_name default_limit
      end
  end.

(** [main], after [parse_arguments], [load_config] and [get_date_range].
    Every [while] loop gets [fuel] iterations. *)
Definition main (fuel : nat) (args : arguments) (cfg : config) : M unit :=
  isin_list <- get_isin_list fuel args cfg ;;
  if negb (truthy_list isin_list) && negb (isin_given args) then
    print MsgNoIsins
  else
    connected <- get_db_connection ;;
    if negb connected then ret tt
    else
      base_url <- lift (config_get (api_base_url cfg)) ;;
      default_limit <- lift (get_default_limit cfg) ;;
      table_name <- lift (config_get (tables cfg !! table_key_name (args_table args))) ;;
      try_finally
        (main_body fuel args cfg isin_list base_url table_name default_limit)
        (close ;; print MsgClosed).
End Collector.

(** A run starts with no request issued, no connection and nothing printed,
    against a table that holds [t]. *)
Definition initial_world (t : list db_row) : world :=
  World [] NotConnected t t [] [].

(** ** Python's string methods on ASCII text, for the examples *)

Definition ascii_upper_char (c : Ascii.ascii) : Ascii.ascii :=
  let n := Ascii.nat_of_ascii c in
  if ((97 <=? n) && (n <=? 122))%nat then Ascii.ascii_of_nat (n - 32) else c.

Fixpoint ascii_upper (s : string) : string :=
  match s with
  | EmptyString => EmptyString
  | String c s' => String (ascii_upper_char c) (ascii_upper s')
  end.

Definition ascii_space (c : Ascii.ascii) : bool :=
  let n := Ascii.nat_of_ascii c in
  ((9 <=? n) && (n <=? 13) || (28 <=? n) && (n <=? 32))%nat.

Fixpoint ascii_lstrip (s : string) : string :=
  match s with
  | EmptyString => EmptyString
  | String c s' => if ascii_space c then ascii_lstrip s' else s
  end.

Definition ascii_strip (s : string) : string :=
  String.rev (ascii_lstrip (String.rev (ascii_lstrip s))).

Definition ascii_str : PyStr := {| upper := ascii_upper; strip := ascii_strip |}.

(** ** Vocabulary of the properties *)

Section Vocabulary.
Context {py : PyStr} {st : Storage}.

(** The options whose upper-case form is the external name [c]. *)
Definition options_for (opts : list string) (c : string) : list string :=
  filter (fun o => upper o = c) opts.

(** What the column loop has appended after the columns [l], the first of
    which has index [k]. *)
Fixpoint matched (m : gmap string string) (k : nat) (l : list string)
    : list (nat * string) :=
  match l with
  | [] => []
  | c :: l' =>
      match m !! c with
      | Some d => (k, d) :: matched m (S k) l'
      | None => matched m (S k) l'
      end
  end.

(** The table after the server has processed the INSERT of [r] without an
    error: unchanged when the unique key of [r] is taken, else with [r]
    at its end. *)
Definition store_row (t : list db_row) (r : db_row) : list db_row :=
  if key_taken r t then t else t ++ [r].

Definition store_rows (t : list db_row) (rs : list db_row) : list db_row :=
  fold_left store_row rs t.

(** No row of [rs] makes the server raise. *)
Definition accepted (rs : list db_row) : bool :=
  forallb (fun r => negb (violates r)) rs.

(** The values of a destination row: at each resolved position the value
    the page row has at the source index, and NULL where the page row has
    none. *)
Definition projected (r : row) (api_indices_in_order : list nat) : list value :=
  map (fun i => default VNull (r !! i)) api_indices_in_order.

(** The rows [insert_data_generic] builds for a page, and whether it gets
    as far as building them (all four early returns are passed). *)
Definition page_db_rows (cfg : config) (tk : string) (page : block) : list db_row :=
  let resolved := resolve_columns (get_column_mapping cfg tk) (default [] (columns page)) in
  map (fun r => DbRow resolved.1 (projected r resolved.2)) (default [] (data page)).

Definition loadable (cfg : config) (tk : string) (page : block) : bool :=
  truthy_opt_list (data page)
  && truthy_list (default [] (columns page))
  && negb (bool_decide (get_column_mapping cfg tk = ∅))
  && truthy_list
       (resolve_columns (get_column_mapping cfg tk) (default [] (columns page))).1.

(** What the loops of [main] do with the pages they fetch: each page goes to
    [insert_data_generic], in the order fetched. *)
Definition load_pages (table_name : string) (cfg : config) (tk : string)
    (pages : list block) : M unit :=
  for_each pages (fun page => insert_data_generic table_name page cfg tk).

(** The committed table after a page has been loaded into the table [t]:
    the page's rows are stored when the page gets as far as the row loop and
    the server accepts every row, and [t] is left as it is otherwise. *)
Definition page_effect (cfg : config) (tk : string) (t : list db_row) (page : block)
    : list db_row :=
  if loadable cfg tk page && accepted (page_db_rows cfg tk page)
  then store_rows t (page_db_rows cfg tk page)
  else t.

(** No transaction is open: the connection sees the committed table. *)
Definition clean (w : world) : Prop := working w = committed w.

(** The statements a computation has added to the log. *)
Definition statements_since (w w' : world) : list stmt :=
  drop (length (statements w)) (statements w').

Definition is_truncate (s : stmt) : bool :=
  match s with Truncate _ => true | _ => false end.

(** [m] keeps the relation [R] between the world it starts in and the world
    it leaves, and lets no storage error escape; [R] will be one of the
    three relations below. *)
Definition run_ok {A} (R : relation world) (m : M A) : Prop :=
  forall w, R w (m w).2 /\ (m w).1 <> Raise DatabaseError.

Definition any_world (w w' : world) : Prop := True.

(** The connection and the table are untouched. *)
Definition same_database (w w' : world) : Prop :=
  conn w' = conn w /\ committed w' = committed w /\ working w' = working w
  /\ statements w' = statements w.

Definition no_truncate (l : list stmt) : Prop :=
  Forall (fun s => is_truncate s = false) l.

(** Statements other than TRUNCATE were added, and if no transaction was
    open then none is open now and the committed table was only extended. *)
Definition extends_table (w w' : world) : Prop :=
  (exists l, statements w' = statements w ++ l /\ no_truncate l)
  /\ (clean w -> clean w' /\ committed w `prefix_of` committed w').

(** The cursor triple of a body, decoded: the first data row of the block
    under [cursor_key] when it is [[index, total, pagesize]] with integers
    for [total] and [pagesize]. *)
Definition cursor_triple (d : response) (cursor_key : string) : option (value * Z * Z) :=
  match d !! cursor_key with
  | Some cursor_block =>
      match data cursor_block with
      | Some ([index; total; pagesize] :: _) =>
          match int_of_value total, int_of_value pagesize with
          | Some tot, Some ps => Some (index, tot, ps)
          | _, _ => None
          end
      | _ => None
      end
  | None => None
  end.

(** The start value a page loop of [main] goes on with after the answer [d]
    to the request with [start], if it goes on. *)
Definition page_loop_next (data_block : string) (d : option response) (start : Z)
    : option Z :=
  match page_cursor (data_block +:+ ".cursor") d start with
  | Ok next => next
  | _ => None
  end.

(** The same for the loop of [get_all_securities], which also stops at a
    body without a page. *)
Definition securities_next (d : option response) (start : Z) : option Z :=
  match page_of d "securities" with
  | Some _ =>
      match securities_cursor (default ∅ d) start with
      | Ok next => next
      | _ => None
      end
  | None => None
  end.

(** [starts] are the start values of a traversal that begins at [start],
    whose [k]-th request is answered with [answer k s], and that goes on by
    [next]: the first value is [start]; where [next] gives [s'] for the
    answer to [s], the value after [s] is [s'], unless the traversal was cut
    off there ([finished] is false); where [next] gives nothing, [s] is the
    last value. *)
Fixpoint follows_cursor (next : option response -> Z -> option Z)
    (answer : nat -> Z -> option response) (finished : bool)
    (k : nat) (start : Z) (starts : list Z) : Prop :=
  match starts with
  | [] => finished = false
  | s :: rest =>
      s = start
      /\ match next (answer k s) s with
         | Some s' => follows_cursor next answer finished (S k) s' rest
         | None => rest = []
         end
  end.

Definition is_diverge {A} (r : result A) : bool :=
  match r with Diverge => true | _ => false end.

(** [m] comes to an end in every world: it returns or raises. *)
Definition ends {A} (m : M A) : Prop :=
  forall w, is_diverge (m w).1 = false.

(** The world after the request [req] was issued. *)
Definition after_fetch (req : request) (w : world) : world :=
  World (requests w ++ [req]) (conn w) (committed w) (working w) (statements w) (output w).

(** The world after the page of the answer [d], if it has one, was loaded. *)
Definition after_page (data_block table_name : string) (cfg : config) (tk : table_key)
    (d : option response) (w : world) : world :=
  match page_of d data_block with
  | Some page => (insert_data_generic table_name page cfg (table_key_name tk) w).2
  | None => w
  end.

(** A printed line that reports no affected row. *)
Definition reports_nothing_affected (m : message) : Prop :=
  match m with
  | MsgInserted _ _ affected => affected = 0%nat
  | _ => True
  end.
End Vocabulary.

(** ** A server, a table and a configuration for the examples *)

Definition is_null (v : value) : bool :=
  match v with VNull => true | _ => false end.

(** A destination table whose unique key is its first column and whose
    columns are all NOT NULL; TRUNCATE and connecting succeed. *)
Definition keyed_storage : Storage := {|
  key := value;
  row_key := fun r => head (row_values r);
  violates := fun r => existsb is_null (row_values r);
  truncate_denied := false;
  connect_ok := true
|}.

(** The value a row has in the column [secid], when it has one that is not
    NULL. *)
Definition secid_of (r : db_row) : option value :=
  match list_find (fun c => c = "secid") (row_columns r) with
  | Some (i, _) =>
      match row_values r !! i with
      | Some VNull | None => None
      | Some v => Some v
      end
  | None => None
  end.

(** A destination table with a UNIQUE constraint on its column [secid],
    which may be NULL: rows whose [secid] is NULL never conflict with one
    another.  The server accepts every row. *)
Definition unique_secid_storage : Storage := {|
  key := value;
  row_key := secid_of;
  violates := fun _ => false;
  truncate_denied := false;
  connect_ok := true
|}.

(** A page whose one row ends before the column [SECID]. *)
Definition short_row_page : block :=
  Block (Some ["SHORTNAME"; "SECID"]) (Some [[VStr "OFZ 26207"]]).

Definition example_config : config := {|
  api_base_url := Some "https://iss.moex.com/iss";
  api_default_limit := LimitMissing;
  database_schema := None;
  tables := {[ "bonds" := "bonds"; "quotas" := "quotas"; "coupons" := "coupons" ]};
  table_schemas := {[ "bonds" := ["secid"; "shortname"];
                      "quotas" := ["secid"; "tradedate"];
                      "coupons" := ["isin"; "coupondate"] ]}
|}.

Definition bond_page (secid : string) (shortname : value) : block :=
  Block (Some ["SECID"; "SHORTNAME"; "EXTRA"])
        (Some [[VStr secid; shortname; VInt 7]]).

(** A server that answers the first three requests with one bond each; the
    second bond has no short name. *)
Definition three_bonds_server : Network := {|
  http := fun n _ =>
    match n with
    | 0%nat => Some {[ "description" := bond_page "RU000A0JX0J2" (VStr "OFZ 26207") ]}
    | 1%nat => Some {[ "description" := bond_page "RU000A0JXFM1" VNull ]}
    | 2%nat => Some {[ "description" := bond_page "RU000A0JS3W6" (VStr "OFZ 26209") ]}
    | _ => None
    end
|}.

Definition coupon_page (isin : string) : block :=
  Block (Some ["ISIN"; "COUPONDATE"]) (Some [[VStr isin; VStr "2024-01-01"]]).

Definition cursor_block (index total pagesize : Z) : block :=
  Block (Some ["INDEX"; "TOTAL"; "PAGESIZE"])
        (Some [[VInt index; VInt total; VInt pagesize]]).

Definition start_of (req : request) : Z :=
  match params req !! "start" with
  | Some (PInt s) => s
  | _ => 0
  end.

(** A server with 250 rows in pages of 100: the request with [start] is
    answered with a page and the cursor [(start, 250, 100)]. *)
Definition paged_server (data_block : string) : Network := {|
  http := fun _ req =>
    Some (<[data_block +:+ ".cursor" := cursor_block (start_of req) 250 100]>
            {[ data_block := coupon_page "RU000A0JX0J2" ]})
|}.

(** A server whose total grows with the request: the request with [start]
    is answered with the cursor [(start, start + 2, 1)]. *)
Definition growing_server : Network := {|
  http := fun _ req =>
    Some {[ "coupons.cursor" := cursor_block (start_of req) (start_of req + 2) 1 ]}
|}.

(** A server that never answers. *)
Definition silent_server : Network := {| http := fun _ _ => None |}.

(** A server that sends three responses and then no more; its responses are
    those of [growing_server], whose total stays ahead of every start. *)
Definition three_answers_server : Network := {|
  http := fun n req => if (n <? 3)%nat then @http growing_server n req else None
|}.

(** ** The date range *)

(** What becomes of the script before [main] has its dates: it goes on with
    a value, leaves through [sys.exit(status)], or an exception escapes. *)
Inductive startup (A : Type) :=
  | Proceed (a : A)
  | Exit (status : Z)
  | Crash (e : exn).
Arguments Proceed {A} a.
Arguments Exit {A} status.
Arguments Crash {A} e.

(** The clock and [datetime.strptime(s, "%Y-%m-%d").date()], with dates as
    day ordinals; [None] is the [ValueError] of a text that is no date. *)
Class Calendar := {
  today : Z;
  strptime : string -> option Z
}.

(** [date.min.toordinal()]: [date - timedelta(days=1)] overflows below it. *)
Definition date_min : Z := 1.

(** [if args.date_to]: the option was given and is not the empty string. *)
Definition truthy_opt_str (o : option string) : bool :=
  match o with
  | Some s => truthy_str s
  | None => false
  end.

Definition get_date_range {cal : Calendar} (date_from date_to : option string)
    : startup (Z * Z) :=
  match
    (if truthy_opt_str date_to then
       match strptime (default EmptyString date_to) with
       | Some d => Proceed d
       | None => Exit 1
       end
     else Proceed today)
  with
  | Proceed end_date =>
      match
        (if truthy_opt_str date_from then
           match strptime (default EmptyString date_from) with
           | Some d => Proceed d
           | None => Exit 1
           end
         else if end_date - 1 <? date_min then Crash OverflowError
         else Proceed (end_date - 1))
      with
      | Proceed start_date =>
          if start_date >? end_date then Exit 1 else Proceed (start_date, end_date)
      | Exit status => Exit status
      | Crash e => Crash e
      end
  | Exit status => Exit status
  | Crash e => Crash e
  end.

(** A calendar for the examples: 2024-06-15 is day 739052, and the only
    text it reads as a date is ["2024-06-10"]. *)
Definition example_calendar : Calendar := {|
  today := 739052;
  strptime := fun s => if String.eqb s "2024-06-10" then Some 739047 else None
|}.

(** A server that cannot be reached: [psycopg2.connect] fails. *)
Definition unreachable_storage : Storage := {|
  key := value;
  row_key := fun r => head (row_values r);
  violates := fun _ => false;
  truncate_denied := false;
  connect_ok := false
|}.

(** A server that refuses TRUNCATE. *)
Definition read_only_storage : Storage := {|
  key := value;
  row_key := fun r => head (row_values r);
  violates := fun _ => false;
  truncate_denied := true;
  connect_ok := true
|}.

(** ** Vocabulary of the properties of whole loops *)

(** The number of occurrences of [c] in [s]. *)
Fixpoint count_char (c : Ascii.ascii) (s : string) : nat :=
  match s with
  | EmptyString => 0%nat
  | String c' s' => ((if Ascii.eqb c' c then 1 else 0) + count_char c s')%nat
  end.

(** The [days] dates from [date] on, in ascending order. *)
Fixpoint dates_from (date : Z) (days : nat) : list Z :=
  match days with
  | O => []
  | S days' => date :: dates_from (date + 1) days'
  end.

(** The pages that the answers to the requests [reqs] hold under
    [data_block], in the order of the requests, the first of which is the
    [k]-th request of the run. *)
Fixpoint fetched_pages {net : Network} (data_block : string) (k : nat)
    (reqs : list request) : list block :=
  match reqs with
  | [] => []
  | req :: reqs' =>
      match page_of (http k req) data_block with
      | Some page => [page]
      | None => []
      end ++ fetched_pages data_block (S k) reqs'
  end.


(** The block of a response that holds the rows of a table. *)
Definition data_block_of (t : table_key) : string :=
  match t with
  | bonds => "description"
  | quotas => "history"
  | coupons | amortizations | offers => table_key_name t
  end.

(** From [w] to [w'] requests were issued and the pages of their answers
    loaded, one by one in the order of the requests, and no transaction is
    open. *)
Definition loaded {py : PyStr} {net : Network} {st : Storage}
    (data_block : string) (cfg : config) (tk : string) (w w' : world) : Prop :=
  clean w'
  /\ exists reqs : list request,
       requests w' = requests w ++ reqs
       /\ committed w'
          = fold_left (page_effect cfg tk)
              (fetched_pages data_block (length (requests w)) reqs) (committed w).

(** [m] does nothing to the table but load the pages it fetches. *)
Definition loads {py : PyStr} {net : Network} {st : Storage} {A}
    (data_block : string) (cfg : config) (tk : string) (m : M A) : Prop :=
  forall w, clean w -> loaded data_block cfg tk w (m w).2.

(** [m1] and [m2] come to the same result and issue the same requests when
    they start after the same requests. *)
Definition agree {A} (m1 m2 : M A) : Prop :=
  forall w1 w2,
    requests w1 = requests w2 ->
    (m1 w1).1 = (m2 w2).1 /\ requests (m1 w1).2 = requests (m2 w2).2.

(** * The table manager: a shallow embedding of [table_manager.py]

    The second script of the repository creates, drops, clears and inspects
    the tables the collector writes to.  It has no loop that may run on:
    every computation ends, with a value or with an exception. *)

Module table_manager.

(** ** Configuration and arguments *)

Record config := Config {
  database_schema : option string;                       (* [DATABASE] schema *)
  tables : gmap string string;                           (* [TABLES] *)
  table_schemas : gmap string (list (string * string))   (* items of [TABLE_SCHEMA:<key>], in file order *)
}.

(** [config.get('TABLES', table_key, fallback=table_key)] *)
Definition get_table_name (cfg : config) (tk : string) : string :=
  default tk (tables cfg !! tk).

Definition get_db_schema (cfg : config) : string :=
  default "public" (database_schema cfg).

Definition get_all_table_keys : list string :=
  ["bonds"; "quotas"; "coupons"; "amortizations"; "offers"].

Inductive action := act_create | act_drop | act_clear | act_stats | act_list_tables.

Definition action_name (a : action) : string :=
  match a with
  | act_create => "create"
  | act_drop => "drop"
  | act_clear => "clear"
  | act_stats => "stats"
  | act_list_tables => "list_tables"
  end.

Record arguments := Args {
  args_action : action;
  args_table : option table_key
}.

(** ** The world of a run: the connection and what was sent over it *)

(** [cur.execute(query, params)] with [params=None] or a tuple of strings,
    [conn.commit()], [conn.rollback()] and [conn.close()]. *)
Inductive event :=
  | Execute (query : string) (params : option (list string))
  | Commit
  | Rollback
  | Close.

#[global] Instance event_eq_dec : EqDecision event.
Proof. solve_decision. Defined.

Inductive table_status := EXISTS | NOT_FOUND | CHECK_FAILED.

(** The lines the script prints, but for its progress lines ("Creating
    table ...", the headers and the footer of the statistics). *)
Inductive message :=
  | MsgConnectError                       (* "Error connecting to PostgreSQL: ..." *)
  | MsgQueryError                         (* "Database error executing query: ..." *)
  | MsgTable (tk db_name : string) (status : table_status)
                                          (* "  <key> -> <db_name> (<status>)" *)
  | MsgNoSection (tk : string)            (* "Error: Configuration section ... not found ..." *)
  | MsgNoColumns (tk : string)            (* "Error: No columns defined in ..." *)
  | MsgCreated (table : string)           (* "Table ... created successfully (or already existed)." *)
  | MsgCreateFailed (table : string)      (* "Failed to create table ...: ..." *)
  | MsgDropped (table : string)           (* "Table ... dropped successfully (if it existed)." *)
  | MsgDropFailed (table : string)        (* "Failed to drop table ..." *)
  | MsgCleared (table : string)           (* "Table ... cleared successfully." *)
  | MsgClearFailed (table : string)       (* "Failed to clear table ..." *)
  | MsgTotalRows (v : value)              (* "  Total Rows: ..." *)
  | MsgRowCountFailed                     (* "  Failed to get row count." *)
  | MsgRecentBy (date_col : string)       (* "  Recent entries by ...:" *)
  | MsgDateRow (date count : value)       (* "    <date>: <count> rows" *)
  | MsgDateFailed (date_col : string)     (* "  Failed to get date statistics for ..." *)
  | MsgNoDateColumn                       (* "  No standard date column found ..." *)
  | MsgDistinct (key_col : string) (v : value)
                                          (* "  Distinct <KEY>s: ..." *)
  | MsgDistinctFailed (key_col : string)  (* "  Failed to get distinct <KEY> count." *)
  | MsgNoKeyColumn                        (* "  No standard key column ... found ..." *)
  | MsgTableSize (v : value)              (* "  Table Size (approx.): ..." *)
  | MsgSizeFailed                         (* "  Failed to get table size." *)
  | MsgSomeFailed (a : action)            (* "Some operations for action '...' failed." *)
  | MsgCompleted (a : action) (processed_tables : string)
                                          (* "Action '...' completed successfully for table(s): ..." *)
  | MsgClosed.                            (* "Database connection closed." *)

Record world := World {
  conn : conn_state;
  events : list event;
  output : list message
}.

(** The PostgreSQL server: whether [psycopg2.connect] succeeds, and what
    [cur.execute] does after the events so far: [None] is [psycopg2.Error],
    [Some rows] is success, with the rows [cur.fetchall()] then returns. *)
Class Server := {
  connect_ok : bool;
  answer : list event -> string -> option (list string) -> option (list row)
}.

(** ** Exceptions, and a state and exception monad over the world *)

Inductive exn :=
  | Exception            (* raise Exception(...) *)
  | IndexError
  | TypeError
  | SystemExit (status : Z).

(** [except Exception] catches every exception but [SystemExit]. *)
Definition is_exception (e : exn) : bool :=
  match e with SystemExit _ => false | _ => true end.

Inductive outcome (A : Type) :=
  | Return (a : A)
  | Throw (e : exn).
Arguments Return {A} a.
Arguments Throw {A} e.

(** The status the interpreter exits with. *)
Definition exit_status {A} (r : outcome A) : Z :=
  match r with
  | Return _ => 0
  | Throw (SystemExit status) => status
  | Throw _ => 1
  end.

Definition M (A : Type) : Type := world -> outcome A * world.

Definition ret {A} (a : A) : M A := fun w => (Return a, w).
Definition throw {A} (e : exn) : M A := fun w => (Throw e, w).

Definition bind {A B} (m : M A) (f : A -> M B) : M B :=
  fun w =>
    match m w with
    | (Return a, w') => f a w'
    | (Throw e, w') => (Throw e, w')
    end.

Declare Scope manager_scope.
Notation "x <- m ;; k" := (bind m (fun x => k))
  (at level 100, m at next level, right associativity) : manager_scope.
Notation "m ;; k" := (bind m (fun _ => k))
  (at level 100, right associativity) : manager_scope.
#[local] Open Scope manager_scope.

(** [try: body except Exception: handler] *)
Definition try_except {A} (body : M A) (handler : M A) : M A :=
  fun w =>
    match body w with
    | (Throw e, w') => if is_exception e then handler w' else (Throw e, w')
    | rw => rw
    end.

(** [try: body finally: final] *)
Definition try_finally {A} (body : M A) (final : M unit) : M A :=
  fun w =>
    match body w with
    | (r, w') =>
        match final w' with
        | (Return _, w'') => (r, w'')
        | (Throw e, w'') => (Throw e, w'')
        end
    end.

(** [for x in l: body x] *)
Fixpoint for_each {A} (l : list A) (body : A -> M unit) : M unit :=
  match l with
  | [] => ret tt
  | x :: l' => body x ;; for_each l' body
  end.

Definition print (m : message) : M unit :=
  fun w => (Return tt, World (conn w) (events w) (output w ++ [m])).

Definition log_event (e : event) : M unit :=
  fun w => (Return tt, World (conn w) (events w ++ [e]) (output w)).

(** [row[i]] *)
Definition index (r : row) (i : nat) : M value :=
  match r !! i with
  | Some v => ret v
  | None => throw IndexError
  end.

(** ** The connection *)

Section Manager.
Context {py : PyStr} {srv : Server}.

(** [get_db_connection]; the connection options of [DATABASE] are taken to
    be there. *)
Definition get_db_connection : M bool :=
  fun w =>
    if connect_ok then (Return true, World Connected (events w) (output w))
    else (Return false, World (conn w) (events w) (output w ++ [MsgConnectError])).

Definition close : M unit :=
  fun w => (Return tt, World Closed (events w ++ [Close]) (output w)).

(** What [execute_query] returns: the rows fetched, [True], or [None]. *)
Inductive query_result :=
  | Rows (rows : list row)
  | Done
  | Failed.

(** [if result] / [if not result] *)
Definition truthy_result (r : query_result) : bool :=
  match r with
  | Rows rows => truthy_list rows
  | Done => true
  | Failed => false
  end.

(** [execute_query(conn, query, params, fetch)]: with [fetch] the rows are
    returned and nothing is committed; without it the statement is
    committed; an error of the server is printed and rolled back. *)
Definition execute_query (query : string) (params : option (list string)) (fetch : bool)
    : M query_result :=
  fun w =>
    match answer (events w) query params with
    | Some rows =>
        if fetch then
          (Return (Rows rows), World (conn w) (events w ++ [Execute query params]) (output w))
        else
          (Return Done,
           World (conn w) (events w ++ [Execute query params; Commit]) (output w))
    | None =>
        (Return Failed,
         World (conn w) (events w ++ [Execute query params; Rollback])
               (output w ++ [MsgQueryError]))
    end.

(** ** The actions *)

Definition exists_query : string :=
"
            SELECT EXISTS (
               SELECT FROM information_schema.tables
               WHERE  table_schema = %s
               AND    table_name   = %s
            );
        ".

Definition list_tables (cfg : config) : M unit :=
  let schema := get_db_schema cfg in
  for_each get_all_table_keys (fun tk =>
    let db_name := get_table_name cfg tk in
    result <- execute_query exists_query (Some [schema; db_name]) true ;;
    match result with
    | Rows ((v :: _) :: _) =>
        print (MsgTable tk db_name (if truthy_value v then EXISTS else NOT_FOUND))
    | Rows _ | Failed => print (MsgTable tk db_name CHECK_FAILED)
    | Done => throw TypeError
    end).

Definition newline : string := String (Ascii.ascii_of_nat 10) EmptyString.

(** [f"CREATE INDEX IF NOT EXISTS idx_{table_name}_<col> ON {db_schema}.{table_name} (<col>);"]
    when the schema section has the option [col]. *)
Definition index_sql_part (items : list (string * string)) (db_schema table_name col : string)
    : list string :=
  if bool_decide (col ∈ items.*1) then
    ["CREATE INDEX IF NOT EXISTS idx_" +:+ table_name +:+ "_" +:+ col +:+ " ON "
     +:+ db_schema +:+ "." +:+ table_name +:+ " (" +:+ col +:+ ");"]
  else [].

(** The text that [create_table] builds from the schema section. *)
Definition create_table_full_sql (items : list (string * string))
    (db_schema table_name : string) : string :=
  let columns_def :=
    map (fun item : string * string => "    " +:+ item.1 +:+ " " +:+ item.2) items in
  let columns_sql := String.concat ("," +:+ newline) columns_def in
  let index_sql_parts :=
    index_sql_part items db_schema table_name "secid"
    ++ index_sql_part items db_schema table_name "isin"
    ++ index_sql_part items db_schema table_name "tradedate"
    ++ index_sql_part items db_schema table_name "coupondate"
    ++ index_sql_part items db_schema table_name "amortdate"
    ++ index_sql_part items db_schema table_name "offerdate" in
  let index_sql := String.concat newline index_sql_parts in
  let create_table_sql :=
    newline +:+ "        CREATE TABLE IF NOT EXISTS " +:+ db_schema +:+ "." +:+ table_name
    +:+ " (" +:+ newline +:+ columns_sql +:+ newline +:+ "        );" +:+ newline +:+ "    " in
  if truthy_str index_sql then create_table_sql +:+ newline +:+ index_sql
  else create_table_sql.

(** [[stmt.strip() for stmt in full_sql.split(';') if stmt.strip()]] *)
Definition split_statements (full_sql : string) : list string :=
  map strip (filter (fun stmt => truthy_str (strip stmt) = true)
                    (split (Ascii.ascii_of_nat 59) full_sql)).

Definition create_table (tk : string) (cfg : config) : M bool :=
  let table_name := get_table_name cfg tk in
  let db_schema := get_db_schema cfg in
  match table_schemas cfg !! tk with
  | None => print (MsgNoSection tk) ;; ret false
  | Some items =>
      if negb (truthy_list items) then print (MsgNoColumns tk) ;; ret false
      else
        let full_sql := create_table_full_sql items db_schema table_name in
        try_except
          (let statements := split_statements full_sql in
           for_each statements (fun stmt =>
             if truthy_str stmt then
               result <- execute_query stmt None false ;;
               if negb (truthy_result result) then throw Exception else ret tt
             else ret tt) ;;
           print (MsgCreated (db_schema +:+ "." +:+ table_name)) ;;
           ret true)
          (print (MsgCreateFailed (db_schema +:+ "." +:+ table_name)) ;;
           ret false)
  end.

Definition drop_table (tk : string) (cfg : config) : M query_result :=
  let table_name := get_table_name cfg tk in
  let db_schema := get_db_schema cfg in
  let query := "DROP TABLE IF EXISTS " +:+ db_schema +:+ "." +:+ table_name +:+ " CASCADE;" in
  result <- execute_query query None false ;;
  (if truthy_result result then print (MsgDropped (db_schema +:+ "." +:+ table_name))
   else print (MsgDropFailed (db_schema +:+ "." +:+ table_name))) ;;
  ret result.

Definition clear_table (tk : string) (cfg : config) : M query_result :=
  let table_name := get_table_name cfg tk in
  let db_schema := get_db_schema cfg in
  let query := "TRUNCATE TABLE " +:+ db_schema +:+ "." +:+ table_name +:+ ";" in
  result <- execute_query query None false ;;
  (if truthy_result result then print (MsgCleared (db_schema +:+ "." +:+ table_name))
   else print (MsgClearFailed (db_schema +:+ "." +:+ table_name))) ;;
  ret result.

Definition check_col_query : string :=
"
            SELECT EXISTS (
                SELECT 1
                FROM information_schema.columns
                WHERE table_schema = %s
                AND table_name = %s
                AND column_name = %s
            );
        ".

(** [result is not None and len(result) > 0 and result[0][0]] for the
    result of a query that was run with [fetch=True]. *)
Definition column_exists (result : query_result) : M bool :=
  match result with
  | Rows (r :: _) => v <- index r 0 ;; ret (truthy_value v)
  | Rows [] | Failed => ret false
  | Done => throw TypeError
  end.

Definition date_count_query (db_schema table_name date_col : string) : string :=
  newline +:+ "                SELECT " +:+ date_col +:+ ", COUNT(*) as cnt" +:+ newline
  +:+ "                FROM " +:+ db_schema +:+ "." +:+ table_name +:+ newline
  +:+ "                WHERE " +:+ date_col +:+ " IS NOT NULL" +:+ newline
  +:+ "                GROUP BY " +:+ date_col +:+ newline
  +:+ "                ORDER BY " +:+ date_col +:+ " DESC" +:+ newline
  +:+ "                LIMIT 10;" +:+ newline
  +:+ "            ".

(** The loop over [date_columns], with its [break]; the value is
    [date_stats_found]. *)
Fixpoint date_statistics (db_schema table_name : string) (date_columns : list string)
    : M bool :=
  match date_columns with
  | [] => ret false
  | date_col :: rest =>
      col_exists_result <-
        execute_query check_col_query (Some [db_schema; table_name; date_col]) true ;;
      col_exists <- column_exists col_exists_result ;;
      if col_exists then
        date_result <-
          execute_query (date_count_query db_schema table_name date_col) None true ;;
        match date_result with
        | Rows rows =>
            print (MsgRecentBy date_col) ;;
            for_each rows (fun r =>
              date <- index r 0 ;;
              count <- index r 1 ;;
              print (MsgDateRow date count)) ;;
            ret true
        | Done => print (MsgRecentBy date_col) ;; throw TypeError
        | Failed =>
            print (MsgDateFailed date_col) ;;
            date_statistics db_schema table_name rest
        end
      else date_statistics db_schema table_name rest
  end.

(** The loop over [key_columns_to_check], with its [break]; the value is
    [key_stats_found]. *)
Fixpoint key_statistics (db_schema table_name : string) (key_columns_to_check : list string)
    : M bool :=
  match key_columns_to_check with
  | [] => ret false
  | key_col :: rest =>
      key_exists_result <-
        execute_query check_col_query (Some [db_schema; table_name; key_col]) true ;;
      key_exists <- column_exists key_exists_result ;;
      if key_exists then
        key_result <-
          execute_query ("SELECT COUNT(DISTINCT " +:+ key_col +:+ ") FROM "
                         +:+ db_schema +:+ "." +:+ table_name +:+ ";") None true ;;
        match key_result with
        | Rows (r :: _) =>
            v <- index r 0 ;;
            print (MsgDistinct key_col v) ;;
            ret true
        | Rows [] | Failed =>
            print (MsgDistinctFailed key_col) ;;
            key_statistics db_schema table_name rest
        | Done => throw TypeError
        end
      else key_statistics db_schema table_name rest
  end.

Definition gather_statistics (tk : string) (cfg : config) : M bool :=
  let table_name := get_table_name cfg tk in
  let db_schema := get_db_schema cfg in
  (* 1. Total row count *)
  result <- execute_query ("SELECT COUNT(*) FROM " +:+ db_schema +:+ "." +:+ table_name +:+ ";")
                          None true ;;
  match result with
  | Rows (r :: _) => v <- index r 0 ;; print (MsgTotalRows v)
  | Rows [] | Failed => print MsgRowCountFailed
  | Done => throw TypeError
  end ;;
  (* 2. Row count by date *)
  date_stats_found <-
    date_statistics db_schema table_name
      ["tradedate"; "coupondate"; "amortdate"; "offerdate"; "matdate"] ;;
  (if negb date_stats_found then print MsgNoDateColumn else ret tt) ;;
  (* 3. Distinct ISIN/SECID count *)
  key_stats_found <- key_statistics db_schema table_name ["isin"; "secid"] ;;
  (if negb key_stats_found then print MsgNoKeyColumn else ret tt) ;;
  (* 4. Table size *)
  size_result <-
    execute_query "SELECT pg_size_pretty(pg_total_relation_size(%s));"
                  (Some [db_schema +:+ "." +:+ table_name]) true ;;
  match size_result with
  | Rows ((v :: _) :: _) => print (MsgTableSize v)
  | Rows _ | Failed => print MsgSizeFailed
  | Done => throw TypeError
  end ;;
  ret true.

(** ** [main] *)

(** The loop of [main] over [tables_to_process], with its [success] flag. *)
Fixpoint process_tables (a : action) (cfg : config) (tables_to_process : list string)
    (success : bool) : M bool :=
  match tables_to_process with
  | [] => ret success
  | tk :: rest =>
      success <-
        match a with
        | act_create =>
            created <- create_table tk cfg ;;
            ret (if negb created then false else success)
        | act_drop =>
            result <- drop_table tk cfg ;;
            ret (if negb (truthy_result result) then false else success)
        | act_clear =>
            result <- clear_table tk cfg ;;
            ret (if negb (truthy_result result) then false else success)
        | act_stats =>
            gather_statistics tk cfg ;;
            ret success
        | act_list_tables => ret success
        end ;;
      process_tables a cfg rest success
  end.

(** The body of the [try] block of [main]. *)
Definition main_body (args : arguments) (cfg : config) : M unit :=
  match args_action args with
  | act_list_tables => list_tables cfg     (* ... and return *)
  | a =>
      let tables_to_process :=
        match args_table args with
        | Some t => [table_key_name t]
        | None => get_all_table_keys
        end in
      success <- process_tables a cfg tables_to_process true ;;
      if negb success then
        print (MsgSomeFailed a) ;;
        throw (SystemExit 1)
      else
        print (MsgCompleted a (match args_table args with
                               | None => String.concat ", " tables_to_process
                               | Some t => table_key_name t
                               end))
  end.

(** [main], after [parse_arguments] and [load_config]. *)
Definition main (args : arguments) (cfg : config) : M unit :=
  connected <- get_db_connection ;;
  if negb connected then ret tt
  else try_finally (main_body args cfg) (close ;; print MsgClosed).
End Manager.

(** A run starts with no connection, nothing sent and nothing printed. *)
Definition initial_world : world := World NotConnected [] [].

(** ** Vocabulary of the properties *)

(** [m] leaves the connection as it is, sends only events that satisfy [P],
    raises only exceptions that satisfy [E], and returns only values that
    satisfy [Q]. *)
Definition respects {A} (P : event -> Prop) (E : exn -> Prop) (Q : A -> Prop) (m : M A)
    : Prop :=
  forall w,
    conn (m w).2 = conn w
    /\ (exists l, events (m w).2 = events w ++ l /\ Forall P l)
    /\ match (m w).1 with
       | Return a => Q a
       | Throw e => E e
       end.

(** An event of a computation that only reads: a query, or the rollback
    after one that failed. *)
Definition reads (e : event) : Prop :=
  match e with
  | Execute _ _ | Rollback => True
  | Commit | Close => False
  end.

(** A statement that was sent without parameters, and what became of it. *)
Definition attempt (query : string) (committed : bool) : list event :=
  [Execute query None; if committed then Commit else Rollback].

Definition drop_query (cfg : config) (tk : string) : string :=
  "DROP TABLE IF EXISTS " +:+ get_db_schema cfg +:+ "." +:+ get_table_name cfg tk
  +:+ " CASCADE;".

Definition clear_query (cfg : config) (tk : string) : string :=
  "TRUNCATE TABLE " +:+ get_db_schema cfg +:+ "." +:+ get_table_name cfg tk +:+ ";".

(** [tables_to_process] of [main] *)
Definition tables_of (args : arguments) : list string :=
  match args_table args with
  | Some t => [table_key_name t]
  | None => get_all_table_keys
  end.

(** ** A configuration and two servers for the examples *)

Definition example_config : config := {|
  database_schema := None;
  tables := {[ "bonds" := "moex_bonds" ]};
  table_schemas :=
    {[ "bonds" := [("secid", "VARCHAR(36) PRIMARY KEY"); ("isin", "VARCHAR(12)");
                   ("matdate", "DATE")];
       "quotas" := [("tradedate", "DATE"); ("secid", "VARCHAR(36)")] ]}
|}.

(** A server on which the table [public.quotas] cannot be touched and no
    index can be made on [isin]; every other statement succeeds and every
    query returns the one row [[1]]. *)
Definition example_server : Server := {|
  connect_ok := true;
  answer := fun _ query _ =>
    if String.prefix "CREATE INDEX IF NOT EXISTS idx_moex_bonds_isin" query then None
    else if String.eqb query "DROP TABLE IF EXISTS public.quotas CASCADE;" then None
    else if String.eqb query "TRUNCATE TABLE public.quotas;" then None
    else Some [[VInt 1]]
|}.

(** A server that refuses every statement. *)
Definition refusing_server : Server := {|
  connect_ok := true;
  answer := fun _ _ _ => None
|}.

End table_manager.

(** * Properties *)

(** ** Column resolution *)

Section ColumnMapperFacts.
Context {py : PyStr}.

Lemma fold_insert_lookup (opts : list string) (m : gmap string string) (c : string) :
  fold_left (fun mapping o => <[upper o := o]> mapping) opts m !! c
  = match last (options_for opts c) with
    | Some d => Some d
    | None => m !! c
    end.
Proof.
  revert m. induction opts as [|o opts IH]; intros m; simpl; [done|].
  rewrite IH. unfold options_for. rewrite filter_cons.
  destruct (decide (upper o = c)) as [Heq|Hne].
  - rewrite last_cons. destruct (last (filter _ opts)); [done|].
    subst c. by rewrite lookup_insert_eq.
  - destruct (last (filter _ opts)); [done|]. by rewrite lookup_insert_ne.
Qed.

Lemma mapping_of_options_lookup (opts : list string) (c : string) :
  mapping_of_options opts !! c = last (options_for opts c).
Proof.
  unfold mapping_of_options. rewrite fold_insert_lookup, lookup_empty.
  by destruct (last _).
Qed.
End ColumnMapperFacts.

Lemma resolve_fold (m : gmap string string) (l : list string) (k : nat)
    (acc : list string * list nat) :
  fold_left (resolve_step m) (combine (seq k (length l)) l) acc
  = (acc.1 ++ (matched m k l).*2, acc.2 ++ (matched m k l).*1).
Proof.
  revert k acc. induction l as [|c l IH]; intros k [ds ixs]; simpl.
  - by rewrite !app_nil_r.
  - rewrite IH. unfold resolve_step. simpl.
    destruct (m !! c); simpl; [|done].
    by rewrite <- !app_assoc.
Qed.

Lemma resolve_columns_matched (m : gmap string string) (cols : list string) :
  resolve_columns m cols = ((matched m 0 cols).*2, (matched m 0 cols).*1).
Proof. unfold resolve_columns, enumerate. by rewrite resolve_fold. Qed.

Lemma matched_elem (m : gmap string string) (k : nat) (l : list string) (i : nat) (d : string) :
  (i, d) ∈ matched m k l <->
  (k <= i)%nat /\ exists c, l !! (i - k)%nat = Some c /\ m !! c = Some d.
Proof.
  revert k. induction l as [|c l IH]; intros k; simpl.
  - split; [by intros ?%elem_of_nil | by intros (_ & ? & ? & _)].
  - assert (Hrec : (i, d) ∈ matched m (S k) l <->
                   (k < i)%nat /\ exists c', (c :: l) !! (i - k)%nat = Some c' /\ m !! c' = Some d).
    { rewrite IH. split.
      - intros (Hle & c' & Hl & Hm). split; [lia|]. exists c'. split; [|done].
        replace (i - k)%nat with (S (i - S k)) by lia. done.
      - intros (Hlt & c' & Hl & Hm). split; [lia|]. exists c'. split; [|done].
        replace (i - k)%nat with (S (i - S k)) in Hl by lia. done. }
    destruct (m !! c) as [d0|] eqn:Hc.
    + rewrite elem_of_cons, Hrec. split.
      * intros [Heq | (Hlt & c' & Hl & Hm)].
        -- injection Heq as -> ->. split; [lia|]. exists c.
           by rewrite Nat.sub_diag.
        -- split; [lia|]. by exists c'.
      * intros (Hle & c' & Hl & Hm).
        destruct (decide (i = k)) as [->|Hne].
        -- left. rewrite Nat.sub_diag in Hl. simpl in Hl. congruence.
        -- right. split; [lia|]. by exists c'.
    + rewrite Hrec. split.
      * intros (Hlt & c' & Hl & Hm). split; [lia|]. by exists c'.
      * intros (Hle & c' & Hl & Hm).
        destruct (decide (i = k)) as [->|Hne].
        -- rewrite Nat.sub_diag in Hl. simpl in Hl. congruence.
        -- split; [lia|]. by exists c'.
Qed.

Lemma matched_lower (m : gmap string string) (k : nat) (l : list string) :
  Forall (fun i => (k <= i)%nat) (matched m k l).*1.
Proof.
  revert k. induction l as [|c l IH]; intros k; simpl; [constructor|].
  assert (Forall (fun i => (k <= i)%nat) (matched m (S k) l).*1).
  { eapply Forall_impl; [apply IH|]. simpl. lia. }
  destruct (m !! c); simpl; [constructor; [lia|done] | done].
Qed.

Lemma matched_sorted (m : gmap string string) (k : nat) (l : list string) :
  StronglySorted lt (matched m k l).*1.
Proof.
  revert k. induction l as [|c l IH]; intros k; simpl; [constructor|].
  destruct (m !! c); simpl; [|apply IH].
  constructor; [apply IH|].
  eapply Forall_impl; [apply (matched_lower m (S k) l)|]. simpl. lia.
Qed.

(** §8 of the specification, column projection: of the page columns
    SECID, SHORTNAME, EXTRA the mapping of [secid] and [shortname] keeps the
    first two. *)
Example resolve_columns_drops_extra :
  resolve_columns (@mapping_of_options ascii_str ["secid"; "shortname"])
                  ["SECID"; "SHORTNAME"; "EXTRA"]
  = (["secid"; "shortname"], [0; 1]%nat).
Proof. vm_compute. reflexivity. Qed.

(** C2, as stated, fails: the page column [secid] matches the mapping entry
    [secid] case-insensitively, and yet column resolution drops it, because
    the mapping is keyed by the upper-case form [SECID] and the page name is
    looked up as it is. *)
Lemma resolve_columns_lowercase_dropped :
  let opts := ["secid"] in
  let cols := ["secid"] in
  (exists o, o ∈ opts /\ ascii_upper o = ascii_upper "secid")
  /\ cols !! 0%nat = Some "secid"
  /\ resolve_columns (@mapping_of_options ascii_str opts) cols = ([], []).
Proof.
  cbv zeta. split; [|split].
  - exists "secid". split; [apply list_elem_of_here | reflexivity].
  - reflexivity.
  - vm_compute. reflexivity.
Qed.

(** C2 (amended).  For every schema mapping (the options [opts] of the schema
    section) and every page column list [cols], column resolution selects
    exactly the page columns whose name is equal to the upper-case form of
    some option (the page name itself is not normalised), in page order; it
    appends the last option with that upper-case form as destination column
    and records the page-column index; the other page columns are dropped,
    and resolution never fails. *)
Theorem resolve_columns_exact_upper_match {py : PyStr} (opts cols : list string) :
  let resolved := resolve_columns (mapping_of_options opts) cols in
  length resolved.1 = length resolved.2
  /\ StronglySorted lt resolved.2
  /\ forall (i : nat) (d : string),
       (i, d) ∈ zip resolved.2 resolved.1 <->
       exists c, cols !! i = Some c /\ last (options_for opts c) = Some d.
Proof.
  cbv zeta. rewrite resolve_columns_matched. simpl.
  split; [by rewrite !length_fmap|].
  split; [apply matched_sorted|].
  intros i d. rewrite zip_fst_snd, matched_elem.
  rewrite Nat.sub_0_r. split.
  - intros (_ & c & Hc & Hm). exists c. by rewrite <- mapping_of_options_lookup.
  - intros (c & Hc & Hm). split; [lia|]. exists c. by rewrite mapping_of_options_lookup.
Qed.

(** ** Row projection *)

(** The guard [i < len(row)] keeps every index inside the row, so the
    comprehension builds its row and raises nothing. *)
Lemma project_row_ok (r : row) (idxs : list nat) :
  project_row r idxs = Ok (projected r idxs).
Proof.
  induction idxs as [|i idxs IH]; simpl; [done|]. rewrite IH. unfold index_row.
  destruct (Nat.ltb_spec i (length r)) as [Hlt|Hge].
  - by destruct (lookup_lt_is_Some_2 r i Hlt) as [v ->].
  - by rewrite (lookup_ge_None_2 r i Hge).
Qed.

Lemma projected_lookup (r : row) (idxs : list nat) (j i : nat) :
  idxs !! j = Some i ->
  projected r idxs !! j = Some (default VNull (r !! i)).
Proof.
  intros Hj. unfold projected.
  change (map ?f ?l) with (f <$> l). by rewrite list_lookup_fmap, Hj.
Qed.

(** C8.  Building the destination row does not fail, whatever the length of
    the page row: the comprehension returns a row, which has one value for
    each resolved column, at every position the value the page row has at
    the source index, or NULL where it has none; so a resolved position [j]
    whose source index [i] lies beyond the end of the page row holds NULL,
    where [row[i]] itself raises [IndexError]. *)
Theorem project_row_short_row_null (r : row) (idxs : list nat) (j i : nat)
    (Hj : idxs !! j = Some i) (Hshort : (length r <= i)%nat) :
  index_row r i = Raise IndexError
  /\ exists db_row : list value,
       project_row r idxs = Ok db_row
       /\ db_row = map (fun k => default VNull (r !! k)) idxs
       /\ length db_row = length idxs
       /\ db_row !! j = Some VNull.
Proof.
  split.
  - unfold index_row. by rewrite (lookup_ge_None_2 r i Hshort).
  - exists (projected r idxs). split; [apply project_row_ok|]. split; [done|]. split.
    + unfold projected. apply length_map.
    + rewrite (projected_lookup r idxs j i Hj).
      by rewrite (lookup_ge_None_2 r i Hshort).
Qed.

Lemma project_row_short_row_null_witness :
  index_row [VStr "RU000A0JX0J2"] 2 = Raise IndexError
  /\ exists db_row : list value,
       project_row [VStr "RU000A0JX0J2"] [0; 2]%nat = Ok db_row
       /\ db_row = [VStr "RU000A0JX0J2"; VNull]
       /\ length db_row = 2%nat
       /\ db_row !! 1%nat = Some VNull.
Proof.
  apply (project_row_short_row_null [VStr "RU000A0JX0J2"] [0; 2]%nat 1 2).
  - reflexivity.
  - simpl. lia.
Defined.

(** The values a row does supply are copied from their source index. *)
Lemma project_row_in_range (r : row) (idxs : list nat) (j i : nat) (v : value) :
  idxs !! j = Some i -> r !! i = Some v ->
  exists db_row, project_row r idxs = Ok db_row /\ db_row !! j = Some v.
Proof.
  intros Hj Hv. exists (projected r idxs). split; [apply project_row_ok|].
  by rewrite (projected_lookup r idxs j i Hj), Hv.
Qed.

(** ** Loading one page *)

Section InsertFacts.
Context {st : Storage} {py : PyStr}.

Lemma store_rows_app (t : list db_row) (rs1 rs2 : list db_row) :
  store_rows t (rs1 ++ rs2) = store_rows (store_rows t rs1) rs2.
Proof. unfold store_rows. apply fold_left_app. Qed.

Lemma store_row_prefix (t : list db_row) (r : db_row) : t `prefix_of` store_row t r.
Proof.
  unfold store_row. destruct (key_taken r t); [done|]. by apply prefix_app_r.
Qed.

Lemma store_rows_prefix (t : list db_row) (rs : list db_row) :
  t `prefix_of` store_rows t rs.
Proof.
  revert t. induction rs as [|r rs IH]; intros t; simpl; [done|].
  etrans; [apply store_row_prefix | apply IH].
Qed.

Lemma key_taken_prefix (r : db_row) (t t' : list db_row) :
  t `prefix_of` t' -> key_taken r t = true -> key_taken r t' = true.
Proof.
  intros [l ->]. unfold key_taken. destruct (row_key r); [|done].
  rewrite existsb_app. intros ->. done.
Qed.

Lemma key_taken_store_row (r : db_row) (t : list db_row) :
  row_key r <> None -> key_taken r (store_row t r) = true.
Proof.
  intros Hk. unfold store_row. destruct (key_taken r t) eqn:E; [done|].
  unfold key_taken in *. destruct (row_key r) as [k|] eqn:Ek; [|done].
  rewrite existsb_app. simpl. rewrite Ek.
  rewrite bool_decide_eq_true_2 by done. by rewrite orb_true_r.
Qed.

Lemma store_rows_all_taken (t : list db_row) (rs : list db_row) :
  Forall (fun r => key_taken r t = true) rs -> store_rows t rs = t.
Proof.
  induction 1 as [|r rs Hr _ IH]; [done|].
  unfold store_rows in *. simpl.
  replace (store_row t r) with t by (unfold store_row; by rewrite Hr).
  exact IH.
Qed.

Lemma store_rows_taken (t : list db_row) (rs : list db_row) :
  Forall (fun r => row_key r <> None) rs ->
  Forall (fun r => key_taken r (store_rows t rs) = true) rs.
Proof.
  revert t. induction rs as [|r rs IH]; intros t Hk; simpl; [constructor|].
  inversion Hk as [|? ? Hr Hrs]; subst. constructor; [|by apply IH].
  eapply key_taken_prefix; [apply store_rows_prefix|].
  by apply key_taken_store_row.
Qed.

(** One INSERT, run. *)
Lemma execute_insert_run (table : string) (r : db_row) (w : world) :
  execute_insert table r w
  = if violates r then
      (Raise DatabaseError,
       World (requests w) (conn w) (committed w) (working w)
             (statements w ++ [Insert table r]) (output w))
    else
      (Ok (if key_taken r (working w) then 0 else 1)%nat,
       World (requests w) (conn w) (committed w) (store_row (working w) r)
             (statements w ++ [Insert table r]) (output w)).
Proof.
  unfold execute_insert, bind, log_stmt, get_working, set_working, store_row, ret, raise.
  destruct w as [rq c cm wk stm out].
  destruct (violates r); [reflexivity|].
  simpl. destruct (key_taken r wk); reflexivity.
Qed.

(** The row loop when the server accepts every row. *)
Lemma insert_rows_accepted (table : string) (cols : list string) (idxs : list nat)
    (rows : list row) (n : nat) (w : world) :
  let rs := map (fun r => DbRow cols (projected r idxs)) rows in
  accepted rs = true ->
  insert_rows table cols idxs rows n w
  = (Ok (n + (length (store_rows (working w) rs) - length (working w)))%nat,
     World (requests w) (conn w) (committed w) (store_rows (working w) rs)
           (statements w ++ map (Insert table) rs) (output w)).
Proof.
  cbv zeta. revert n w. induction rows as [|r rows IH]; intros n w Hacc.
  - simpl. unfold ret. rewrite Nat.sub_diag, Nat.add_0_r, app_nil_r.
    by destruct w.
  - simpl in Hacc. apply andb_prop in Hacc as [Hr Hacc].
    apply negb_true_iff in Hr.
    simpl insert_rows. rewrite project_row_ok. unfold bind, lift.
    rewrite execute_insert_run, Hr, IH by done. simpl.
    rewrite <- app_assoc. simpl. f_equal. f_equal.
    set (r' := DbRow cols (projected r idxs)).
    set (rs := map _ rows).
    pose proof (prefix_length _ _ (store_rows_prefix (store_row (working w) r') rs)) as H1.
    assert (length (store_row (working w) r')
            = (length (working w) + if key_taken r' (working w) then 0 else 1)%nat) as H2.
    { unfold store_row. destruct (key_taken r' (working w)); [lia|].
      rewrite length_app. simpl. lia. }
    destruct (key_taken r' (working w)); lia.
Qed.

(** The row loop when the server rejects a row: the exception leaves the
    loop, with the committed table as it was. *)
Lemma insert_rows_rejected (table : string) (cols : list string) (idxs : list nat)
    (rows : list row) (n : nat) (w : world) :
  let rs := map (fun r => DbRow cols (projected r idxs)) rows in
  accepted rs = false ->
  exists (k : nat) (t : list db_row),
    insert_rows table cols idxs rows n w
    = (Raise DatabaseError,
       World (requests w) (conn w) (committed w) t
             (statements w ++ map (Insert table) (take (S k) rs)) (output w)).
Proof.
  cbv zeta. revert n w. induction rows as [|r rows IH]; intros n w Hacc.
  - discriminate.
  - simpl in Hacc. simpl insert_rows. rewrite project_row_ok. unfold bind, lift.
    rewrite execute_insert_run.
    destruct (violates (DbRow cols (projected r idxs))) eqn:Hr; simpl.
    + exists 0%nat, (working w). by rewrite take_0.
    + simpl in Hacc.
      edestruct IH as (k & t & ->); [exact Hacc|].
      exists (S k), t. simpl. by rewrite <- app_assoc.
Qed.

(** The three ways a call of [insert_data_generic] can go. *)
Lemma insert_data_generic_skipped (table_name : string) (page : block) (cfg : config)
    (tk : string) (w : world) :
  loadable cfg tk page = false ->
  insert_data_generic table_name page cfg tk w = (Ok tt, w).
Proof.
  unfold loadable, insert_data_generic. intros H.
  destruct (truthy_opt_list (data page)); simpl in *; [|done].
  destruct (truthy_list (default [] (columns page))); simpl in *; [|done].
  destruct (bool_decide (get_column_mapping cfg tk = ∅)); simpl in *; [done|].
  by rewrite H.
Qed.

Lemma insert_data_generic_committed (table_name : string) (page : block) (cfg : config)
    (tk : string) (w : world) :
  loadable cfg tk page = true ->
  accepted (page_db_rows cfg tk page) = true ->
  let rs := page_db_rows cfg tk page in
  let t := store_rows (working w) rs in
  insert_data_generic table_name page cfg tk w
  = (Ok tt,
     World (requests w) (conn w) t t
           (statements w ++ map (Insert (qualified cfg table_name)) rs ++ [Commit])
           (output w ++ [MsgInserted (qualified cfg table_name)
                                     (length (default [] (data page)))
                                     (length t - length (working w))])).
Proof.
  unfold loadable, insert_data_generic, page_db_rows. intros H Hacc.
  apply andb_prop in H as [H H4]. apply andb_prop in H as [H H3].
  apply andb_prop in H as [H1 H2].
  rewrite H1, H2, H4. apply negb_true_iff in H3. rewrite H3. simpl.
  unfold try_except, bind at 1.
  rewrite insert_rows_accepted by done. simpl.
  unfold bind, commit, print. simpl. by rewrite <- app_assoc.
Qed.

Lemma insert_data_generic_rolled_back (table_name : string) (page : block) (cfg : config)
    (tk : string) (w : world) :
  loadable cfg tk page = true ->
  accepted (page_db_rows cfg tk page) = false ->
  exists k : nat,
    insert_data_generic table_name page cfg tk w
    = (Ok tt,
       World (requests w) (conn w) (committed w) (committed w)
             (statements w
              ++ map (Insert (qualified cfg table_name)) (take (S k) (page_db_rows cfg tk page))
              ++ [Rollback])
             (output w ++ [MsgInsertError (qualified cfg table_name)])).
Proof.
  unfold loadable, insert_data_generic, page_db_rows. intros H Hacc.
  apply andb_prop in H as [H H4]. apply andb_prop in H as [H H3].
  apply andb_prop in H as [H1 H2].
  rewrite H1, H2, H4. apply negb_true_iff in H3. rewrite H3. simpl.
  unfold try_except, bind at 1.
  edestruct insert_rows_rejected as (k & t & ->); [exact Hacc|].
  exists k. unfold bind, print, rollback. simpl. by rewrite <- app_assoc.
Qed.
End InsertFacts.

Section PageFacts.
Context {st : Storage} {py : PyStr}.

Lemma store_rows_present (t : list db_row) (rs : list db_row) :
  Forall (fun r => r ∈ store_rows t rs \/ key_taken r (store_rows t rs) = true) rs.
Proof.
  revert t. induction rs as [|r rs IH]; intros t; [constructor|].
  constructor; [|apply IH].
  change (store_rows t (r :: rs)) with (store_rows (store_row t r) rs).
  pose proof (store_rows_prefix (store_row t r) rs) as Hpre.
  unfold store_row in *. destruct (key_taken r t) eqn:Hk.
  - right. by eapply key_taken_prefix.
  - left. destruct Hpre as [l ->]. rewrite !elem_of_app, list_elem_of_singleton. auto.
Qed.

(** What a call of [insert_data_generic] does when no transaction is open. *)
Lemma insert_data_generic_effect (table_name : string) (page : block) (cfg : config)
    (tk : string) (w : world) :
  clean w ->
  let out := insert_data_generic table_name page cfg tk w in
  out.1 = Ok tt
  /\ clean out.2
  /\ committed out.2 = page_effect cfg tk (committed w) page
  /\ requests out.2 = requests w
  /\ conn out.2 = conn w.
Proof.
  intros Hclean. cbv zeta. unfold page_effect, clean in *.
  destruct (loadable cfg tk page) eqn:Hl; simpl.
  - destruct (accepted (page_db_rows cfg tk page)) eqn:Ha.
    + rewrite insert_data_generic_committed by done. simpl. by rewrite Hclean.
    + destruct (insert_data_generic_rolled_back table_name page cfg tk w Hl Ha) as [k ->].
      done.
  - rewrite insert_data_generic_skipped by done. done.
Qed.

Lemma page_effect_prefix (cfg : config) (tk : string) (t : list db_row) (page : block) :
  t `prefix_of` page_effect cfg tk t page.
Proof.
  unfold page_effect. destruct (_ && _); [apply store_rows_prefix | done].
Qed.

Lemma pages_effect_prefix (cfg : config) (tk : string) (t : list db_row) (pages : list block) :
  t `prefix_of` fold_left (page_effect cfg tk) pages t.
Proof.
  revert t. induction pages as [|p pages IH]; intros t; simpl; [done|].
  etrans; [apply page_effect_prefix | apply IH].
Qed.

Lemma load_pages_effect (table_name : string) (cfg : config) (tk : string)
    (pages : list block) (w : world) :
  clean w ->
  let out := load_pages table_name cfg tk pages w in
  out.1 = Ok tt
  /\ clean out.2
  /\ committed out.2 = fold_left (page_effect cfg tk) pages (committed w).
Proof.
  cbv zeta. revert w. induction pages as [|p pages IH]; intros w Hclean; [done|].
  unfold load_pages in *. simpl. unfold bind.
  destruct (insert_data_generic_effect table_name p cfg tk w Hclean)
    as (Hok & Hcl & Hcm & _).
  destruct (insert_data_generic table_name p cfg tk w) as [r w1]. simpl in *.
  subst r. rewrite <- Hcm. by apply IH.
Qed.

(** A page that was stored stays: each of its rows is in every later state
    of the table, or a row with the same unique key is. *)
Lemma page_effect_present (cfg : config) (tk : string) (t t' : list db_row) (page : block) :
  loadable cfg tk page && accepted (page_db_rows cfg tk page) = true ->
  page_effect cfg tk t page `prefix_of` t' ->
  Forall (fun r => r ∈ t' \/ key_taken r t' = true) (page_db_rows cfg tk page).
Proof.
  intros Hla Hpre. unfold page_effect in Hpre. rewrite Hla in Hpre.
  eapply Forall_impl; [apply (store_rows_present t)|].
  intros r [Hin | Hk]; simpl in *.
  - left. destruct Hpre as [l ->]. rewrite elem_of_app. auto.
  - right. by eapply key_taken_prefix.
Qed.

Lemma pages_effect_present (cfg : config) (tk : string) (t : list db_row) (pages : list block) :
  Forall (fun page =>
            loadable cfg tk page && accepted (page_db_rows cfg tk page) = true ->
            Forall (fun r => r ∈ fold_left (page_effect cfg tk) pages t
                             \/ key_taken r (fold_left (page_effect cfg tk) pages t) = true)
                   (page_db_rows cfg tk page))
         pages.
Proof.
  revert t. induction pages as [|p pages IH]; intros t; [constructor|].
  constructor; [|apply IH].
  intros Hla. simpl. eapply page_effect_present; [exact Hla|].
  apply pages_effect_prefix.
Qed.

(** Once every row of the pages has its unique key in the table, loading
    the pages leaves the table as it is. *)
Lemma pages_effect_fixed (cfg : config) (tk : string) (t : list db_row) (pages : list block) :
  Forall (fun page => Forall (fun r => row_key r <> None) (page_db_rows cfg tk page)) pages ->
  Forall (fun page => page_effect cfg tk (fold_left (page_effect cfg tk) pages t) page
                      = fold_left (page_effect cfg tk) pages t)
         pages.
Proof.
  revert t. induction pages as [|p pages IH]; intros t Hkeys; [constructor|].
  inversion Hkeys as [|? ? Hp Hps]; subst.
  constructor; [|by apply IH].
  simpl. set (T := fold_left _ pages _).
  unfold page_effect at 1.
  destruct (loadable cfg tk p && accepted (page_db_rows cfg tk p)) eqn:Hla; [|done].
  apply store_rows_all_taken.
  assert (page_effect cfg tk t p `prefix_of` T) as Hpre by apply pages_effect_prefix.
  unfold page_effect in Hpre. rewrite Hla in Hpre.
  eapply Forall_impl; [apply (store_rows_taken t _ Hp)|].
  intros r Hk. simpl in *. by eapply key_taken_prefix.
Qed.

Lemma fold_fixed (cfg : config) (tk : string) (t : list db_row) (pages : list block) :
  Forall (fun page => page_effect cfg tk t page = t) pages ->
  fold_left (page_effect cfg tk) pages t = t.
Proof.
  induction 1 as [|p pages Hp _ IH]; simpl; [done|]. by rewrite Hp.
Qed.

Lemma load_pages_fixed (table_name : string) (cfg : config) (tk : string)
    (pages : list block) (w : world) :
  clean w ->
  Forall (fun page => page_effect cfg tk (committed w) page = committed w) pages ->
  exists l,
    output (load_pages table_name cfg tk pages w).2 = output w ++ l
    /\ Forall reports_nothing_affected l.
Proof.
  revert w. induction pages as [|p pages IH]; intros w Hclean Hfix.
  - exists []. by rewrite app_nil_r.
  - inversion Hfix as [|? ? Hp Hps]; subst.
    unfold load_pages in *. simpl. unfold bind.
    assert (exists w1 l1,
      insert_data_generic table_name p cfg tk w = (Ok tt, w1)
      /\ clean w1 /\ committed w1 = committed w
      /\ output w1 = output w ++ l1 /\ Forall reports_nothing_affected l1)
      as (w1 & l1 & -> & Hcl1 & Hcm1 & Hout1 & Hl1).
    { unfold page_effect, clean in *.
      destruct (loadable cfg tk p) eqn:Hl; simpl in Hp.
      - destruct (accepted (page_db_rows cfg tk p)) eqn:Ha.
        + rewrite insert_data_generic_committed by done.
          eexists _, [_]. split; [reflexivity|]. simpl.
          rewrite Hclean, Hp. repeat split; try done.
          constructor; [|constructor]. simpl. lia.
        + destruct (insert_data_generic_rolled_back table_name p cfg tk w Hl Ha) as [k ->].
          eexists _, [_]. split; [reflexivity|]. simpl. repeat split; try done.
          by constructor.
      - rewrite insert_data_generic_skipped by done.
        exists w, []. rewrite app_nil_r. repeat split; try done. }
    destruct (IH w1 Hcl1) as (l & Hout & Hl); [by rewrite Hcm1|].
    exists (l1 ++ l). rewrite Hout, Hout1, app_assoc. split; [done|].
    by apply Forall_app.
Qed.
End PageFacts.

Lemma statements_since_app (w w' : world) (l : list stmt) :
  statements w' = statements w ++ l -> statements_since w w' = l.
Proof. unfold statements_since. intros ->. apply drop_app_length. Qed.

(** C6.  When no transaction is open, a call of [insert_data_generic] for a
    page returns normally (so the caller goes on with its next page, date or
    ISIN) and is all or nothing.  Either the page gets to the row loop and
    the server accepts every row: then the INSERTs of all its rows are
    followed by one COMMIT, and each row is in the committed table or a row
    with its unique key is.  Or the committed table is what it was: a page
    that reached the row loop and had a row rejected ends in a ROLLBACK.
    No transaction is left open. *)
Theorem insert_data_generic_atomic {st : Storage} {py : PyStr}
    (table_name : string) (page : block) (cfg : config) (tk : string) (w : world)
    (Hclean : clean w) :
  let rs := page_db_rows cfg tk page in
  let out := insert_data_generic table_name page cfg tk w in
  out.1 = Ok tt
  /\ clean out.2
  /\ if loadable cfg tk page && accepted rs then
       statements_since w out.2 = map (Insert (qualified cfg table_name)) rs ++ [Commit]
       /\ committed out.2 = store_rows (committed w) rs
       /\ Forall (fun r => r ∈ committed out.2 \/ key_taken r (committed out.2) = true) rs
     else
       committed out.2 = committed w
       /\ (loadable cfg tk page = true ->
           last (statements_since w out.2) = Some Rollback).
Proof.
  cbv zeta.
  destruct (insert_data_generic_effect table_name page cfg tk w Hclean)
    as (Hok & Hcl & Hcm & _).
  split; [done|]. split; [done|].
  unfold page_effect in Hcm.
  destruct (loadable cfg tk page) eqn:Hl; simpl in *.
  - destruct (accepted (page_db_rows cfg tk page)) eqn:Ha.
    + split; [|split; [done|]].
      * apply statements_since_app.
        by rewrite insert_data_generic_committed.
      * rewrite Hcm. apply store_rows_present.
    + split; [done|]. intros _.
      destruct (insert_data_generic_rolled_back table_name page cfg tk w Hl Ha) as [k Hk].
      rewrite Hk. simpl.
      erewrite statements_since_app; [|reflexivity].
      by rewrite last_snoc.
  - split; [done|]. discriminate.
Qed.

Lemma insert_data_generic_atomic_witness :
  let page := bond_page "RU000A0JX0J2" (VStr "OFZ 26207") in
  let out := @insert_data_generic keyed_storage ascii_str "bonds" page
               example_config "bonds" (initial_world []) in
  clean (initial_world [])
  /\ out.1 = Ok tt
  /\ committed out.2 = [DbRow ["secid"; "shortname"] [VStr "RU000A0JX0J2"; VStr "OFZ 26207"]].
Proof.
  cbv zeta. split; [reflexivity|].
  pose proof (@insert_data_generic_atomic keyed_storage ascii_str "bonds"
                (bond_page "RU000A0JX0J2" (VStr "OFZ 26207")) example_config "bonds"
                (initial_world []) eq_refl) as H.
  cbv zeta in H. destruct H as (Hok & _ & _).
  split; [exact Hok|]. vm_compute. reflexivity.
Defined.

(** A page with a rejected row leaves nothing behind: the row before the
    rejected one is not committed. *)
Example insert_data_generic_rolls_back_whole_page :
  let page := Block (Some ["SECID"; "SHORTNAME"])
                    (Some [[VStr "RU000A0JX0J2"; VStr "OFZ 26207"];
                           [VStr "RU000A0JXFM1"; VNull]]) in
  let out := @insert_data_generic keyed_storage ascii_str "bonds" page
               example_config "bonds" (initial_world []) in
  out.1 = Ok tt
  /\ committed out.2 = []
  /\ last (statements out.2) = Some Rollback
  /\ output out.2 = [MsgInsertError "public.bonds"].
Proof. vm_compute. repeat split. Qed.

(** ** Idempotent insertion *)

(** A row whose unique key is taken is skipped: no error, row count 0, and
    the table as it was. *)
Lemma execute_insert_duplicate {st : Storage} (table : string) (r : db_row) (w : world) :
  violates r = false ->
  key_taken r (working w) = true ->
  execute_insert table r w
  = (Ok 0%nat,
     World (requests w) (conn w) (committed w) (working w)
           (statements w ++ [Insert table r]) (output w)).
Proof.
  intros Hv Hk. rewrite execute_insert_run, Hv, Hk.
  unfold store_row. by rewrite Hk.
Qed.

(** C7, as stated, fails for a row that has no value of the unique key.
    The one row of this page ends before the column [SECID], so the row
    built for it has NULL there; the table has a unique key on [secid], but
    a NULL conflicts with nothing.  The first load stores the row; the
    second load of the same page stores it again and reports one affected
    row: two rows where the claim has one. *)
Lemma null_key_row_is_loaded_twice :
  let w1 := (@load_pages ascii_str unique_secid_storage "bonds" example_config "bonds"
               [short_row_page] (initial_world [])).2 in
  let out := @load_pages ascii_str unique_secid_storage "bonds" example_config "bonds"
               [short_row_page] w1 in
  committed w1 = [DbRow ["shortname"; "secid"] [VStr "OFZ 26207"; VNull]]
  /\ out.1 = Ok tt
  /\ committed out.2 = [DbRow ["shortname"; "secid"] [VStr "OFZ 26207"; VNull];
                        DbRow ["shortname"; "secid"] [VStr "OFZ 26207"; VNull]]
  /\ drop (length (output w1)) (output out.2) = [MsgInserted "public.bonds" 1 1].
Proof. vm_compute. repeat split. Qed.

(** C7 (amended).  Insertion is idempotent for rows that have a value of the
    destination table's unique key.  When every row written has one and no
    transaction is open, loading the same pages a second time returns
    normally, adds no row (the committed table, and so its row count, is
    what the first pass left) and every page that reports its affected rows
    reports 0: each row is a duplicate by the unique key and is skipped
    without an error and without being counted. *)
Theorem load_pages_idempotent {st : Storage} {py : PyStr}
    (table_name : string) (cfg : config) (tk : string) (pages : list block) (w : world)
    (Hclean : clean w)
    (Hkeys : Forall (fun page => Forall (fun r => row_key r <> None)
                                        (page_db_rows cfg tk page)) pages) :
  let w1 := (load_pages table_name cfg tk pages w).2 in
  let out := load_pages table_name cfg tk pages w1 in
  out.1 = Ok tt
  /\ committed out.2 = committed w1
  /\ length (committed out.2) = length (committed w1)
  /\ Forall reports_nothing_affected (drop (length (output w1)) (output out.2))
  /\ (forall (table : string) (r : db_row) (w0 : world),
        violates r = false ->
        key_taken r (working w0) = true ->
        (execute_insert table r w0).1 = Ok 0%nat
        /\ working (execute_insert table r w0).2 = working w0
        /\ committed (execute_insert table r w0).2 = committed w0).
Proof.
  cbv zeta.
  assert (forall (table : string) (r : db_row) (w0 : world),
            violates r = false ->
            key_taken r (working w0) = true ->
            (execute_insert table r w0).1 = Ok 0%nat
            /\ working (execute_insert table r w0).2 = working w0
            /\ committed (execute_insert table r w0).2 = committed w0) as Hdup.
  { intros table r w0 Hv Hk. by rewrite (execute_insert_duplicate table r w0 Hv Hk). }
  destruct (load_pages_effect table_name cfg tk pages w Hclean) as (_ & Hcl1 & Hcm1).
  set (w1 := (load_pages table_name cfg tk pages w).2) in *.
  destruct (load_pages_effect table_name cfg tk pages w1 Hcl1) as (Hok & _ & Hcm2).
  assert (Forall (fun page => page_effect cfg tk (committed w1) page = committed w1) pages)
    as Hfix.
  { rewrite Hcm1. by apply pages_effect_fixed. }
  assert (committed (load_pages table_name cfg tk pages w1).2 = committed w1) as Hsame.
  { rewrite Hcm2. by apply fold_fixed. }
  split; [done|]. split; [done|]. split; [by rewrite Hsame|]. split; [|exact Hdup].
  destruct (load_pages_fixed table_name cfg tk pages w1 Hcl1 Hfix) as (l & -> & Hl).
  by rewrite drop_app_length.
Qed.

Lemma load_pages_idempotent_witness :
  let pages := [bond_page "RU000A0JX0J2" (VStr "OFZ 26207");
                bond_page "RU000A0JS3W6" (VStr "OFZ 26209")] in
  let w1 := (@load_pages ascii_str keyed_storage "bonds" example_config "bonds" pages
               (initial_world [])).2 in
  let out := @load_pages ascii_str keyed_storage "bonds" example_config "bonds" pages w1 in
  length (committed w1) = 2%nat /\ length (committed out.2) = length (committed w1).
Proof.
  cbv zeta. split; [vm_compute; reflexivity|].
  refine (proj1 (proj2 (proj2 (@load_pages_idempotent keyed_storage ascii_str "bonds"
            example_config "bonds"
            [bond_page "RU000A0JX0J2" (VStr "OFZ 26207");
             bond_page "RU000A0JS3W6" (VStr "OFZ 26209")]
            (initial_world []) eq_refl _)))).
  repeat constructor; vm_compute; discriminate.
Defined.

(** ** Reasoning about runs *)

#[local] Instance any_world_preorder : PreOrder any_world.
Proof. by split. Qed.

#[local] Instance same_database_preorder : PreOrder same_database.
Proof.
  split.
  - by intros w.
  - intros w1 w2 w3 (H1 & H2 & H3 & H4) (H5 & H6 & H7 & H8).
    unfold same_database. by rewrite H5, H6, H7, H8.
Qed.

#[local] Instance extends_table_preorder : PreOrder extends_table.
Proof.
  split.
  - intros w. split; [|done]. exists []. split; [by rewrite app_nil_r | constructor].
  - intros w1 w2 w3 [(l1 & Hl1 & Hn1) H1] [(l2 & Hl2 & Hn2) H2]. split.
    + exists (l1 ++ l2). split; [by rewrite Hl2, Hl1, app_assoc | by apply Forall_app].
    + intros Hc. destruct (H1 Hc) as [Hc2 Hp1]. destruct (H2 Hc2) as [Hc3 Hp2].
      split; [done | by etrans].
Qed.

Section RunFacts.
Context {py : PyStr} {net : Network} {st : Storage}.
Context (R : relation world) `{!PreOrder R}.

Lemma run_ok_ret {A} (a : A) : run_ok R (ret a).
Proof. intros w. by split. Qed.

Lemma run_ok_diverge {A} : run_ok R (@diverge A).
Proof. intros w. by split. Qed.

Lemma run_ok_lift {A} (r : result A) : r <> Raise DatabaseError -> run_ok R (lift r).
Proof. intros Hr w. by split. Qed.

Lemma run_ok_raise {A} (e : exn) : e <> DatabaseError -> run_ok R (@raise A e).
Proof. intros He w. split; [done|]. simpl. congruence. Qed.

Lemma run_ok_bind {A B} (m : M A) (f : A -> M B) :
  run_ok R m -> (forall a, run_ok R (f a)) -> run_ok R (bind m f).
Proof.
  intros Hm Hf w. unfold bind. destruct (Hm w) as [HR Hq].
  destruct (m w) as [[a| e |] w1]; simpl in *.
  - destruct (Hf a w1) as [HR' Hq']. split; [by etrans | done].
  - split; [done|]. intros [= ->]. by apply Hq.
  - done.
Qed.

Lemma run_ok_for_each {A} (l : list A) (body : A -> M unit) :
  (forall x, run_ok R (body x)) -> run_ok R (for_each l body).
Proof.
  intros Hb. induction l as [|x l IH]; simpl; [apply run_ok_ret|].
  apply run_ok_bind; [apply Hb | done].
Qed.

Lemma run_ok_try_finally {A} (body : M A) (final : M unit) :
  run_ok R body -> run_ok R final -> run_ok R (try_finally body final).
Proof.
  intros Hb Hf w. unfold try_finally. destruct (Hb w) as [HR Hq].
  destruct (body w) as [r w1]. simpl in *.
  destruct (Hf w1) as [HR' Hq'].
  assert (R w (final w1).2) as HR2 by (by etrans).
  destruct r as [a|e|]; [| |done];
    destruct (final w1) as [[[]|e'|] w2]; simpl in *; (split; [done|]);
    congruence.
Qed.

Lemma securities_cursor_no_db_error (d : response) (start : Z) :
  securities_cursor d start <> Raise DatabaseError.
Proof.
  unfold securities_cursor, unpack_cursor, start_plus_pagesize_ge_total.
  repeat case_match; congruence.
Qed.

Lemma page_cursor_no_db_error (k : string) (d : option response) (start : Z) :
  page_cursor k d start <> Raise DatabaseError.
Proof.
  unfold page_cursor, unpack_cursor, start_plus_pagesize_lt_total.
  repeat case_match; congruence.
Qed.

Lemma config_get_no_db_error {A} (o : option A) : config_get o <> Raise DatabaseError.
Proof. by destruct o. Qed.

Lemma get_default_limit_no_db_error (cfg : config) :
  get_default_limit cfg <> Raise DatabaseError.
Proof. unfold get_default_limit. by destruct (api_default_limit cfg). Qed.

(** What [R] has to allow for the parts of a run to keep it. *)
Hypothesis R_fetch : forall url params, run_ok R (fetch_moex_data url params).
Hypothesis R_print : forall m, run_ok R (print m).

Lemma run_ok_get_all_securities_loop (fuel : nat) (securities_url : string)
    (limit start : Z) (securities : list row) :
  run_ok R (get_all_securities_loop fuel securities_url limit start securities).
Proof.
  revert start securities. induction fuel as [|fuel IH]; intros start securities; simpl.
  - apply run_ok_diverge.
  - apply run_ok_bind; [apply R_fetch|]. intros d.
    destruct (page_of d "securities"); [|apply run_ok_ret].
    apply run_ok_bind; [apply run_ok_lift, securities_cursor_no_db_error|].
    intros [start'|]; [apply IH | apply run_ok_ret].
Qed.

Lemma run_ok_get_all_securities (fuel : nat) (cfg : config) :
  run_ok R (get_all_securities fuel cfg).
Proof.
  unfold get_all_securities.
  apply run_ok_bind; [apply run_ok_lift, config_get_no_db_error|]. intros base_url.
  apply run_ok_bind; [apply run_ok_lift, get_default_limit_no_db_error|]. intros limit.
  apply run_ok_get_all_securities_loop.
Qed.

Lemma run_ok_get_isin_list (fuel : nat) (args : arguments) (cfg : config) :
  run_ok R (get_isin_list fuel args cfg).
Proof.
  unfold get_isin_list. destruct (isin_given args); [apply run_ok_ret|].
  apply run_ok_bind; [apply run_ok_get_all_securities|]. intros rows.
  destruct (truthy_list rows); simpl.
  - repeat case_match; (apply run_ok_raise; discriminate) || apply run_ok_ret.
  - apply run_ok_bind; [apply R_print | intros; apply run_ok_ret].
Qed.

Hypothesis R_insert : forall table_name page cfg tk,
  run_ok R (insert_data_generic table_name page cfg tk).

Lemma run_ok_page_loop (fuel : nat) (url : string) (fixed_params : gmap string param)
    (data_block table_name : string) (cfg : config) (tk : table_key) (start : Z) :
  run_ok R (page_loop fuel url fixed_params data_block table_name cfg tk start).
Proof.
  revert start. induction fuel as [|fuel IH]; intros start; simpl.
  - apply run_ok_diverge.
  - apply run_ok_bind; [apply R_fetch|]. intros d.
    apply run_ok_bind.
    { destruct (page_of d data_block); [apply R_insert | apply run_ok_ret]. }
    intros _.
    apply run_ok_bind; [apply run_ok_lift, page_cursor_no_db_error|].
    intros has_more. destruct (negb (truthy_response d)); [apply run_ok_ret|].
    destruct has_more; [apply IH | apply run_ok_ret].
Qed.

Lemma run_ok_date_loop (days : nat) (date : Z) (body : Z -> M unit) :
  (forall d, run_ok R (body d)) -> run_ok R (date_loop days date body).
Proof.
  intros Hb. revert date. induction days as [|days IH]; intros date; simpl.
  - apply run_ok_ret.
  - apply run_ok_bind; [apply Hb|]. intros _.
    destruct (date_max <? date + 1); [apply run_ok_raise; discriminate | apply IH].
Qed.

Lemma run_ok_process_bonds (fuel : nat) (args : arguments) (cfg : config)
    (isin_list : list string) (base_url table_name : string) :
  run_ok R (process_bonds fuel args cfg isin_list base_url table_name).
Proof.
  unfold process_bonds. destruct (isin_given args).
  - apply run_ok_for_each. intros isin.
    apply run_ok_bind; [apply R_fetch|]. intros d.
    destruct (page_of d "description"); [apply R_insert | apply run_ok_ret].
  - apply run_ok_bind; [apply run_ok_get_all_securities|]. intros rows.
    repeat case_match; (apply run_ok_raise; discriminate) || apply run_ok_ret.
Qed.

Lemma run_ok_process_quotas (fuel : nat) (args : arguments) (cfg : config)
    (isin_list : list string) (base_url table_name : string) (default_limit : Z) :
  run_ok R (process_quotas fuel args cfg isin_list base_url table_name default_limit).
Proof.
  unfold process_quotas. apply run_ok_date_loop. intros date.
  destruct (isin_given args).
  - apply run_ok_for_each. intros isin.
    apply run_ok_bind; [apply R_fetch|]. intros d.
    destruct (page_of d "history"); [apply R_insert | apply run_ok_ret].
  - apply run_ok_page_loop.
Qed.

Lemma run_ok_process_bondization (fuel : nat) (args : arguments) (cfg : config)
    (isin_list : list string) (base_url table_name : string) (default_limit : Z) :
  run_ok R (process_bondization fuel args cfg isin_list base_url table_name default_limit).
Proof.
  unfold process_bondization. destruct (isin_given args).
  - apply run_ok_for_each. intros isin. apply run_ok_page_loop.
  - apply run_ok_page_loop.
Qed.

(** The part of the [try] block after the mode has been dealt with. *)
Lemma run_ok_process_table (fuel : nat) (args : arguments) (cfg : config)
    (isin_list : list string) (base_url table_name : string) (default_limit : Z) :
  run_ok R
    match args_table args with
    | bonds => process_bonds fuel args cfg isin_list base_url table_name
    | quotas => process_quotas fuel args cfg isin_list base_url table_name default_limit
    | coupons | amortizations | offers =>
        process_bondization fuel args cfg isin_list base_url table_name default_limit
    end.
Proof.
  destruct (args_table args);
    auto using run_ok_process_bonds, run_ok_process_quotas, run_ok_process_bondization.
Qed.

Hypothesis R_close : run_ok R close.
Hypothesis R_connect : run_ok R get_db_connection.

(** [main] from the point where the connection is open. *)
Lemma run_ok_main_connected (fuel : nat) (args : arguments) (cfg : config)
    (isin_list : list string) :
  (forall base_url table_name default_limit,
     run_ok R (main_body fuel args cfg isin_list base_url table_name default_limit)) ->
  run_ok R
    (base_url <- lift (config_get (api_base_url cfg)) ;;
     default_limit <- lift (get_default_limit cfg) ;;
     table_name <- lift (config_get (tables cfg !! table_key_name (args_table args))) ;;
     try_finally
       (main_body fuel args cfg isin_list base_url table_name default_limit)
       (close ;; print MsgClosed)).
Proof.
  intros Hbody.
  apply run_ok_bind; [apply run_ok_lift, config_get_no_db_error|]. intros base_url.
  apply run_ok_bind; [apply run_ok_lift, get_default_limit_no_db_error|]. intros limit.
  apply run_ok_bind; [apply run_ok_lift, config_get_no_db_error|]. intros table_name.
  apply run_ok_try_finally; [apply Hbody|].
  apply run_ok_bind; [apply R_close | intros; apply R_print].
Qed.

(** [main] keeps [R] when its [try] block does. *)
Lemma run_ok_main (fuel : nat) (args : arguments) (cfg : config) :
  (forall isin_list base_url table_name default_limit,
     run_ok R (main_body fuel args cfg isin_list base_url table_name default_limit)) ->
  run_ok R (main fuel args cfg).
Proof.
  intros Hbody. unfold main.
  apply run_ok_bind; [apply run_ok_get_isin_list|]. intros isin_list.
  destruct (_ && _); [apply R_print|].
  apply run_ok_bind; [apply R_connect|]. intros connected.
  destruct (negb connected); [apply run_ok_ret|].
  apply run_ok_main_connected. intros. apply Hbody.
Qed.
End RunFacts.

Section RunInstances.
Context {py : PyStr} {net : Network} {st : Storage}.

Lemma insert_data_generic_returns (table_name : string) (page : block) (cfg : config)
    (tk : string) (w : world) :
  (insert_data_generic table_name page cfg tk w).1 = Ok tt.
Proof.
  destruct (loadable cfg tk page) eqn:Hl.
  - destruct (accepted (page_db_rows cfg tk page)) eqn:Ha.
    + by rewrite insert_data_generic_committed.
    + by destruct (insert_data_generic_rolled_back table_name page cfg tk w Hl Ha) as [k ->].
  - by rewrite insert_data_generic_skipped.
Qed.

Lemma no_truncate_inserts (table : string) (rs : list db_row) (s : stmt) :
  is_truncate s = false -> no_truncate (map (Insert table) rs ++ [s]).
Proof.
  intros Hs. apply Forall_app. split; [|by constructor].
  apply Forall_forall. intros x Hx. apply list_elem_of_In, in_map_iff in Hx.
  by destruct Hx as (r & <- & _).
Qed.

Lemma insert_data_generic_statements (table_name : string) (page : block) (cfg : config)
    (tk : string) (w : world) :
  exists l, statements (insert_data_generic table_name page cfg tk w).2 = statements w ++ l
            /\ no_truncate l.
Proof.
  destruct (loadable cfg tk page) eqn:Hl.
  - destruct (accepted (page_db_rows cfg tk page)) eqn:Ha.
    + rewrite insert_data_generic_committed by done. simpl.
      eexists. split; [reflexivity|]. by apply no_truncate_inserts.
    + destruct (insert_data_generic_rolled_back table_name page cfg tk w Hl Ha) as [k ->].
      simpl. eexists. split; [reflexivity|]. by apply no_truncate_inserts.
  - rewrite insert_data_generic_skipped by done. exists []. simpl.
    split; [by rewrite app_nil_r | constructor].
Qed.

(** Any relation of worlds that holds of every pair. *)
Lemma any_world_fetch url params : run_ok any_world (fetch_moex_data url params).
Proof. by intros w. Qed.

Lemma any_world_print m : run_ok any_world (print m).
Proof. by intros w. Qed.

Lemma any_world_insert table_name page cfg tk :
  run_ok any_world (insert_data_generic table_name page cfg tk).
Proof. intros w. split; [done|]. by rewrite insert_data_generic_returns. Qed.

Lemma any_world_close : run_ok any_world close.
Proof. by intros w. Qed.

Lemma any_world_connect : run_ok any_world get_db_connection.
Proof. intros w. split; [done|]. unfold get_db_connection. by destruct connect_ok. Qed.

Lemma any_world_clear_table table_name cfg : run_ok any_world (clear_table table_name cfg).
Proof.
  intros w. split; [done|].
  unfold clear_table, try_except, execute_truncate, bind, log_stmt, raise, set_working,
    commit, rollback, print.
  simpl. by destruct truncate_denied.
Qed.

(** No storage error escapes [main]. *)
Lemma main_no_db_error (fuel : nat) (args : arguments) (cfg : config) (w : world) :
  (main fuel args cfg w).1 <> Raise DatabaseError.
Proof.
  apply (run_ok_main any_world any_world_fetch any_world_print any_world_close
           any_world_connect).
  intros isin_list base_url table_name default_limit. unfold main_body.
  assert (forall m : M unit, run_ok any_world m ->
            run_ok any_world
              (m ;; match args_table args with
                    | bonds => process_bonds fuel args cfg isin_list base_url table_name
                    | quotas => process_quotas fuel args cfg isin_list base_url table_name
                                               default_limit
                    | coupons | amortizations | offers =>
                        process_bondization fuel args cfg isin_list base_url table_name
                                            default_limit
                    end)) as Hrest.
  { intros m Hm. apply run_ok_bind; [apply _ | exact Hm |]. intros _.
    apply run_ok_process_table;
      auto using any_world_fetch, any_world_print, any_world_insert with typeclass_instances. }
  destruct (args_mode args).
  - apply any_world_clear_table.
  - apply Hrest, run_ok_ret, _.
  - apply Hrest, any_world_clear_table.
Qed.

(** The connection and the table are untouched by fetching and printing. *)
Lemma same_database_fetch url params : run_ok same_database (fetch_moex_data url params).
Proof. by intros w. Qed.

Lemma same_database_print m : run_ok same_database (print m).
Proof. by intros w. Qed.

Lemma get_isin_list_same_database (fuel : nat) (args : arguments) (cfg : config) (w : world) :
  same_database w (get_isin_list fuel args cfg w).2.
Proof.
  apply (run_ok_get_isin_list same_database same_database_fetch same_database_print).
Qed.

(** The parts of a run in update mode only extend the table. *)
Lemma extends_table_fetch url params : run_ok extends_table (fetch_moex_data url params).
Proof.
  intros w. split; [|done]. split; [|done].
  exists []. simpl. split; [by rewrite app_nil_r | constructor].
Qed.

Lemma extends_table_print m : run_ok extends_table (print m).
Proof.
  intros w. split; [|done]. split; [|done].
  exists []. simpl. split; [by rewrite app_nil_r | constructor].
Qed.

Lemma extends_table_insert table_name page cfg tk :
  run_ok extends_table (insert_data_generic table_name page cfg tk).
Proof.
  intros w. split; [|by rewrite insert_data_generic_returns].
  split; [apply insert_data_generic_statements|].
  intros Hclean.
  destruct (insert_data_generic_effect table_name page cfg tk w Hclean)
    as (_ & Hcl & Hcm & _).
  split; [done|]. rewrite Hcm. apply page_effect_prefix.
Qed.

Lemma extends_table_close : run_ok extends_table close.
Proof.
  intros w. split; [|done]. split; [|done].
  exists [Close]. simpl. split; [done | by repeat constructor].
Qed.

Lemma extends_table_connect : run_ok extends_table get_db_connection.
Proof.
  intros w. split; [|unfold get_db_connection; by destruct connect_ok].
  unfold get_db_connection. destruct connect_ok; simpl.
  - split; [|done]. exists []. simpl. split; [by rewrite app_nil_r | constructor].
  - split; [|done]. exists []. simpl. split; [by rewrite app_nil_r | constructor].
Qed.

Lemma main_body_update_extends_table (fuel : nat) (args : arguments) (cfg : config)
    (isin_list : list string) (base_url table_name : string) (default_limit : Z) :
  args_mode args = update ->
  run_ok extends_table
    (main_body fuel args cfg isin_list base_url table_name default_limit).
Proof.
  intros Hmode. unfold main_body. rewrite Hmode.
  apply run_ok_bind; [apply _ | apply run_ok_ret, _ |]. intros _.
  apply run_ok_process_table;
    auto using extends_table_fetch, extends_table_print, extends_table_insert
      with typeclass_instances.
Qed.

Lemma main_update_extends_table (fuel : nat) (args : arguments) (cfg : config) :
  args_mode args = update -> run_ok extends_table (main fuel args cfg).
Proof.
  intros Hmode.
  apply (run_ok_main extends_table extends_table_fetch extends_table_print
           extends_table_close extends_table_connect).
  intros. by apply main_body_update_extends_table.
Qed.

Lemma bind_unfold {A B} (m : M A) (f : A -> M B) (w : world) :
  bind m f w = match m w with
               | (Ok a, w') => f a w'
               | (Raise e, w') => (Raise e, w')
               | (Diverge, w') => (Diverge, w')
               end.
Proof. reflexivity. Qed.

(** In update mode the committed table of any world is only extended:
    [main] opens its connection before it issues a statement. *)
Lemma main_update_committed_prefix (fuel : nat) (args : arguments) (cfg : config)
    (w : world) :
  args_mode args = update ->
  committed w `prefix_of` committed (main fuel args cfg w).2.
Proof.
  intros Hmode. unfold main. rewrite bind_unfold.
  destruct (get_isin_list_same_database fuel args cfg w) as (_ & Hcm & _).
  destruct (get_isin_list fuel args cfg w) as [[isin_list|e|] w1]; simpl in Hcm;
    [|simpl; by rewrite Hcm..].
  destruct (_ && _); [simpl; by rewrite Hcm|].
  rewrite bind_unfold. unfold get_db_connection at 1.
  destruct connect_ok; [|simpl; by rewrite Hcm].
  cbv beta iota. change (negb true) with false. cbv iota.
  set (w2 := World _ Connected _ _ _ _).
  match goal with
  | |- _ `prefix_of` committed (?m w2).2 =>
      assert (run_ok extends_table m) as Hrest
  end.
  { apply (run_ok_main_connected extends_table extends_table_print extends_table_close).
    intros. by apply main_body_update_extends_table. }
  destruct (Hrest w2) as [[_ Hext] _].
  destruct Hext as [_ Hpre]; [reflexivity|].
  change (committed w2) with (committed w1) in Hpre at 1.
  rewrite Hcm in Hpre. exact Hpre.
Qed.
End RunInstances.

(** ** Storage errors and the exit status *)

(** C3, as stated, fails: in this run of three pages the insert of the
    second page fails with a storage error and is rolled back, and [main]
    still returns normally, so the process exits with status 0.  The first
    and the third page are committed. *)
Lemma failed_page_exit_status_zero :
  let args := Args bonds (Some "RU000A0JX0J2,RU000A0JXFM1,RU000A0JS3W6") update 0 0 in
  let out := @main ascii_str three_bonds_server keyed_storage 0 args example_config
               (initial_world []) in
  output out.2 = [MsgInserted "public.bonds" 1 1; MsgInsertError "public.bonds";
                  MsgInserted "public.bonds" 1 1; MsgClosed]
  /\ committed out.2
     = [DbRow ["secid"; "shortname"] [VStr "RU000A0JX0J2"; VStr "OFZ 26207"];
        DbRow ["secid"; "shortname"] [VStr "RU000A0JS3W6"; VStr "OFZ 26209"]]
  /\ exit_status out.1 = Some 0.
Proof. vm_compute. repeat split. Qed.

(** ** Update mode *)

Lemma statements_since_extends (w w' : world) :
  extends_table w w' ->
  no_truncate (statements_since w w')
  /\ statements w' = statements w ++ statements_since w w'.
Proof.
  intros [(l & Hl & Hn) _]. by rewrite (statements_since_app w w' l Hl).
Qed.

(** C9.  In update mode no TRUNCATE is issued: whatever the server and the
    storage do and however long the run is followed, the statements the run
    has added to the log are only INSERT ... ON CONFLICT DO NOTHING, COMMIT,
    ROLLBACK and the closing of the connection, and the table committed
    before the run is a prefix of the committed table after it. *)
Theorem main_update_never_truncates {py : PyStr} {net : Network} {st : Storage}
    (fuel : nat) (args : arguments) (cfg : config) (w : world)
    (Hmode : args_mode args = update) :
  let w' := (main fuel args cfg w).2 in
  no_truncate (statements_since w w')
  /\ statements w' = statements w ++ statements_since w w'
  /\ committed w `prefix_of` committed w'.
Proof.
  cbv zeta.
  destruct (main_update_extends_table fuel args cfg Hmode w) as [Hext _].
  destruct (statements_since_extends _ _ Hext) as [Hn Hs].
  split; [done|]. split; [done|].
  by apply main_update_committed_prefix.
Qed.

Lemma main_update_never_truncates_witness :
  let args := Args bonds (Some "RU000A0JX0J2,RU000A0JXFM1,RU000A0JS3W6") update 0 0 in
  let t := [DbRow ["secid"; "shortname"] [VStr "RU000A0JRTT9"; VStr "OFZ 26205"]] in
  let w' := (@main ascii_str three_bonds_server keyed_storage 0 args example_config
               (initial_world t)).2 in
  args_mode args = update
  /\ no_truncate (statements_since (initial_world t) w')
  /\ t `prefix_of` committed w'.
Proof.
  cbv zeta. split; [reflexivity|].
  destruct (@main_update_never_truncates ascii_str three_bonds_server keyed_storage 0
              (Args bonds (Some "RU000A0JX0J2,RU000A0JXFM1,RU000A0JS3W6") update 0 0)
              example_config
              (initial_world [DbRow ["secid"; "shortname"]
                                    [VStr "RU000A0JRTT9"; VStr "OFZ 26205"]])
              eq_refl) as (Hn & _ & Hp).
  split; [exact Hn | exact Hp].
Defined.

(** ** Clear mode *)

Lemma str_in_rows_false (name : string) (rows : list row) : str_in_rows name rows = false.
Proof. unfold str_in_rows. by induction rows. Qed.

(** Without [--isin] the list of ISINs is empty whenever it is returned. *)
Lemma get_isin_list_without_isin {py : PyStr} {net : Network}
    (fuel : nat) (args : arguments) (cfg : config) (w : world) :
  isin_given args = false ->
  forall l, (get_isin_list fuel args cfg w).1 = Ok l -> l = [].
Proof.
  intros Hisin l. unfold get_isin_list. rewrite Hisin, bind_unfold.
  destruct (get_all_securities fuel cfg w) as [[rows|e|] w1]; simpl; [|done..].
  destruct (truthy_list rows); simpl.
  - rewrite !str_in_rows_false. simpl. by intros [= <-].
  - unfold bind, print, ret. simpl. by intros [= <-].
Qed.

(** So a run without [--isin] ends before it connects, in every mode. *)
Lemma main_without_isin_never_connects {py : PyStr} {net : Network} {st : Storage}
    (fuel : nat) (args : arguments) (cfg : config) (w : world) :
  isin_given args = false ->
  same_database w (main fuel args cfg w).2.
Proof.
  intros Hisin. unfold main. rewrite bind_unfold.
  pose proof (get_isin_list_same_database fuel args cfg w) as Hs.
  pose proof (get_isin_list_without_isin fuel args cfg w Hisin) as Hl.
  destruct (get_isin_list fuel args cfg w) as [[l|e|] w1]; simpl in *; [|done..].
  rewrite (Hl l eq_refl), Hisin. simpl. exact Hs.
Qed.

(** C1, as stated, fails: a run in clear mode without [--isin] fetches the
    securities list before anything else, and here, where the server does
    not answer, it ends without connecting: one fetch call, no TRUNCATE,
    and the table keeps its row. *)
Lemma clear_without_isin_fetches :
  let t := [DbRow ["secid"; "shortname"] [VStr "RU000A0JRTT9"; VStr "OFZ 26205"]] in
  let out := @main ascii_str silent_server keyed_storage 1 (Args bonds None clear 0 0)
               example_config (initial_world t) in
  args_mode (Args bonds None clear 0 0) = clear
  /\ length (requests out.2) = 1%nat
  /\ statements out.2 = []
  /\ committed out.2 = t
  /\ out.1 = Ok tt.
Proof. vm_compute. repeat split. Qed.

(** C1 (amended).  In clear mode the only fetch calls of a run are those of
    the ISIN resolution that precedes the mode test, and with an explicit
    ISIN set there are none; such a run ends, and when its connection opens
    and the configuration has the base URL, the page size and the table
    name, it issues TRUNCATE on the destination table, commits (the table is
    then empty) or, when the server refuses the TRUNCATE, rolls back, closes
    the connection and returns.  *)
Theorem main_clear_truncates_without_fetching {py : PyStr} {net : Network} {st : Storage}
    (fuel : nat) (args : arguments) (cfg : config) (w : world)
    (Hmode : args_mode args = clear) :
  let out := main fuel args cfg w in
  requests out.2 = requests (get_isin_list fuel args cfg w).2
  /\ (isin_given args = true ->
      requests out.2 = requests w
      /\ out.1 <> Diverge
      /\ (connect_ok = true ->
          forall base_url limit table_name,
            api_base_url cfg = Some base_url ->
            get_default_limit cfg = Ok limit ->
            tables cfg !! table_key_name (args_table args) = Some table_name ->
            out.1 = Ok tt
            /\ conn out.2 = Closed
            /\ statements out.2
               = statements w ++ [Truncate (qualified cfg table_name);
                                  if truncate_denied then Rollback else Commit;
                                  Close]
            /\ committed out.2 = if truncate_denied then committed w else [])).
Proof.
  cbv zeta. split.
  - unfold main. rewrite bind_unfold.
    destruct (get_isin_list fuel args cfg w) as [[l|e|] w1]; simpl; [|done..].
    destruct (_ && _); [done|].
    unfold bind, get_db_connection, lift, try_finally, main_body. rewrite Hmode.
    unfold clear_table, try_except, execute_truncate, bind, log_stmt, raise, set_working,
      commit, rollback, close, print, ret.
    destruct connect_ok; simpl; [|done].
    destruct (api_base_url cfg); simpl; [|done].
    destruct (get_default_limit cfg); simpl; [|done..].
    destruct (tables cfg !! _); simpl; [|done].
    by destruct truncate_denied.
  - intros Hisin.
    unfold main, get_isin_list. rewrite Hisin.
    unfold bind, get_db_connection, lift, try_finally, main_body. rewrite Hmode.
    unfold clear_table, try_except, execute_truncate, bind, log_stmt, raise, set_working,
      commit, rollback, close, print, ret.
    simpl negb. rewrite !andb_false_r.
    split; [|split].
    + destruct connect_ok; simpl; [|done].
      destruct (api_base_url cfg); simpl; [|done].
      destruct (get_default_limit cfg); simpl; [|done..].
      destruct (tables cfg !! _); simpl; [|done].
      by destruct truncate_denied.
    + destruct connect_ok; simpl; [|done].
      destruct (api_base_url cfg); simpl; [|done].
      unfold get_default_limit. destruct (api_default_limit cfg); simpl; [| |done].
      * destruct (tables cfg !! _); simpl; [|done]. by destruct truncate_denied.
      * destruct (tables cfg !! _); simpl; [|done]. by destruct truncate_denied.
    + intros Hc base_url limit table_name Hb Hl Ht.
      rewrite Hc, Hb, Hl, Ht. simpl.
      destruct truncate_denied; simpl; by rewrite <- !app_assoc.
Qed.

Lemma main_clear_truncates_without_fetching_witness :
  let args := Args bonds (Some "RU000A0JX0J2") clear 0 0 in
  let t := [DbRow ["secid"; "shortname"] [VStr "RU000A0JRTT9"; VStr "OFZ 26205"]] in
  let out := @main ascii_str three_bonds_server keyed_storage 0 args example_config
               (initial_world t) in
  args_mode args = clear
  /\ requests out.2 = []
  /\ statements out.2 = [Truncate "public.bonds"; Commit; Close]
  /\ committed out.2 = [].
Proof.
  cbv zeta. split; [reflexivity|].
  destruct (@main_clear_truncates_without_fetching ascii_str three_bonds_server
              keyed_storage 0 (Args bonds (Some "RU000A0JX0J2") clear 0 0) example_config
              (initial_world [DbRow ["secid"; "shortname"]
                                    [VStr "RU000A0JRTT9"; VStr "OFZ 26205"]])
              eq_refl) as [_ H].
  destruct (H eq_refl) as (Hreq & _ & H').
  destruct (H' eq_refl _ _ _ eq_refl eq_refl eq_refl) as (_ & _ & Hst & Hcm).
  split; [exact Hreq|]. split; [exact Hst | exact Hcm].
Defined.

(** ** Closing the connection *)

(** The exit paths of [main]: a run that ends either never connected, or
    closed its connection, or failed in one of the three configuration
    lookups between [get_db_connection] and the [try] block, with the
    connection open. *)
Lemma main_exit_paths {py : PyStr} {net : Network} {st : Storage}
    (fuel : nat) (args : arguments) (cfg : config) (w : world) :
  let out := main fuel args cfg w in
  out.1 = Diverge
  \/ conn out.2 = conn w
  \/ conn out.2 = Closed
  \/ (conn out.2 = Connected
      /\ (api_base_url cfg = None
          \/ api_default_limit cfg = LimitInvalid
          \/ tables cfg !! table_key_name (args_table args) = None)).
Proof.
  cbv zeta. destruct (main fuel args cfg w) as [r w'] eqn:Hrun. simpl.
  unfold main in Hrun. rewrite bind_unfold in Hrun.
  destruct (get_isin_list_same_database fuel args cfg w) as (Hconn & _).
  destruct (get_isin_list fuel args cfg w) as [[isin_list|e|] w1]; simpl in Hconn;
    [|injection Hrun as <- <-; auto..].
  destruct (_ && _); [injection Hrun as <- <-; auto|].
  rewrite bind_unfold in Hrun. unfold get_db_connection in Hrun.
  destruct connect_ok; [|injection Hrun as <- <-; auto].
  cbv beta iota in Hrun. change (negb true) with false in Hrun. cbv iota in Hrun.
  rewrite bind_unfold in Hrun. unfold lift at 1 in Hrun.
  destruct (api_base_url cfg) as [base_url|]; simpl config_get in Hrun; cbv beta iota in Hrun;
    [|injection Hrun as <- <-; simpl; auto 10].
  rewrite bind_unfold in Hrun. unfold lift at 1, get_default_limit in Hrun.
  destruct (api_default_limit cfg) as [|limit|]; cbv beta iota in Hrun;
    [| |injection Hrun as <- <-; simpl; auto 10].
  - rewrite bind_unfold in Hrun. unfold lift at 1 in Hrun.
    destruct (tables cfg !! _) as [table_name|]; simpl config_get in Hrun; cbv beta iota in Hrun;
      [|injection Hrun as <- <-; simpl; auto 10].
    unfold try_finally in Hrun.
    destruct (main_body _ _ _ _ _ _ _ _) as [[[]|e|] w3];
      injection Hrun as <- <-; simpl; auto 10.
  - rewrite bind_unfold in Hrun. unfold lift at 1 in Hrun.
    destruct (tables cfg !! _) as [table_name|]; simpl config_get in Hrun; cbv beta iota in Hrun;
      [|injection Hrun as <- <-; simpl; auto 10].
    unfold try_finally in Hrun.
    destruct (main_body _ _ _ _ _ _ _ _) as [[[]|e|] w3];
      injection Hrun as <- <-; simpl; auto 10.
Qed.

(** C4 is not met by this run: the connection opens, the table name of the
    offers table is not in the [TABLES] section, [config.get] raises before
    the [try] block is entered, and the run ends with the connection open:
    nothing closes it.  ([main] of [table_manager.py] enters its [try] block
    right after connecting.) *)
Example main_leaves_connection_open :
  let args := Args offers (Some "RU000A0JX0J2") update 0 0 in
  let out := @main ascii_str silent_server keyed_storage 0 args example_config
               (initial_world []) in
  tables example_config !! "offers" = None
  /\ out.1 = Raise NoOptionError
  /\ conn out.2 = Connected
  /\ statements out.2 = [].
Proof. vm_compute. repeat split. Qed.

(** ** Pagination *)

Lemma truthy_response_lookup (d : response) (k : string) (b : block) :
  d !! k = Some b -> truthy_response (Some d) = true.
Proof.
  intros Hk. unfold truthy_response. apply negb_true_iff, bool_decide_eq_false.
  intros ->. by rewrite lookup_empty in Hk.
Qed.

Lemma cursor_triple_inv (d : response) (k : string) (index : value) (tot ps : Z) :
  cursor_triple d k = Some (index, tot, ps) ->
  exists cb total pagesize rest,
    d !! k = Some cb
    /\ data cb = Some ([index; total; pagesize] :: rest)
    /\ int_of_value total = Some tot
    /\ int_of_value pagesize = Some ps.
Proof.
  unfold cursor_triple. intros H.
  destruct (d !! k) as [cb|] eqn:Hk; [|done].
  destruct (data cb) as [[|[|i [|t [|p [|? ?]]]] rest]|] eqn:Hd; try done.
  destruct (int_of_value t) as [tot'|] eqn:Ht; [|done].
  destruct (int_of_value p) as [ps'|] eqn:Hp; [|done].
  injection H as <- <- <-. by exists cb, t, p, rest.
Qed.

(** What the cursor test of the page loops of [main] decides. *)
Lemma page_cursor_triple (k : string) (d : response) (start : Z)
    (index : value) (tot ps : Z) :
  cursor_triple d k = Some (index, tot, ps) ->
  page_cursor k (Some d) start
  = Ok (if start + ps <? tot then Some (start + ps) else None).
Proof.
  intros H. destruct (cursor_triple_inv d k index tot ps H)
    as (cb & total & pagesize & rest & Hk & Hd & Ht & Hp).
  unfold page_cursor. rewrite (truthy_response_lookup d k cb Hk), Hk, Hd. simpl.
  unfold start_plus_pagesize_lt_total, advance. rewrite Hp, Ht. simpl.
  by destruct (start + ps <? tot).
Qed.

Lemma page_cursor_no_entry (k : string) (d : option response) (start : Z) :
  d ≫= (.!! k) = None -> page_cursor k d start = Ok None.
Proof.
  unfold page_cursor. destruct d as [m|]; simpl; [|done].
  intros ->. by destruct (negb _).
Qed.

Lemma page_cursor_inv (k : string) (d : option response) (start start' : Z) :
  page_cursor k d start = Ok (Some start') ->
  exists m index tot ps,
    d = Some m /\ cursor_triple m k = Some (index, tot, ps)
    /\ start' = start + ps /\ start + ps < tot.
Proof.
  unfold page_cursor. destruct d as [m|]; [|done].
  destruct (truthy_response (Some m)); [|done].
  destruct (m !! k) as [cb|] eqn:Hk; [|done].
  destruct (data cb) as [[|[|i [|t [|p [|? ?]]]] rest]|] eqn:Hd; simpl; try done.
  unfold start_plus_pagesize_lt_total, advance.
  destruct (int_of_value p) as [ps|] eqn:Hp; [|done].
  destruct (int_of_value t) as [tot|] eqn:Ht; [|done].
  destruct (Z.ltb_spec (start + ps) tot); [|done].
  intros [= <-]. exists m, i, tot, ps. unfold cursor_triple.
  rewrite Hk, Hd, Ht, Hp. done.
Qed.

(** What the cursor test of [get_all_securities] decides: the same. *)
Lemma securities_cursor_triple (d : response) (start : Z)
    (index : value) (tot ps : Z) :
  cursor_triple d "securities.cursor" = Some (index, tot, ps) ->
  securities_cursor d start
  = Ok (if start + ps <? tot then Some (start + ps) else None).
Proof.
  intros H. destruct (cursor_triple_inv _ _ index tot ps H)
    as (cb & total & pagesize & rest & Hk & Hd & Ht & Hp).
  unfold securities_cursor. rewrite Hk, Hd. simpl.
  unfold start_plus_pagesize_ge_total, advance. rewrite Hp, Ht. simpl.
  destruct (Z.geb_spec (start + ps) tot); destruct (Z.ltb_spec (start + ps) tot);
    (done || lia).
Qed.

Lemma securities_cursor_no_entry (d : response) (start : Z) :
  d !! "securities.cursor" = None -> securities_cursor d start = Ok None.
Proof. unfold securities_cursor. by intros ->. Qed.

Lemma securities_cursor_inv (d : response) (start start' : Z) :
  securities_cursor d start = Ok (Some start') ->
  exists index tot ps,
    cursor_triple d "securities.cursor" = Some (index, tot, ps)
    /\ start' = start + ps /\ start + ps < tot.
Proof.
  unfold securities_cursor.
  destruct (d !! "securities.cursor") as [cb|] eqn:Hk; [|done].
  destruct (data cb) as [[|[|i [|t [|p [|? ?]]]] rest]|] eqn:Hd; simpl; try done.
  unfold start_plus_pagesize_ge_total, advance.
  destruct (int_of_value p) as [ps|] eqn:Hp; [|done].
  destruct (int_of_value t) as [tot|] eqn:Ht; [|done].
  destruct (Z.geb_spec (start + ps) tot); [done|].
  intros [= <-]. exists i, tot, ps. unfold cursor_triple.
  rewrite Hk, Hd, Ht, Hp. done.
Qed.

Section PaginationFacts.
Context {py : PyStr} {net : Network} {st : Storage}.

Lemma insert_data_generic_requests (table_name : string) (page : block) (cfg : config)
    (tk : string) (w : world) :
  requests (insert_data_generic table_name page cfg tk w).2 = requests w.
Proof.
  destruct (loadable cfg tk page) eqn:Hl.
  - destruct (accepted (page_db_rows cfg tk page)) eqn:Ha.
    + by rewrite insert_data_generic_committed.
    + by destruct (insert_data_generic_rolled_back table_name page cfg tk w Hl Ha) as [k ->].
  - by rewrite insert_data_generic_skipped.
Qed.

(** One iteration of a page loop of [main]: the request with [start] is
    issued, the page of the answer is loaded, and the loop goes on with the
    start value the cursor test gives, or ends. *)
Lemma page_loop_step (fuel : nat) (url : string) (fixed_params : gmap string param)
    (data_block table_name : string) (cfg : config) (tk : table_key) (start : Z)
    (w : world) :
  let req := Request url (<["start" := PInt start]> fixed_params) in
  let d := http (length (requests w)) req in
  let w2 := after_page data_block table_name cfg tk d (after_fetch req w) in
  page_loop (S fuel) url fixed_params data_block table_name cfg tk start w
  = match page_cursor (data_block +:+ ".cursor") d start with
    | Ok (Some start') =>
        page_loop fuel url fixed_params data_block table_name cfg tk start' w2
    | Ok None => (Ok tt, w2)
    | Raise e => (Raise e, w2)
    | Diverge => (Diverge, w2)
    end.
Proof.
  cbv zeta. simpl page_loop. rewrite bind_unfold. unfold fetch_moex_data at 1.
  cbv beta iota zeta. fold (after_fetch (Request url (<["start" := PInt start]> fixed_params)) w).
  set (req := Request url _). set (d := http _ req). set (w1 := after_fetch req w).
  rewrite bind_unfold. unfold after_page.
  assert (match page_of d data_block with
          | Some page => insert_data_generic table_name page cfg (table_key_name tk)
          | None => ret tt
          end w1
          = (Ok tt, match page_of d data_block with
                    | Some page =>
                        (insert_data_generic table_name page cfg (table_key_name tk) w1).2
                    | None => w1
                    end)) as ->.
  { destruct (page_of d data_block) as [page|]; [|done].
    pose proof (insert_data_generic_returns table_name page cfg (table_key_name tk) w1).
    by destruct (insert_data_generic _ _ _ _ w1) as [r w']; simpl in *; subst. }
  rewrite bind_unfold. unfold lift at 1.
  destruct (page_cursor (data_block +:+ ".cursor") d start) as [[start'|]|e|] eqn:Hc;
    try done.
  - destruct (page_cursor_inv _ _ _ _ Hc) as (m & i & tot & ps & -> & Ht & _).
    destruct (cursor_triple_inv _ _ _ _ _ Ht) as (cb & _ & _ & _ & Hk & _).
    by rewrite (truthy_response_lookup m _ cb Hk).
  - by destruct (negb (truthy_response d)).
Qed.

Lemma after_page_requests (data_block table_name : string) (cfg : config)
    (tk : table_key) (d : option response) (w : world) :
  requests (after_page data_block table_name cfg tk d w) = requests w.
Proof.
  unfold after_page. destruct (page_of d data_block); [|done].
  apply insert_data_generic_requests.
Qed.

(** The requests of a page loop follow the cursor. *)
Lemma page_loop_trace (fuel : nat) (url : string) (fixed_params : gmap string param)
    (data_block table_name : string) (cfg : config) (tk : table_key) (start : Z)
    (w : world) :
  let request_of := fun s => Request url (<["start" := PInt s]> fixed_params) in
  let out := page_loop fuel url fixed_params data_block table_name cfg tk start w in
  exists starts : list Z,
    requests out.2 = requests w ++ map request_of starts
    /\ follows_cursor (page_loop_next data_block) (fun k s => http k (request_of s))
                      (negb (is_diverge out.1)) (length (requests w)) start starts.
Proof.
  cbv zeta. revert start w. induction fuel as [|fuel IH]; intros start w.
  - exists []. simpl. by rewrite app_nil_r.
  - rewrite page_loop_step.
    set (req := Request url _). set (d := http _ req).
    set (w2 := after_page _ _ _ _ _ _).
    assert (requests w2 = requests w ++ [req]) as Hreq.
    { unfold w2. by rewrite after_page_requests. }
    destruct (page_cursor (data_block +:+ ".cursor") d start) as [[start'|]|e|] eqn:Hc.
    + destruct (IH start' w2) as (starts & Hs & Hf).
      exists (start :: starts). split.
      * rewrite Hs, Hreq, <- app_assoc. done.
      * simpl. split; [done|]. unfold page_loop_next at 1. fold req. fold d.
        rewrite Hc. rewrite Hreq, length_app, Nat.add_1_r in Hf. exact Hf.
    + exists [start]. split; [done|]. simpl. split; [done|].
      unfold page_loop_next. fold req. fold d. by rewrite Hc.
    + exists [start]. split; [done|]. simpl. split; [done|].
      unfold page_loop_next. fold req. fold d. by rewrite Hc.
    + exists [start]. split; [done|]. simpl. split; [done|].
      unfold page_loop_next. fold req. fold d. by rewrite Hc.
Qed.

(** One iteration of the loop of [get_all_securities]. *)
Lemma get_all_securities_loop_step (fuel : nat) (securities_url : string)
    (limit start : Z) (securities : list row) (w : world) :
  let req := Request securities_url (<["limit" := PInt limit]> {["start" := PInt start]}) in
  let d := http (length (requests w)) req in
  let w1 := after_fetch req w in
  get_all_securities_loop (S fuel) securities_url limit start securities w
  = match page_of d "securities" with
    | None => (Ok securities, w1)
    | Some page =>
        match securities_cursor (default ∅ d) start with
        | Ok (Some start') =>
            get_all_securities_loop fuel securities_url limit start'
              (securities ++ default [] (data page)) w1
        | Ok None => (Ok (securities ++ default [] (data page)), w1)
        | Raise e => (Raise e, w1)
        | Diverge => (Diverge, w1)
        end
    end.
Proof.
  cbv zeta. simpl get_all_securities_loop. rewrite bind_unfold.
  unfold fetch_moex_data at 1. cbv beta iota zeta.
  fold (after_fetch (Request securities_url
                       (<["limit" := PInt limit]> {["start" := PInt start]})) w).
  destruct (page_of _ "securities"); [|done].
  rewrite bind_unfold. unfold lift at 1.
  by destruct (securities_cursor _ start) as [[start'|]|e|].
Qed.

(** The requests of [get_all_securities] follow the cursor. *)
Lemma get_all_securities_loop_trace (fuel : nat) (securities_url : string)
    (limit start : Z) (securities : list row) (w : world) :
  let request_of := fun s =>
    Request securities_url (<["limit" := PInt limit]> {["start" := PInt s]}) in
  let out := get_all_securities_loop fuel securities_url limit start securities w in
  exists starts : list Z,
    requests out.2 = requests w ++ map request_of starts
    /\ follows_cursor securities_next (fun k s => http k (request_of s))
                      (negb (is_diverge out.1)) (length (requests w)) start starts.
Proof.
  cbv zeta. revert start securities w.
  induction fuel as [|fuel IH]; intros start securities w.
  - exists []. simpl. by rewrite app_nil_r.
  - rewrite get_all_securities_loop_step.
    set (req := Request securities_url _). set (d := http _ req).
    set (w1 := after_fetch req w).
    destruct (page_of d "securities") as [page|] eqn:Hp.
    + destruct (securities_cursor (default ∅ d) start) as [[start'|]|e|] eqn:Hc.
      * destruct (IH start' (securities ++ default [] (data page)) w1) as (starts & Hs & Hf).
        exists (start :: starts). split.
        -- rewrite Hs. simpl. by rewrite <- app_assoc.
        -- simpl. split; [done|]. unfold securities_next at 1. fold req. fold d.
           rewrite Hp, Hc. simpl in Hf. rewrite length_app, Nat.add_1_r in Hf. exact Hf.
      * exists [start]. split; [done|]. simpl. split; [done|].
        unfold securities_next. fold req. fold d. by rewrite Hp, Hc.
      * exists [start]. split; [done|]. simpl. split; [done|].
        unfold securities_next. fold req. fold d. by rewrite Hp, Hc.
      * exists [start]. split; [done|]. simpl. split; [done|].
        unfold securities_next. fold req. fold d. by rewrite Hp, Hc.
    + exists [start]. split; [done|]. simpl. split; [done|].
      unfold securities_next. fold req. fold d. by rewrite Hp.
Qed.
End PaginationFacts.

(** C5.  The cursor test: for a body whose cursor entry decodes to
    [(index, total, pagesize)], a page loop goes on with [start + pagesize]
    exactly when [start + pagesize < total] and stops otherwise, and it
    stops when the body has no cursor entry; the loop of
    [get_all_securities] does the same for a body that holds a page.  The
    requests: the start values a loop requests begin with its [start], and
    each next request is issued with the start value the cursor test gave
    for the answer before it, and only then (see [follows_cursor]).  In
    particular, against a server whose cursors are (0,250,100),
    (100,250,100), (200,250,100) both loops issue exactly three requests,
    with start values 0, 100, 200, and end. *)
Theorem pagination_follows_cursor {py : PyStr} {net : Network} {st : Storage} :
  (forall (data_block : string) (d : response) (start : Z) (index : value) (tot ps : Z),
     cursor_triple d (data_block +:+ ".cursor") = Some (index, tot, ps) ->
     page_loop_next data_block (Some d) start
     = if start + ps <? tot then Some (start + ps) else None)
  /\ (forall (data_block : string) (d : option response) (start : Z),
        d ≫= (.!! (data_block +:+ ".cursor")) = None ->
        page_loop_next data_block d start = None)
  /\ (forall (d : response) (start : Z) (index : value) (tot ps : Z),
        is_Some (page_of (Some d) "securities") ->
        cursor_triple d "securities.cursor" = Some (index, tot, ps) ->
        securities_next (Some d) start
        = if start + ps <? tot then Some (start + ps) else None)
  /\ (forall (d : option response) (start : Z),
        d ≫= (.!! "securities.cursor") = None ->
        securities_next d start = None)
  /\ (forall (fuel : nat) (url : string) (fixed_params : gmap string param)
             (data_block table_name : string) (cfg : config) (tk : table_key)
             (start : Z) (w : world),
        let request_of := fun s => Request url (<["start" := PInt s]> fixed_params) in
        let out := page_loop fuel url fixed_params data_block table_name cfg tk start w in
        exists starts : list Z,
          requests out.2 = requests w ++ map request_of starts
          /\ follows_cursor (page_loop_next data_block) (fun k s => http k (request_of s))
                            (negb (is_diverge out.1)) (length (requests w)) start starts)
  /\ (forall (fuel : nat) (securities_url : string) (limit start : Z)
             (securities : list row) (w : world),
        let request_of := fun s =>
          Request securities_url (<["limit" := PInt limit]> {["start" := PInt s]}) in
        let out := get_all_securities_loop fuel securities_url limit start securities w in
        exists starts : list Z,
          requests out.2 = requests w ++ map request_of starts
          /\ follows_cursor securities_next (fun k s => http k (request_of s))
                            (negb (is_diverge out.1)) (length (requests w)) start starts)
  /\ (let out := @get_all_securities (paged_server "securities") 4 example_config
                   (initial_world []) in
      map (fun req => params req !! "start") (requests out.2)
      = [Some (PInt 0); Some (PInt 100); Some (PInt 200)]
      /\ is_diverge out.1 = false)
  /\ (let out := @page_loop ascii_str (paged_server "coupons") keyed_storage 4
                   "https://iss.moex.com/iss/statistics/engines/stock/markets/bonds/bondization/RU000A0JX0J2.json"
                   {["limit" := PInt 100]} "coupons" "coupons" example_config coupons 0
                   (initial_world []) in
      map (fun req => params req !! "start") (requests out.2)
      = [Some (PInt 0); Some (PInt 100); Some (PInt 200)]
      /\ out.1 = Ok tt).
Proof.
  split; [|split; [|split; [|split; [|split; [|split; [|split]]]]]].
  - intros data_block d start index tot ps H. unfold page_loop_next.
    by rewrite (page_cursor_triple _ _ _ _ _ _ H).
  - intros data_block d start H. unfold page_loop_next.
    by rewrite page_cursor_no_entry.
  - intros d start index tot ps [page Hp] H. unfold securities_next.
    rewrite Hp. simpl. by rewrite (securities_cursor_triple _ _ _ _ _ H).
  - intros d start H. unfold securities_next.
    destruct (page_of d "securities"); [|done].
    destruct d as [m|]; simpl in *; [|done].
    by rewrite securities_cursor_no_entry.
  - intros. apply page_loop_trace.
  - intros. apply get_all_securities_loop_trace.
  - vm_compute. split; reflexivity.
  - vm_compute. split; reflexivity.
Qed.

Lemma pagination_follows_cursor_witness :
  let d : response := {[ "coupons.cursor" := cursor_block 100 250 100 ]} in
  cursor_triple d ("coupons" +:+ ".cursor") = Some (VInt 100, 250, 100)
  /\ page_loop_next "coupons" (Some d) 100 = Some 200
  /\ page_loop_next "coupons" (Some d) 200 = None.
Proof.
  cbv zeta. split; [vm_compute; reflexivity|].
  pose proof (proj1 (@pagination_follows_cursor ascii_str silent_server keyed_storage)) as H.
  split.
  - apply (H "coupons" {[ "coupons.cursor" := cursor_block 100 250 100 ]} 100 (VInt 100)
             250 100).
    vm_compute. reflexivity.
  - apply (H "coupons" {[ "coupons.cursor" := cursor_block 100 250 100 ]} 200 (VInt 100)
             250 100).
    vm_compute. reflexivity.
Defined.

(** ** Termination of the page loops *)

Lemma page_cursor_not_diverge (k : string) (d : option response) (start : Z) :
  page_cursor k d start <> Diverge.
Proof.
  unfold page_cursor, unpack_cursor, start_plus_pagesize_lt_total.
  repeat case_match; congruence.
Qed.

Lemma securities_cursor_not_diverge (d : response) (start : Z) :
  securities_cursor d start <> Diverge.
Proof.
  unfold securities_cursor, unpack_cursor, start_plus_pagesize_ge_total.
  repeat case_match; congruence.
Qed.

Section Termination.
Context {py : PyStr} {net : Network} {st : Storage}.
Context (T : Z).
Hypothesis cursors_bounded :
  forall (n : nat) (req : request) (d : response) (k : string)
         (index : value) (tot ps : Z),
    http n req = Some d ->
    cursor_triple d k = Some (index, tot, ps) ->
    1 <= ps /\ tot <= T.

Lemma page_loop_terminates (fuel : nat) (url : string) (fixed_params : gmap string param)
    (data_block table_name : string) (cfg : config) (tk : table_key) (start : Z)
    (w : world) :
  (Z.to_nat (T - start) < fuel)%nat ->
  is_diverge (page_loop fuel url fixed_params data_block table_name cfg tk start w).1
  = false.
Proof.
  revert start w. induction fuel as [|fuel IH]; intros start w Hfuel; [lia|].
  rewrite page_loop_step.
  set (req := Request url _). set (d := http _ req). set (w2 := after_page _ _ _ _ _ _).
  destruct (page_cursor (data_block +:+ ".cursor") d start) as [[start'|]|e|] eqn:Hc;
    [|done|done|by destruct (page_cursor_not_diverge _ _ _ Hc)].
  destruct (page_cursor_inv _ _ _ _ Hc) as (m & i & tot & ps & Hd & Ht & -> & Hlt).
  destruct (cursors_bounded _ req m _ i tot ps Hd Ht) as [Hps Htot].
  apply IH. lia.
Qed.

Lemma get_all_securities_loop_terminates (fuel : nat) (securities_url : string)
    (limit start : Z) (securities : list row) (w : world) :
  (Z.to_nat (T - start) < fuel)%nat ->
  is_diverge (get_all_securities_loop fuel securities_url limit start securities w).1
  = false.
Proof.
  revert start securities w.
  induction fuel as [|fuel IH]; intros start securities w Hfuel; [lia|].
  rewrite get_all_securities_loop_step.
  set (req := Request securities_url _). set (d := http _ req).
  destruct (page_of d "securities") as [page|] eqn:Hp; [|done].
  destruct (securities_cursor (default ∅ d) start) as [[start'|]|e|] eqn:Hc;
    [|done|done|by destruct (securities_cursor_not_diverge _ _ Hc)].
  destruct (securities_cursor_inv _ _ _ Hc) as (i & tot & ps & Ht & -> & Hlt).
  destruct d as [m|] eqn:Hd; [|done]. simpl in Ht.
  destruct (cursors_bounded _ req m _ i tot ps Hd Ht) as [Hps Htot].
  apply IH. lia.
Qed.
End Termination.

(** Against [growing_server] the schedule loop never ends. *)
Lemma page_loop_growing_diverges (fuel : nat) (url : string)
    (fixed_params : gmap string param) (table_name : string) (cfg : config)
    (start : Z) (w : world) :
  (@page_loop ascii_str growing_server keyed_storage fuel url fixed_params "coupons"
     table_name cfg coupons start w).1 = Diverge.
Proof.
  revert start w. induction fuel as [|fuel IH]; intros start w; [done|].
  rewrite page_loop_step. cbv zeta.
  set (req := Request url _).
  assert (start_of req = start) as Hs.
  { unfold start_of, req. simpl. by rewrite lookup_insert_eq. }
  change (http (length (requests w)) req)
    with (Some ({[ "coupons.cursor" := cursor_block (start_of req) (start_of req + 2) 1 ]}
                : response)).
  rewrite Hs.
  rewrite (page_cursor_triple _ _ start (VInt start) (start + 2) 1).
  - destruct (Z.ltb_spec (start + 1) (start + 2)); [apply IH | lia].
  - unfold cursor_triple. change ("coupons" +:+ ".cursor") with "coupons.cursor".
    by rewrite lookup_singleton_eq.
Qed.

(** So does the run that loads the coupons of one ISIN from it. *)
Lemma main_growing_diverges (fuel : nat) :
  (@main ascii_str growing_server keyed_storage fuel
     (Args coupons (Some "RU000A0JX0J2") update 0 0) example_config (initial_world [])).1
  = Diverge.
Proof.
  unfold main, get_isin_list.
  change (isin_given _) with true. cbv iota.
  rewrite bind_unfold. unfold ret at 1. cbv beta iota.
  rewrite andb_false_r.
  rewrite bind_unfold. unfold get_db_connection. change connect_ok with true.
  cbv beta iota. change (negb true) with false. cbv iota.
  rewrite bind_unfold. unfold lift at 1.
  change (config_get (api_base_url example_config))
    with (@Ok string "https://iss.moex.com/iss").
  cbv beta iota.
  rewrite bind_unfold. unfold lift at 1.
  change (get_default_limit example_config) with (@Ok Z 100). cbv beta iota.
  rewrite bind_unfold. unfold lift at 1. cbv [args_table].
  assert (tables example_config !! table_key_name coupons = Some "coupons") as ->
    by (vm_compute; reflexivity).
  simpl config_get. cbv beta iota.
  unfold try_finally, main_body. cbv [args_mode args_table].
  rewrite bind_unfold. unfold ret at 1. cbv beta iota.
  unfold process_bondization. change (isin_given _) with true. cbv iota.
  set (l := map _ _). assert (l = ["RU000A0JX0J2"]) as -> by (vm_compute; reflexivity).
  simpl for_each. rewrite bind_unfold.
  match goal with
  | |- context [page_loop ?f ?u ?p ?b ?t ?c ?k ?s ?w] =>
      pose proof (page_loop_growing_diverges f u p t c s w) as H;
      destruct (page_loop f u p b t c k s w) as [r w']
  end.
  simpl in H. subst r. reflexivity.
Qed.

(** A server that never stops answering can keep a loop running although
    every page size it sends is positive: every cursor that
    [growing_server] sends has page size 1, and the run that loads the
    coupons of one ISIN from it does not end, because the total reported
    stays ahead of [start + pagesize]. *)
Lemma growing_total_never_terminates :
  (forall (n : nat) (req : request),
     exists d, @http growing_server n req = Some d
               /\ forall k index tot ps,
                    cursor_triple d k = Some (index, tot, ps) -> ps = 1)
  /\ ~ (exists fuel : nat,
          is_diverge (@main ascii_str growing_server keyed_storage fuel
                        (Args coupons (Some "RU000A0JX0J2") update 0 0)
                        example_config (initial_world [])).1 = false).
Proof.
  split.
  - intros n req. eexists. split; [reflexivity|].
    intros k index tot ps. unfold cursor_triple.
    destruct (decide (k = "coupons.cursor")) as [->|Hk].
    + rewrite lookup_singleton_eq. simpl. by intros [= _ _ <-].
    + by rewrite lookup_singleton_ne.
  - intros [fuel H]. by rewrite main_growing_diverges in H.
Qed.

(** Against a server that may answer for ever, each page loop still ends
    when every cursor triple sent has [pagesize >= 1] and a total of at most
    [T]: started at [start], it is over (normally or with an exception)
    after at most [T - start + 1] iterations, and after one when
    [start >= T]. *)
Theorem page_loops_terminate_when_totals_bounded
    {py : PyStr} {net : Network} {st : Storage} (T : Z)
    (Hcursors : forall (n : nat) (req : request) (d : response) (k : string)
                       (index : value) (tot ps : Z),
        http n req = Some d ->
        cursor_triple d k = Some (index, tot, ps) ->
        1 <= ps /\ tot <= T) :
  (forall (fuel : nat) (url : string) (fixed_params : gmap string param)
          (data_block table_name : string) (cfg : config) (tk : table_key)
          (start : Z) (w : world),
     (Z.to_nat (T - start) < fuel)%nat ->
     is_diverge (page_loop fuel url fixed_params data_block table_name cfg tk start w).1
     = false)
  /\ (forall (fuel : nat) (securities_url : string) (limit start : Z)
             (securities : list row) (w : world),
        (Z.to_nat (T - start) < fuel)%nat ->
        is_diverge (get_all_securities_loop fuel securities_url limit start securities w).1
        = false).
Proof.
  split.
  - intros. by apply (page_loop_terminates T Hcursors).
  - intros. by apply (get_all_securities_loop_terminates T Hcursors).
Qed.

Lemma paged_server_cursors (data_block : string) (n : nat) (req : request) (d : response)
    (k : string) (index : value) (tot ps : Z) :
  @http (paged_server data_block) n req = Some d ->
  cursor_triple d k = Some (index, tot, ps) ->
  1 <= ps /\ tot <= 250.
Proof.
  intros [= <-]. unfold cursor_triple.
  rewrite lookup_insert. case_decide as Hk.
  - simpl. intros [= _ <- <-]. lia.
  - rewrite lookup_singleton. case_decide; [|done]. done.
Qed.

Lemma page_loops_terminate_when_totals_bounded_witness :
  is_diverge (@page_loop ascii_str (paged_server "coupons") keyed_storage 251
                "https://iss.moex.com/iss/statistics/engines/stock/markets/bonds/bondization.json"
                {["limit" := PInt 100]} "coupons" "coupons" example_config coupons 0
                (initial_world [])).1 = false.
Proof.
  apply (proj1 (@page_loops_terminate_when_totals_bounded ascii_str
                  (paged_server "coupons") keyed_storage 250
                  (paged_server_cursors "coupons"))).
  vm_compute. lia.
Defined.

(** ** Finitely many responses *)

Section Ends.
Context {py : PyStr} {net : Network} {st : Storage}.

Lemma ends_ret {A} (a : A) : ends (ret a).
Proof. by intros w. Qed.

Lemma ends_raise {A} (e : exn) : ends (@raise A e).
Proof. by intros w. Qed.

Lemma ends_lift {A} (r : result A) : r <> Diverge -> ends (lift r).
Proof. intros Hr w. simpl. by destruct r. Qed.

Lemma ends_print (m : message) : ends (print m).
Proof. by intros w. Qed.

Lemma ends_fetch url params : ends (fetch_moex_data url params).
Proof. by intros w. Qed.

Lemma ends_insert table_name page cfg tk :
  ends (insert_data_generic table_name page cfg tk).
Proof. intros w. by rewrite insert_data_generic_returns. Qed.

Lemma ends_bind {A B} (m : M A) (f : A -> M B) :
  ends m -> (forall a, ends (f a)) -> ends (bind m f).
Proof.
  intros Hm Hf w. rewrite bind_unfold. specialize (Hm w).
  destruct (m w) as [[a|e|] w1]; simpl in *; [apply Hf|done|done].
Qed.

Lemma ends_for_each {A} (l : list A) (body : A -> M unit) :
  (forall x, ends (body x)) -> ends (for_each l body).
Proof.
  intros Hbody. induction l as [|x l IH]; simpl; [apply ends_ret|].
  apply ends_bind; [apply Hbody | by intros _].
Qed.

Lemma ends_date_loop (days : nat) (date : Z) (body : Z -> M unit) :
  (forall d, ends (body d)) -> ends (date_loop days date body).
Proof.
  intros Hbody. revert date. induction days as [|days IH]; intros date; simpl;
    [apply ends_ret|].
  apply ends_bind; [apply Hbody|]. intros _.
  destruct (date_max <? date + 1); [apply ends_raise | apply IH].
Qed.

Lemma ends_try_finally {A} (body : M A) (final : M unit) :
  ends body -> ends final -> ends (try_finally body final).
Proof.
  intros Hb Hf w. unfold try_finally. specialize (Hb w).
  destruct (body w) as [r w1]. specialize (Hf w1).
  destruct r as [a|e|]; simpl in *; [| |done]; by destruct (final w1) as [[[]|e'|] w2].
Qed.

Lemma ends_clear_table table_name cfg : ends (clear_table table_name cfg).
Proof.
  intros w.
  unfold clear_table, try_except, execute_truncate, bind, log_stmt, raise, set_working,
    commit, rollback, print.
  simpl. by destruct truncate_denied.
Qed.

Lemma ends_get_db_connection : ends get_db_connection.
Proof. intros w. unfold get_db_connection. by destruct connect_ok. Qed.

Lemma ends_close : ends close.
Proof. by intros w. Qed.

Lemma config_get_not_diverge {A} (o : option A) : config_get o <> Diverge.
Proof. by destruct o. Qed.

Lemma get_default_limit_not_diverge (cfg : config) : get_default_limit cfg <> Diverge.
Proof. unfold get_default_limit. by destruct (api_default_limit cfg). Qed.

(** The server sends [responses] responses and then no more: a request
    after them is not answered. *)
Context (responses : nat).
Hypothesis no_more :
  forall (n : nat) (req : request), (responses <= n)%nat -> http n req = None.

Lemma page_loop_ends_when_answers_end (fuel : nat) (url : string)
    (fixed_params : gmap string param) (data_block table_name : string) (cfg : config)
    (tk : table_key) (start : Z) (w : world) :
  (responses - length (requests w) < fuel)%nat ->
  is_diverge (page_loop fuel url fixed_params data_block table_name cfg tk start w).1
  = false.
Proof.
  revert start w. induction fuel as [|fuel IH]; intros start w Hfuel; [lia|].
  rewrite page_loop_step.
  set (req := Request url _). set (d := http _ req). set (w2 := after_page _ _ _ _ _ _).
  destruct (page_cursor (data_block +:+ ".cursor") d start) as [[start'|]|e|] eqn:Hc;
    [|done|done|by destruct (page_cursor_not_diverge _ _ _ Hc)].
  destruct (page_cursor_inv _ _ _ _ Hc) as (m & i & tot & ps & Hd & _).
  assert (length (requests w) < responses)%nat as Hlt.
  { destruct (Nat.lt_ge_cases (length (requests w)) responses) as [|Hge]; [done|].
    unfold d in Hd. by rewrite (no_more _ req Hge) in Hd. }
  apply IH. unfold w2. rewrite after_page_requests. simpl. rewrite length_app. simpl. lia.
Qed.

Lemma get_all_securities_loop_ends_when_answers_end (fuel : nat) (securities_url : string)
    (limit start : Z) (securities : list row) (w : world) :
  (responses - length (requests w) < fuel)%nat ->
  is_diverge (get_all_securities_loop fuel securities_url limit start securities w).1
  = false.
Proof.
  revert start securities w.
  induction fuel as [|fuel IH]; intros start securities w Hfuel; [lia|].
  rewrite get_all_securities_loop_step.
  set (req := Request securities_url _). set (d := http _ req).
  destruct (page_of d "securities") as [page|] eqn:Hp; [|done].
  destruct (securities_cursor (default ∅ d) start) as [[start'|]|e|] eqn:Hc;
    [|done|done|by destruct (securities_cursor_not_diverge _ _ Hc)].
  assert (length (requests w) < responses)%nat as Hlt.
  { destruct (Nat.lt_ge_cases (length (requests w)) responses) as [|Hge]; [done|].
    unfold d in Hp. by rewrite (no_more _ req Hge) in Hp. }
  apply IH. simpl. rewrite length_app. simpl. lia.
Qed.

Lemma ends_page_loop (fuel : nat) (url : string) (fixed_params : gmap string param)
    (data_block table_name : string) (cfg : config) (tk : table_key) (start : Z) :
  (responses < fuel)%nat ->
  ends (page_loop fuel url fixed_params data_block table_name cfg tk start).
Proof. intros Hfuel w. apply page_loop_ends_when_answers_end. lia. Qed.

Lemma ends_get_all_securities (fuel : nat) (cfg : config) :
  (responses < fuel)%nat -> ends (get_all_securities fuel cfg).
Proof.
  intros Hfuel. unfold get_all_securities.
  apply ends_bind; [apply ends_lift, config_get_not_diverge|]. intros base_url.
  apply ends_bind; [apply ends_lift, get_default_limit_not_diverge|]. intros limit w.
  apply get_all_securities_loop_ends_when_answers_end. lia.
Qed.

Lemma ends_get_isin_list (fuel : nat) (args : arguments) (cfg : config) :
  (responses < fuel)%nat -> ends (get_isin_list fuel args cfg).
Proof.
  intros Hfuel. unfold get_isin_list. destruct (isin_given args); [apply ends_ret|].
  apply ends_bind; [by apply ends_get_all_securities|]. intros rows.
  destruct (negb (truthy_list rows)).
  - apply ends_bind; [apply ends_print|]. intros _. apply ends_ret.
  - rewrite !str_in_rows_false. apply ends_ret.
Qed.

Lemma ends_fetch_and_load (url : string) (params : gmap string param)
    (data_block table_name : string) (cfg : config) (tk : string) :
  ends (bind (fetch_moex_data url params) (fun d =>
          match page_of d data_block with
          | Some page => insert_data_generic table_name page cfg tk
          | None => ret tt
          end)).
Proof.
  apply ends_bind; [apply ends_fetch|]. intros d.
  destruct (page_of d data_block); [apply ends_insert | apply ends_ret].
Qed.

Lemma ends_main_body (fuel : nat) (args : arguments) (cfg : config)
    (isin_list : list string) (base_url table_name : string) (default_limit : Z) :
  (responses < fuel)%nat ->
  ends (main_body fuel args cfg isin_list base_url table_name default_limit).
Proof.
  intros Hfuel. unfold main_body.
  assert (ends (match args_table args with
                | bonds => process_bonds fuel args cfg isin_list base_url table_name
                | quotas => process_quotas fuel args cfg isin_list base_url table_name
                                           default_limit
                | coupons | amortizations | offers =>
                    process_bondization fuel args cfg isin_list base_url table_name
                                        default_limit
                end)) as Htable.
  { assert (ends (process_bondization fuel args cfg isin_list base_url table_name
                                      default_limit)) as Hb.
    { unfold process_bondization. destruct (isin_given args).
      - apply ends_for_each. intros isin. by apply ends_page_loop.
      - by apply ends_page_loop. }
    destruct (args_table args); try exact Hb.
    - unfold process_bonds. destruct (isin_given args).
      + apply ends_for_each. intros isin. apply ends_fetch_and_load.
      + apply ends_bind; [by apply ends_get_all_securities|]. intros rows.
        rewrite !str_in_rows_false. destruct (truthy_list rows); apply ends_ret.
    - unfold process_quotas. apply ends_date_loop. intros date.
      destruct (isin_given args).
      + apply ends_for_each. intros isin. apply ends_fetch_and_load.
      + by apply ends_page_loop. }
  destruct (args_mode args).
  - apply ends_clear_table.
  - apply ends_bind; [apply ends_ret | by intros _].
  - apply ends_bind; [apply ends_clear_table | by intros _].
Qed.

Lemma ends_main (fuel : nat) (args : arguments) (cfg : config) :
  (responses < fuel)%nat -> ends (main fuel args cfg).
Proof.
  intros Hfuel. unfold main.
  apply ends_bind; [by apply ends_get_isin_list|]. intros isin_list.
  destruct (_ && _); [apply ends_print|].
  apply ends_bind; [apply ends_get_db_connection|]. intros connected.
  destruct (negb connected); [apply ends_ret|].
  apply ends_bind; [apply ends_lift, config_get_not_diverge|]. intros base_url.
  apply ends_bind; [apply ends_lift, get_default_limit_not_diverge|]. intros default_limit.
  apply ends_bind; [apply ends_lift, config_get_not_diverge|]. intros table_name.
  apply ends_try_finally; [by apply ends_main_body|].
  apply ends_bind; [apply ends_close|]. intros _. apply ends_print.
Qed.
End Ends.

(** C10.  Every pagination loop terminates for every finite sequence of
    HTTP responses.  When the server sends [responses] responses and then no
    more, the loop of [get_all_securities] and each page loop of [main] (the
    quotes of a date, the schedule of one ISIN, the schedule of all bonds)
    is over, normally or with an exception, after at most one iteration more
    than there are responses left, and so is the whole run: a request that
    is not answered ends the loop that issued it.  Where a loop goes on, it
    goes on from [start + pagesize] with [start + pagesize < total]; with
    [pagesize >= 1] the start value strictly increases and stays below the
    total, and only a cursor with [pagesize <= 0] makes no progress. *)
Theorem page_loops_terminate_on_finite_responses
    {py : PyStr} {net : Network} {st : Storage} (responses : nat)
    (Hfinite : forall (n : nat) (req : request),
        (responses <= n)%nat -> http n req = None) :
  (forall (fuel : nat) (url : string) (fixed_params : gmap string param)
          (data_block table_name : string) (cfg : config) (tk : table_key)
          (start : Z) (w : world),
     (responses - length (requests w) < fuel)%nat ->
     is_diverge (page_loop fuel url fixed_params data_block table_name cfg tk start w).1
     = false)
  /\ (forall (fuel : nat) (securities_url : string) (limit start : Z)
             (securities : list row) (w : world),
        (responses - length (requests w) < fuel)%nat ->
        is_diverge (get_all_securities_loop fuel securities_url limit start securities w).1
        = false)
  /\ (forall (fuel : nat) (args : arguments) (cfg : config) (w : world),
        (responses < fuel)%nat ->
        is_diverge (main fuel args cfg w).1 = false)
  /\ (forall (data_block : string) (d : option response) (start start' : Z),
        page_loop_next data_block d start = Some start' ->
        exists (m : response) (index : value) (tot ps : Z),
          d = Some m
          /\ cursor_triple m (data_block +:+ ".cursor") = Some (index, tot, ps)
          /\ start' = start + ps
          /\ start' < tot
          /\ (1 <= ps -> start < start')
          /\ (start' <= start -> ps <= 0))
  /\ (forall (d : option response) (start start' : Z),
        securities_next d start = Some start' ->
        exists (m : response) (index : value) (tot ps : Z),
          d = Some m
          /\ cursor_triple m "securities.cursor" = Some (index, tot, ps)
          /\ start' = start + ps
          /\ start' < tot
          /\ (1 <= ps -> start < start')
          /\ (start' <= start -> ps <= 0)).
Proof.
  split; [|split; [|split; [|split]]].
  - intros. by apply (page_loop_ends_when_answers_end responses Hfinite).
  - intros. by apply (get_all_securities_loop_ends_when_answers_end responses Hfinite).
  - intros fuel args cfg w Hfuel. by apply (ends_main responses Hfinite).
  - intros data_block d start start' Hnext. unfold page_loop_next in Hnext.
    destruct (page_cursor _ d start) as [next|e|] eqn:Hc; [|done..]. subst next.
    destruct (page_cursor_inv _ _ _ _ Hc) as (m & i & tot & ps & Hd & Ht & -> & Hlt).
    exists m, i, tot, ps. repeat split; try done; lia.
  - intros d start start' Hnext. unfold securities_next in Hnext.
    destruct (page_of d "securities") as [page|] eqn:Hp; [|done].
    destruct (securities_cursor _ start) as [next|e|] eqn:Hc; [|done..]. subst next.
    destruct d as [m|]; [|done]. simpl in Hc.
    destruct (securities_cursor_inv _ _ _ Hc) as (i & tot & ps & Ht & -> & Hlt).
    exists m, i, tot, ps. repeat split; try done; lia.
Qed.

Lemma three_answers_server_no_more (n : nat) (req : request) :
  (3 <= n)%nat -> @http three_answers_server n req = None.
Proof.
  intros Hn. simpl. destruct (Nat.ltb_spec n 3) as [Hlt|_]; [lia | reflexivity].
Qed.

Lemma page_loops_terminate_on_finite_responses_witness :
  is_diverge (@main ascii_str three_answers_server keyed_storage 4
                (Args coupons (Some "RU000A0JX0J2") update 0 0) example_config
                (initial_world [])).1 = false.
Proof.
  apply (proj1 (proj2 (proj2 (@page_loops_terminate_on_finite_responses ascii_str
                                three_answers_server keyed_storage 3
                                three_answers_server_no_more)))).
  lia.
Defined.

(** * Further properties of the collector *)

(** ** The ISIN list *)

Lemma split_length (sep : Ascii.ascii) (s : string) :
  length (split sep s) = S (count_char sep s).
Proof.
  induction s as [|c s IH]; simpl; [done|].
  destruct (Ascii.eqb c sep); simpl; [by rewrite IH|].
  destruct (split sep s); simpl in *; done.
Qed.

Lemma split_concat (sep : Ascii.ascii) (s : string) :
  String.concat (String sep EmptyString) (split sep s) = s.
Proof.
  induction s as [|c s IH]; simpl; [done|].
  pose proof (split_length sep s) as Hlen.
  destruct (Ascii.eqb c sep) eqn:Hc.
  - apply Ascii.eqb_eq in Hc as ->.
    destruct (split sep s) as [|h t]; [done|].
    change (String.concat (String sep EmptyString) (EmptyString :: h :: t))
      with (String sep (String.concat (String sep EmptyString) (h :: t))).
    by rewrite IH.
  - destruct (split sep s) as [|h t]; [done|].
    destruct t as [|h' t]; simpl in *; by rewrite <- IH.
Qed.

(** X1.  With [--isin], [get_isin_list] issues no request and returns one
    ISIN for each comma-separated field of the option's text, in order, each
    stripped and upper-cased: the fields joined by commas are the text, and
    there is one more field than there are commas, so the list is never
    empty (an empty field, as after a trailing comma, gives an entry of its
    own). *)
Theorem get_isin_list_with_isin {py : PyStr} {net : Network}
    (fuel : nat) (args : arguments) (cfg : config) (w : world) (text : string) :
  args_isin args = Some text ->
  truthy_str text = true ->
  let comma := Ascii.ascii_of_nat 44 in
  let fields := split comma text in
  get_isin_list fuel args cfg w = (Ok (map (fun isin => upper (strip isin)) fields), w)
  /\ String.concat (String comma EmptyString) fields = text
  /\ length fields = S (count_char comma text).
Proof.
  intros Htext Htruthy. cbv zeta. split; [|split].
  - unfold get_isin_list, isin_given. by rewrite Htext, Htruthy.
  - apply split_concat.
  - apply split_length.
Qed.

Lemma get_isin_list_with_isin_witness :
  let args := Args bonds (Some "ru000a0jx0j2, RU000A0JXFM1,") update 0 0 in
  @get_isin_list ascii_str silent_server 0 args example_config (initial_world [])
  = (Ok ["RU000A0JX0J2"; "RU000A0JXFM1"; ""], initial_world []).
Proof.
  exact (proj1 (@get_isin_list_with_isin ascii_str silent_server 0
                  (Args bonds (Some "ru000a0jx0j2, RU000A0JXFM1,") update 0 0)
                  example_config (initial_world []) _ eq_refl eq_refl)).
Defined.

(** X2.  Without [--isin] (or with an empty one) the list of ISINs is empty
    whenever [get_isin_list] returns it, so [main] ends at "No ISINs found"
    before it connects: in every mode and for every table the connection,
    the table and the statement log are as they were, and a run that returns
    has printed that line last. *)
Theorem main_without_isin_is_inert {py : PyStr} {net : Network} {st : Storage}
    (fuel : nat) (args : arguments) (cfg : config) (w : world) :
  isin_given args = false ->
  let out := main fuel args cfg w in
  (forall l, (get_isin_list fuel args cfg w).1 = Ok l -> l = [])
  /\ same_database w out.2
  /\ (out.1 = Ok tt -> last (output out.2) = Some MsgNoIsins).
Proof.
  intros Hisin. cbv zeta.
  pose proof (get_isin_list_without_isin fuel args cfg w Hisin) as Hl.
  split; [exact Hl|].
  pose proof (get_isin_list_same_database fuel args cfg w) as Hs.
  unfold main. rewrite bind_unfold.
  destruct (get_isin_list fuel args cfg w) as [[l|e|] w1]; simpl in *; [|done..].
  rewrite (Hl l eq_refl), Hisin. simpl. split; [exact Hs|].
  intros _. by rewrite last_snoc.
Qed.

Lemma main_without_isin_is_inert_witness :
  let t := [DbRow ["secid"; "tradedate"] [VStr "RU000A0JRTT9"; VStr "2024-06-10"]] in
  let out := @main ascii_str (paged_server "securities") keyed_storage 4
               (Args quotas None overwrite 739047 739052) example_config (initial_world t) in
  out.1 = Ok tt
  /\ conn out.2 = NotConnected
  /\ statements out.2 = []
  /\ committed out.2 = t
  /\ last (output out.2) = Some MsgNoIsins.
Proof.
  cbv zeta.
  destruct (@main_without_isin_is_inert ascii_str (paged_server "securities") keyed_storage 4
              (Args quotas None overwrite 739047 739052) example_config
              (initial_world [DbRow ["secid"; "tradedate"]
                                    [VStr "RU000A0JRTT9"; VStr "2024-06-10"]])
              eq_refl) as (_ & (Hconn & Hcm & _ & Hst) & Hlast).
  assert ((@main ascii_str (paged_server "securities") keyed_storage 4
             (Args quotas None overwrite 739047 739052) example_config
             (initial_world [DbRow ["secid"; "tradedate"]
                                   [VStr "RU000A0JRTT9"; VStr "2024-06-10"]])).1 = Ok tt) as Hok.
  { vm_compute. reflexivity. }
  split; [exact Hok|]. split; [exact Hconn|]. split; [exact Hst|].
  split; [exact Hcm | exact (Hlast Hok)].
Defined.

(** X3.  When the server cannot be reached, a run with [--isin] prints the
    connection error and returns normally: no request, no statement, the
    table as it was, and exit status 0. *)
Theorem main_connect_failure {py : PyStr} {net : Network} {st : Storage}
    (fuel : nat) (args : arguments) (cfg : config) (w : world) :
  isin_given args = true ->
  connect_ok = false ->
  main fuel args cfg w
  = (Ok tt, World (requests w) (conn w) (committed w) (working w) (statements w)
                  (output w ++ [MsgConnectError]))
  /\ exit_status (main fuel args cfg w).1 = Some 0.
Proof.
  intros Hisin Hc.
  assert (main fuel args cfg w
          = (Ok tt, World (requests w) (conn w) (committed w) (working w) (statements w)
                          (output w ++ [MsgConnectError]))) as ->; [|done].
  unfold main, get_isin_list. rewrite Hisin.
  unfold bind, ret, get_db_connection. simpl negb. rewrite andb_false_r, Hc. done.
Qed.

Lemma main_connect_failure_witness :
  @main ascii_str three_bonds_server unreachable_storage 0
    (Args bonds (Some "RU000A0JX0J2") update 0 0) example_config (initial_world [])
  = (Ok tt, World [] NotConnected [] [] [] [MsgConnectError]).
Proof.
  exact (proj1 (@main_connect_failure ascii_str three_bonds_server unreachable_storage 0
                  (Args bonds (Some "RU000A0JX0J2") update 0 0) example_config
                  (initial_world []) eq_refl eq_refl)).
Defined.

(** ** What the loops of [main] request and load *)

Section LoopFacts.
Context {py : PyStr} {net : Network} {st : Storage}.

Lemma fetched_pages_app (data_block : string) (k : nat) (l1 l2 : list request) :
  fetched_pages data_block k (l1 ++ l2)
  = fetched_pages data_block k l1 ++ fetched_pages data_block (k + length l1)%nat l2.
Proof.
  revert k. induction l1 as [|r l1 IH]; intros k; simpl.
  - by rewrite Nat.add_0_r.
  - rewrite IH, <- app_assoc. do 3 f_equal. lia.
Qed.

(** A loop that issues one request for each element of [l] and loads the
    page of each answer. *)
Lemma for_each_fetch_load {A} (mk_url : A -> string) (mk_params : A -> gmap string param)
    (data_block table_name : string) (cfg : config) (tk : string) (l : list A) (w : world) :
  clean w ->
  let request_of := fun x => Request (mk_url x) (mk_params x) in
  exists w' : world,
    for_each l (fun x =>
      d <- fetch_moex_data (mk_url x) (mk_params x) ;;
      match page_of d data_block with
      | Some page => insert_data_generic table_name page cfg tk
      | None => ret tt
      end) w = (Ok tt, w')
    /\ clean w'
    /\ requests w' = requests w ++ map request_of l
    /\ committed w'
       = fold_left (page_effect cfg tk)
           (fetched_pages data_block (length (requests w)) (map request_of l)) (committed w)
    /\ conn w' = conn w.
Proof.
  cbv zeta. revert w. induction l as [|x l IH]; intros w Hclean.
  - exists w. simpl. by rewrite app_nil_r.
  - simpl for_each. rewrite bind_unfold, bind_unfold. unfold fetch_moex_data at 1.
    cbv beta iota zeta.
    set (req := Request (mk_url x) (mk_params x)). fold (after_fetch req w).
    set (w1 := after_fetch req w).
    assert (clean w1) as Hclean1 by done.
    simpl map. simpl fetched_pages.
    destruct (page_of (http (length (requests w)) req) data_block) as [page|] eqn:Hp.
    + destruct (insert_data_generic_effect table_name page cfg tk w1 Hclean1)
        as (Hok & Hcl & Hcm & Hrq & Hcn).
      destruct (insert_data_generic table_name page cfg tk w1) as [r w2]. simpl in *.
      subst r. destruct (IH w2 Hcl) as (w' & -> & IH2 & IH3 & IH4 & IH5).
      exists w'. split; [done|]. split; [done|].
      rewrite IH3, IH4, IH5, Hrq, Hcm, Hcn, length_app, Nat.add_1_r, <- app_assoc.
      fold req. by rewrite Hp.
    + unfold ret at 1. cbv beta iota.
      destruct (IH w1 Hclean1) as (w' & -> & IH2 & IH3 & IH4 & IH5).
      exists w'. split; [done|]. split; [done|].
      rewrite IH3, IH4, IH5. simpl. rewrite length_app, Nat.add_1_r, <- app_assoc.
      fold req. by rewrite Hp.
Qed.

(** The date loop around such a loop: every date from [date] on is visited
    in ascending order, and stepping past [date.max] after the last date
    raises. *)
Lemma date_loop_fetch_load {A} (mk_url : Z -> A -> string)
    (mk_params : Z -> A -> gmap string param)
    (data_block table_name : string) (cfg : config) (tk : string) (l : list A)
    (days : nat) (date : Z) (w : world) :
  clean w ->
  ((0 < days)%nat -> date + Z.of_nat days - 1 <= date_max) ->
  let request_of := fun d x => Request (mk_url d x) (mk_params d x) in
  let reqs := flat_map (fun d => map (request_of d) l) (dates_from date days) in
  exists w' : world,
    date_loop days date (fun d =>
      for_each l (fun x =>
        r <- fetch_moex_data (mk_url d x) (mk_params d x) ;;
        match page_of r data_block with
        | Some page => insert_data_generic table_name page cfg tk
        | None => ret tt
        end)) w
    = (if (0 <? Z.of_nat days) && (date + Z.of_nat days - 1 =? date_max)
       then Raise OverflowError else Ok tt, w')
    /\ clean w'
    /\ requests w' = requests w ++ reqs
    /\ committed w'
       = fold_left (page_effect cfg tk)
           (fetched_pages data_block (length (requests w)) reqs) (committed w)
    /\ conn w' = conn w.
Proof.
  cbv zeta. revert date w. induction days as [|days IH]; intros date w Hclean Hmax.
  - exists w. simpl. by rewrite app_nil_r.
  - simpl date_loop. rewrite bind_unfold.
    destruct (for_each_fetch_load (mk_url date) (mk_params date) data_block table_name
                cfg tk l w Hclean) as (w1 & -> & Hcl & Hrq & Hcm & Hcn).
    simpl dates_from. simpl flat_map.
    rewrite fetched_pages_app, fold_left_app, <- Hcm, length_map.
    destruct (date_max <? date + 1) eqn:Hlast.
    + apply Z.ltb_lt in Hlast.
      assert (days = 0%nat) as -> by lia.
      exists w1. simpl. rewrite app_nil_r.
      replace (date + Z.of_nat 1 - 1 =? date_max) with true
        by (symmetry; apply Z.eqb_eq; lia).
      done.
    + apply Z.ltb_ge in Hlast.
      destruct (IH (date + 1) w1 Hcl) as (w' & -> & IH2 & IH3 & IH4 & IH5); [lia|].
      exists w'. split; [|split; [done|]].
      * f_equal.
        replace (date + 1 + Z.of_nat days - 1) with (date + Z.of_nat (S days) - 1) by lia.
        destruct days as [|days]; [|done].
        replace (date + Z.of_nat 1 - 1 =? date_max) with false; [done|].
        symmetry. apply Z.eqb_neq. lia.
      * rewrite IH3, IH4, IH5, Hrq, Hcn, length_app, length_map, app_assoc. done.
Qed.
End LoopFacts.

(** X4.  The bonds table with [--isin]: one request for each ISIN, in the
    order of the list, to the URL of that ISIN, and the page under
    ["description"] of each answer is loaded in that order, so the run does
    to the table what [load_pages] does with the pages fetched; a request
    that fails or brings no page is passed over, and the branch returns
    normally whatever the server and the storage do. *)
Theorem process_bonds_loads_each_isin {py : PyStr} {net : Network} {st : Storage}
    (fuel : nat) (args : arguments) (cfg : config) (isin_list : list string)
    (base_url table_name : string) (w : world) :
  isin_given args = true ->
  clean w ->
  let request_of := fun isin =>
    Request (base_url +:+ "/engines/stock/markets/bonds/securities/" +:+ isin +:+ ".json") ∅ in
  let pages := fetched_pages "description" (length (requests w)) (map request_of isin_list) in
  let tk := table_key_name (args_table args) in
  let out := process_bonds fuel args cfg isin_list base_url table_name w in
  out.1 = Ok tt
  /\ requests out.2 = requests w ++ map request_of isin_list
  /\ committed out.2 = fold_left (page_effect cfg tk) pages (committed w)
  /\ committed out.2 = committed (load_pages table_name cfg tk pages w).2
  /\ clean out.2.
Proof.
  intros Hisin Hclean. cbv zeta.
  pose proof (for_each_fetch_load
                (fun isin => base_url +:+ "/engines/stock/markets/bonds/securities/"
                             +:+ isin +:+ ".json")
                (fun _ => ∅) "description" table_name cfg
                (table_key_name (args_table args)) isin_list w Hclean) as H.
  cbv zeta beta in H. destruct H as (w' & Hrun & Hcl & Hrq & Hcm & _).
  assert (process_bonds fuel args cfg isin_list base_url table_name w = (Ok tt, w')) as ->.
  { unfold process_bonds. rewrite Hisin. exact Hrun. }
  simpl. split; [done|]. split; [done|]. split; [done|]. split; [|done].
  rewrite Hcm. symmetry. by apply load_pages_effect.
Qed.

Lemma process_bonds_loads_each_isin_witness :
  let out := @process_bonds ascii_str three_bonds_server keyed_storage 0
               (Args bonds (Some "RU000A0JX0J2,RU000A0JXFM1,RU000A0JS3W6") update 0 0)
               example_config ["RU000A0JX0J2"; "RU000A0JXFM1"; "RU000A0JS3W6"]
               "https://iss.moex.com/iss" "bonds" (initial_world []) in
  out.1 = Ok tt
  /\ map url (requests out.2)
     = ["https://iss.moex.com/iss/engines/stock/markets/bonds/securities/RU000A0JX0J2.json";
        "https://iss.moex.com/iss/engines/stock/markets/bonds/securities/RU000A0JXFM1.json";
        "https://iss.moex.com/iss/engines/stock/markets/bonds/securities/RU000A0JS3W6.json"]
  /\ committed out.2
     = [DbRow ["secid"; "shortname"] [VStr "RU000A0JX0J2"; VStr "OFZ 26207"];
        DbRow ["secid"; "shortname"] [VStr "RU000A0JS3W6"; VStr "OFZ 26209"]].
Proof.
  cbv zeta.
  destruct (@process_bonds_loads_each_isin ascii_str three_bonds_server keyed_storage 0
              (Args bonds (Some "RU000A0JX0J2,RU000A0JXFM1,RU000A0JS3W6") update 0 0)
              example_config ["RU000A0JX0J2"; "RU000A0JXFM1"; "RU000A0JS3W6"]
              "https://iss.moex.com/iss" "bonds" (initial_world []) eq_refl eq_refl)
    as (Hok & Hrq & Hcm & _).
  split; [exact Hok|]. split.
  - rewrite Hrq. vm_compute. reflexivity.
  - rewrite Hcm. vm_compute. reflexivity.
Defined.

(** X5.  The quotas table with [--isin], for dates that are dates
    ([end_date <= date.max]): every date from [start_date] to [end_date] is
    visited in ascending order, each with one request for each ISIN with
    [from] and [till] set to that date; the pages under ["history"] are
    loaded in the order fetched; nothing is requested when the range is
    empty.  The branch returns normally unless [end_date] is [date.max]:
    then all dates are still processed and stepping past the last one raises
    [OverflowError]. *)
Theorem process_quotas_visits_each_date {py : PyStr} {net : Network} {st : Storage}
    (fuel : nat) (args : arguments) (cfg : config) (isin_list : list string)
    (base_url table_name : string) (default_limit : Z) (w : world) :
  isin_given args = true ->
  clean w ->
  end_date args <= date_max ->
  let days := Z.to_nat (end_date args - start_date args + 1) in
  let request_of := fun date isin =>
    Request (base_url +:+ "/history/engines/stock/markets/bonds/securities/"
             +:+ isin +:+ ".json")
            (<["till" := PDate date]> {["from" := PDate date]}) in
  let reqs := flat_map (fun date => map (request_of date) isin_list)
                       (dates_from (start_date args) days) in
  let tk := table_key_name (args_table args) in
  let out := process_quotas fuel args cfg isin_list base_url table_name default_limit w in
  out.1 = (if (start_date args <=? end_date args) && (end_date args =? date_max)
           then Raise OverflowError else Ok tt)
  /\ requests out.2 = requests w ++ reqs
  /\ committed out.2
     = fold_left (page_effect cfg tk) (fetched_pages "history" (length (requests w)) reqs)
                 (committed w)
  /\ clean out.2.
Proof.
  intros Hisin Hclean Hmax. cbv zeta.
  pose proof (date_loop_fetch_load
                (fun (_ : Z) isin => base_url +:+ "/history/engines/stock/markets/bonds/securities/"
                                     +:+ isin +:+ ".json")
                (fun date (_ : string) => <["till" := PDate date]> {["from" := PDate date]})
                "history" table_name cfg (table_key_name (args_table args)) isin_list
                (Z.to_nat (end_date args - start_date args + 1)) (start_date args) w Hclean)
    as H.
  cbv zeta beta in H. destruct H as (w' & Hrun & Hcl & Hrq & Hcm & _); [lia|].
  assert (process_quotas fuel args cfg isin_list base_url table_name default_limit w
          = (if (start_date args <=? end_date args) && (end_date args =? date_max)
             then Raise OverflowError else Ok tt, w')) as ->.
  { unfold process_quotas. rewrite Hisin.
    etrans; [exact Hrun|]. f_equal.
    destruct (start_date args <=? end_date args) eqn:Hle.
    - apply Z.leb_le in Hle. rewrite Z2Nat.id by lia.
      replace (0 <? end_date args - start_date args + 1) with true
        by (symmetry; apply Z.ltb_lt; lia).
      replace (start_date args + (end_date args - start_date args + 1) - 1)
        with (end_date args) by lia.
      done.
    - apply Z.leb_gt in Hle.
      replace (Z.to_nat (end_date args - start_date args + 1)) with 0%nat by lia.
      done. }
  simpl. done.
Qed.

Lemma process_quotas_visits_each_date_witness :
  let out := @process_quotas ascii_str silent_server keyed_storage 0
               (Args quotas (Some "RU000A0JX0J2,RU000A0JXFM1") update 739051 739052)
               example_config ["RU000A0JX0J2"; "RU000A0JXFM1"]
               "https://iss.moex.com/iss" "quotas" 100 (initial_world []) in
  out.1 = Ok tt
  /\ map (fun req => (url req, params req !! "from")) (requests out.2)
     = [("https://iss.moex.com/iss/history/engines/stock/markets/bonds/securities/RU000A0JX0J2.json",
         Some (PDate 739051));
        ("https://iss.moex.com/iss/history/engines/stock/markets/bonds/securities/RU000A0JXFM1.json",
         Some (PDate 739051));
        ("https://iss.moex.com/iss/history/engines/stock/markets/bonds/securities/RU000A0JX0J2.json",
         Some (PDate 739052));
        ("https://iss.moex.com/iss/history/engines/stock/markets/bonds/securities/RU000A0JXFM1.json",
         Some (PDate 739052))].
Proof.
  cbv zeta.
  destruct (@process_quotas_visits_each_date ascii_str silent_server keyed_storage 0
              (Args quotas (Some "RU000A0JX0J2,RU000A0JXFM1") update 739051 739052)
              example_config ["RU000A0JX0J2"; "RU000A0JXFM1"]
              "https://iss.moex.com/iss" "quotas" 100 (initial_world [])
              eq_refl eq_refl) as (Hok & Hrq & _).
  { unfold date_max. simpl. lia. }
  split; [exact Hok|]. rewrite Hrq. vm_compute. reflexivity.
Defined.

(** ** What a page loop loads *)

Section PageLoopFacts.
Context {py : PyStr} {net : Network} {st : Storage}.

Lemma after_page_effect (data_block table_name : string) (cfg : config) (tk : table_key)
    (d : option response) (w : world) :
  clean w ->
  let w' := after_page data_block table_name cfg tk d w in
  clean w'
  /\ committed w'
     = fold_left (page_effect cfg (table_key_name tk))
         (match page_of d data_block with Some page => [page] | None => [] end)
         (committed w)
  /\ requests w' = requests w
  /\ conn w' = conn w.
Proof.
  intros Hclean. cbv zeta. unfold after_page.
  destruct (page_of d data_block) as [page|]; [|done].
  destruct (insert_data_generic_effect table_name page cfg (table_key_name tk) w Hclean)
    as (_ & Hcl & Hcm & Hrq & Hcn).
  done.
Qed.

(** The requests of a page loop follow the cursor, and the pages of the
    answers are loaded in the order of the requests. *)
Lemma page_loop_loads (fuel : nat) (url : string) (fixed_params : gmap string param)
    (data_block table_name : string) (cfg : config) (tk : table_key) (start : Z)
    (w : world) :
  clean w ->
  let request_of := fun s => Request url (<["start" := PInt s]> fixed_params) in
  exists (starts : list Z) (r : result unit) (w' : world),
    page_loop fuel url fixed_params data_block table_name cfg tk start w = (r, w')
    /\ follows_cursor (page_loop_next data_block) (fun k s => http k (request_of s))
                      (negb (is_diverge r)) (length (requests w)) start starts
    /\ requests w' = requests w ++ map request_of starts
    /\ committed w'
       = fold_left (page_effect cfg (table_key_name tk))
           (fetched_pages data_block (length (requests w)) (map request_of starts))
           (committed w)
    /\ clean w'
    /\ conn w' = conn w.
Proof.
  cbv zeta. revert start w. induction fuel as [|fuel IH]; intros start w Hclean.
  - exists [], Diverge, w. simpl. by rewrite app_nil_r.
  - rewrite page_loop_step.
    set (req := Request url _). set (d := http _ req).
    assert (clean (after_fetch req w)) as Hclean1 by done.
    destruct (after_page_effect data_block table_name cfg tk d _ Hclean1)
      as (Hcl & Hcm & Hrq & Hcn).
    set (w2 := after_page _ _ _ _ _ _) in *.
    simpl in Hrq, Hcn, Hcm.
    assert (forall r : result unit,
              page_loop_next data_block d start = None ->
              exists (starts : list Z) (r' : result unit) (w' : world),
                (r, w2) = (r', w')
                /\ follows_cursor (page_loop_next data_block)
                     (fun k s => http k (Request url (<["start" := PInt s]> fixed_params)))
                     (negb (is_diverge r')) (length (requests w)) start starts
                /\ requests w' = requests w
                                 ++ map (fun s => Request url (<["start" := PInt s]> fixed_params))
                                        starts
                /\ committed w'
                   = fold_left (page_effect cfg (table_key_name tk))
                       (fetched_pages data_block (length (requests w))
                          (map (fun s => Request url (<["start" := PInt s]> fixed_params))
                               starts))
                       (committed w)
                /\ clean w'
                /\ conn w' = conn w) as Hlast.
    { intros r Hnext. exists [start], r, w2. split; [done|]. split.
      - simpl. split; [done|]. fold req. fold d. by rewrite Hnext.
      - simpl. fold req. fold d. rewrite app_nil_r. done. }
    destruct (page_cursor (data_block +:+ ".cursor") d start) as [[start'|]|e|] eqn:Hc.
    + destruct (IH start' w2 Hcl) as (starts & r & w' & -> & Hf & IH3 & IH4 & IH5 & IH6).
      exists (start :: starts), r, w'. split; [done|]. split; [|split; [|split]].
      * simpl. split; [done|]. unfold page_loop_next at 1. fold req. fold d.
        rewrite Hc. rewrite Hrq, length_app, Nat.add_1_r in Hf. exact Hf.
      * rewrite IH3, Hrq, <- app_assoc. done.
      * rewrite IH4, Hrq, Hcm, length_app, Nat.add_1_r. simpl. fold req. fold d.
        by rewrite fold_left_app.
      * split; [done|]. by rewrite IH6.
    + apply Hlast. unfold page_loop_next. by rewrite Hc.
    + apply Hlast. unfold page_loop_next. by rewrite Hc.
    + apply Hlast. unfold page_loop_next. by rewrite Hc.
Qed.

End PageLoopFacts.





(** X8.  A request that fails (a timeout, a network failure, an error
    status) or that is answered with an empty body ends a page loop there:
    a page loop of [main] returns normally, and [get_all_securities] returns
    the rows it has; nothing is loaded, no statement is issued, and nothing
    tells the caller that the data is incomplete. *)
Theorem failed_fetch_ends_the_loop {py : PyStr} {net : Network} {st : Storage}
    (fuel : nat) (url : string) (fixed_params : gmap string param)
    (data_block table_name : string) (cfg : config) (tk : table_key)
    (limit start : Z) (securities : list row) (w : world) :
  let page_request := Request url (<["start" := PInt start]> fixed_params) in
  let securities_request :=
    Request url (<["limit" := PInt limit]> {["start" := PInt start]}) in
  (truthy_response (http (length (requests w)) page_request) = false ->
   page_loop (S fuel) url fixed_params data_block table_name cfg tk start w
   = (Ok tt, after_fetch page_request w))
  /\ (truthy_response (http (length (requests w)) securities_request) = false ->
      get_all_securities_loop (S fuel) url limit start securities w
      = (Ok securities, after_fetch securities_request w)).
Proof.
  cbv zeta. split; intros Hd.
  - rewrite page_loop_step. unfold after_page, page_of, page_cursor.
    destruct (http _ _) as [m|]; [|done]. by rewrite Hd.
  - rewrite get_all_securities_loop_step. unfold page_of.
    destruct (http _ _) as [m|]; [|done]. by rewrite Hd.
Qed.

Lemma failed_fetch_ends_the_loop_witness :
  @page_loop ascii_str silent_server keyed_storage 5
    "https://iss.moex.com/iss/statistics/engines/stock/markets/bonds/bondization.json"
    {["limit" := PInt 100]} "offers" "offers" example_config offers 0 (initial_world [])
  = (Ok tt,
     after_fetch (Request "https://iss.moex.com/iss/statistics/engines/stock/markets/bonds/bondization.json"
                          (<["start" := PInt 0]> {["limit" := PInt 100]}))
                 (initial_world [])).
Proof.
  exact (proj1 (@failed_fetch_ends_the_loop ascii_str silent_server keyed_storage 4
                  "https://iss.moex.com/iss/statistics/engines/stock/markets/bonds/bondization.json"
                  {["limit" := PInt 100]} "offers" "offers" example_config offers 100 0 []
                  (initial_world [])) eq_refl).
Defined.

(** ** The report of a page and the overwrite mode *)

Lemma store_rows_length {st : Storage} (t rs : list db_row) :
  (length t <= length (store_rows t rs) <= length t + length rs)%nat.
Proof.
  revert t. induction rs as [|r rs IH]; intros t; simpl; [lia|].
  specialize (IH (store_row t r)). unfold store_row in *.
  destruct (key_taken r t); [lia|]. rewrite length_app in IH. simpl in IH. lia.
Qed.

(** X9.  The report of a page that is committed: the line printed gives the
    number of rows of the page as attempted, and as affected the number of
    rows by which the committed table has grown, which is at most the number
    attempted (rows whose unique key was taken count 0). *)
Theorem insert_data_generic_reports_growth {st : Storage} {py : PyStr}
    (table_name : string) (page : block) (cfg : config) (tk : string) (w : world) :
  clean w ->
  loadable cfg tk page = true ->
  accepted (page_db_rows cfg tk page) = true ->
  let out := insert_data_generic table_name page cfg tk w in
  let attempted := length (default [] (data page)) in
  exists affected : nat,
    output out.2 = output w ++ [MsgInserted (qualified cfg table_name) attempted affected]
    /\ length (committed out.2) = (length (committed w) + affected)%nat
    /\ (affected <= attempted)%nat.
Proof.
  intros Hclean Hl Ha. cbv zeta.
  rewrite insert_data_generic_committed by done. simpl.
  pose proof (store_rows_length (working w) (page_db_rows cfg tk page)) as Hlen.
  eexists. split; [reflexivity|]. rewrite <- Hclean.
  unfold page_db_rows in Hlen at 3. rewrite length_map in Hlen. lia.
Qed.

Lemma insert_data_generic_reports_growth_witness :
  let t := [DbRow ["secid"; "shortname"] [VStr "RU000A0JX0J2"; VStr "OFZ 26207"]] in
  let out := @insert_data_generic keyed_storage ascii_str "bonds"
               (bond_page "RU000A0JX0J2" (VStr "OFZ 26207")) example_config "bonds"
               (initial_world t) in
  exists affected : nat,
    output out.2 = [] ++ [MsgInserted "public.bonds" 1 affected]
    /\ length (committed out.2) = (1 + affected)%nat
    /\ (affected <= 1)%nat.
Proof.
  exact (@insert_data_generic_reports_growth keyed_storage ascii_str "bonds"
           (bond_page "RU000A0JX0J2" (VStr "OFZ 26207")) example_config "bonds"
           (initial_world [DbRow ["secid"; "shortname"]
                                 [VStr "RU000A0JX0J2"; VStr "OFZ 26207"]])
           eq_refl eq_refl eq_refl).
Defined.

(** X10.  In overwrite mode the [try] block of [main] is [clear_table]
    followed by what update mode does: TRUNCATE is issued first and
    committed, and the load then starts from the empty table.  When the
    server refuses the TRUNCATE, [clear_table] only reports it and rolls
    back, and the load goes on into the table as it was; in both cases the
    table left by [clear_table] is only extended by the rest of the run. *)
Theorem main_body_overwrite_is_clear_then_update
    {py : PyStr} {net : Network} {st : Storage}
    (fuel : nat) (args : arguments) (cfg : config) (isin_list : list string)
    (base_url table_name : string) (default_limit : Z) (w : world) :
  args_mode args = overwrite ->
  let table := qualified cfg table_name in
  let t := if truncate_denied then committed w else [] in
  let w1 := World (requests w) (conn w) t t
                  (statements w ++ [Truncate table;
                                    if truncate_denied then Rollback else Commit])
                  (output w ++ [if truncate_denied then MsgClearError table
                                else MsgCleared table]) in
  let args_update := Args (args_table args) (args_isin args) update
                          (start_date args) (end_date args) in
  let out := main_body fuel args cfg isin_list base_url table_name default_limit w in
  clear_table table_name cfg w = (Ok tt, w1)
  /\ out = main_body fuel args_update cfg isin_list base_url table_name default_limit w1
  /\ t `prefix_of` committed out.2.
Proof.
  intros Hmode. cbv zeta.
  assert (clear_table table_name cfg w
          = (Ok tt,
             World (requests w) (conn w)
                   (if truncate_denied then committed w else [])
                   (if truncate_denied then committed w else [])
                   (statements w ++ [Truncate (qualified cfg table_name);
                                     if truncate_denied then Rollback else Commit])
                   (output w ++ [if truncate_denied
                                 then MsgClearError (qualified cfg table_name)
                                 else MsgCleared (qualified cfg table_name)]))) as Hclear.
  { unfold clear_table, try_except, execute_truncate, bind, log_stmt, raise, set_working,
      commit, rollback, print.
    simpl. destruct truncate_denied; simpl; by rewrite <- app_assoc. }
  split; [exact Hclear|].
  set (w1 := World _ _ _ _ _ _) in *.
  assert (main_body fuel args cfg isin_list base_url table_name default_limit w
          = main_body fuel (Args (args_table args) (args_isin args) update
                                 (start_date args) (end_date args))
                      cfg isin_list base_url table_name default_limit w1) as ->.
  { unfold main_body. rewrite Hmode. simpl args_mode. cbv iota.
    rewrite bind_unfold, Hclear.
    destruct args as [tbl isin m s e]. simpl. by destruct tbl. }
  split; [done|].
  destruct (main_body_update_extends_table fuel
              (Args (args_table args) (args_isin args) update (start_date args)
                    (end_date args))
              cfg isin_list base_url table_name default_limit eq_refl w1) as [[_ Hext] _].
  destruct Hext as [_ Hpre]; [reflexivity|]. exact Hpre.
Qed.

Lemma main_body_overwrite_is_clear_then_update_witness :
  let t := [DbRow ["secid"; "shortname"] [VStr "RU000A0JRTT9"; VStr "OFZ 26205"]] in
  let out := @main_body ascii_str three_bonds_server read_only_storage 0
               (Args bonds (Some "RU000A0JX0J2") overwrite 0 0) example_config
               ["RU000A0JX0J2"] "https://iss.moex.com/iss" "bonds" 100 (initial_world t) in
  t `prefix_of` committed out.2.
Proof.
  exact (proj2 (proj2 (@main_body_overwrite_is_clear_then_update ascii_str three_bonds_server
                         read_only_storage 0
                         (Args bonds (Some "RU000A0JX0J2") overwrite 0 0) example_config
                         ["RU000A0JX0J2"] "https://iss.moex.com/iss" "bonds" 100
                         (initial_world [DbRow ["secid"; "shortname"]
                                               [VStr "RU000A0JRTT9"; VStr "OFZ 26205"]])
                         eq_refl))).
Defined.

(** ** The date range *)

Lemma dates_from_last (date : Z) (days : nat) :
  last (dates_from date (S days)) = Some (date + Z.of_nat days).
Proof.
  revert date. induction days as [|days IH]; intros date.
  - simpl. f_equal. lia.
  - change (dates_from date (S (S days))) with (date :: dates_from (date + 1) (S days)).
    rewrite last_cons, IH. f_equal. lia.
Qed.

(** X11.  [get_date_range] returns only ranges that are in order: when it
    returns [(start, end)] then [start <= end], [end] is [--date_to] or
    today, and without [--date_from] the start is the day before the end
    (so by default two dates, yesterday and today); the dates that the
    quotas loop of [main] visits for it begin with [start] and end with
    [end].  It never returns otherwise: a text that is no date and a start
    after the end leave with status 1, and the day before [date.min]
    overflows. *)
Theorem get_date_range_ordered {cal : Calendar} (date_from date_to : option string) :
  (forall s e,
     get_date_range date_from date_to = Proceed (s, e) ->
     s <= e
     /\ (if truthy_opt_str date_to then strptime (default EmptyString date_to) = Some e
         else e = today)
     /\ (if truthy_opt_str date_from then strptime (default EmptyString date_from) = Some s
         else s = e - 1)
     /\ head (dates_from s (Z.to_nat (e - s + 1))) = Some s
     /\ last (dates_from s (Z.to_nat (e - s + 1))) = Some e)
  /\ (forall status, get_date_range date_from date_to = Exit status -> status = 1)
  /\ (forall err,
        get_date_range date_from date_to = Crash err ->
        err = OverflowError /\ truthy_opt_str date_from = false).
Proof.
  unfold get_date_range. split; [|split].
  - intros s e H.
    assert (s <= e
            /\ (if truthy_opt_str date_to then strptime (default EmptyString date_to) = Some e
                else e = today)
            /\ (if truthy_opt_str date_from
                then strptime (default EmptyString date_from) = Some s
                else s = e - 1)) as (Hle & Hto & Hfrom).
    { destruct (truthy_opt_str date_to);
        [destruct (strptime (default EmptyString date_to)) as [d|]; [|done]|];
        (destruct (truthy_opt_str date_from);
         [destruct (strptime (default EmptyString date_from)) as [d'|]; [|done]
         |destruct (_ <? date_min); [done|]]);
        match type of H with
        | context [?a >? ?b] => destruct (Z.gtb_spec a b); [done|]
        end;
        injection H as <- <-; repeat split; try done; lia. }
    split; [done|]. split; [done|]. split; [done|].
    replace (Z.to_nat (e - s + 1)) with (S (Z.to_nat (e - s))) by lia.
    split; [done|]. rewrite dates_from_last. f_equal. lia.
  - intros status H.
    destruct (truthy_opt_str date_to);
      [destruct (strptime (default EmptyString date_to)) as [d|]; [|by injection H]|];
      (destruct (truthy_opt_str date_from);
       [destruct (strptime (default EmptyString date_from)) as [d'|]; [|by injection H]
       |destruct (_ <? date_min); [done|]]);
      match type of H with
      | context [?a >? ?b] => destruct (a >? b); [by injection H | done]
      end.
  - intros err H.
    destruct (truthy_opt_str date_to);
      [destruct (strptime (default EmptyString date_to)) as [d|]; [|done]|];
      (destruct (truthy_opt_str date_from);
       [destruct (strptime (default EmptyString date_from)) as [d'|]; [|done]
       |destruct (_ <? date_min); [by injection H as <-|]]);
      match type of H with
      | context [?a >? ?b] => destruct (a >? b); done
      end.
Qed.

Lemma get_date_range_ordered_witness :
  @get_date_range example_calendar None None = Proceed (739051, 739052)
  /\ dates_from 739051 (Z.to_nat (739052 - 739051 + 1)) = [739051; 739052]
  /\ 739051 <= 739052.
Proof.
  split; [reflexivity|]. split; [reflexivity|].
  exact (proj1 (proj1 (@get_date_range_ordered example_calendar None None)
                      739051 739052 eq_refl)).
Defined.

(** ** Closing the connection of the collector *)

(** [main] with [--isin], as far as the [try] block. *)
Lemma main_enters_the_try_block {py : PyStr} {net : Network} {st : Storage}
    (fuel : nat) (args : arguments) (cfg : config) (w : world)
    (base_url table_name : string) (default_limit : Z) :
  isin_given args = true ->
  connect_ok = true ->
  api_base_url cfg = Some base_url ->
  get_default_limit cfg = Ok default_limit ->
  tables cfg !! table_key_name (args_table args) = Some table_name ->
  main fuel args cfg w
  = try_finally
      (main_body fuel args cfg
         (map (fun isin => upper (strip isin))
              (split (Ascii.ascii_of_nat 44) (default EmptyString (args_isin args))))
         base_url table_name default_limit)
      (close ;; print MsgClosed)
      (World (requests w) Connected (committed w) (committed w) (statements w) (output w)).
Proof.
  intros Hisin Hc Hurl Hlimit Htable.
  unfold main, get_isin_list. rewrite Hisin.
  unfold bind at 1. unfold ret at 1. cbv beta iota.
  simpl negb. rewrite andb_false_r. cbv iota.
  rewrite bind_unfold. unfold get_db_connection. rewrite Hc. cbv beta iota.
  change (negb true) with false. cbv iota.
  rewrite Hurl, Hlimit, Htable. unfold lift, config_get.
  by rewrite !bind_unfold.
Qed.

(** X12.  Once the [try] block of [main] is entered, the connection is
    closed on every path out of it: for a run with [--isin] whose
    connection opens and whose configuration holds the base URL, a page
    size that is a number (or none) and the table name, a run that ends has
    closed the connection, [close] is the last thing it sent and
    "Database connection closed." the last line it printed, also when an
    exception escapes the block (a cursor that does not decode, the date
    after [date.max]), and the exception then still escapes [main]. *)
Theorem main_closes_after_the_try_block {py : PyStr} {net : Network} {st : Storage}
    (fuel : nat) (args : arguments) (cfg : config) (w : world)
    (base_url table_name : string) (default_limit : Z) :
  isin_given args = true ->
  connect_ok = true ->
  api_base_url cfg = Some base_url ->
  get_default_limit cfg = Ok default_limit ->
  tables cfg !! table_key_name (args_table args) = Some table_name ->
  let out := main fuel args cfg w in
  let isin_list :=
    map (fun isin => upper (strip isin))
        (split (Ascii.ascii_of_nat 44) (default EmptyString (args_isin args))) in
  let body := main_body fuel args cfg isin_list base_url table_name default_limit
                (World (requests w) Connected (committed w) (committed w)
                       (statements w) (output w)) in
  out.1 <> Diverge ->
  conn out.2 = Closed
  /\ last (statements out.2) = Some Close
  /\ last (output out.2) = Some MsgClosed
  /\ out.1 = body.1.
Proof.
  intros Hisin Hc Hurl Hlimit Htable. cbv zeta.
  rewrite (main_enters_the_try_block fuel args cfg w base_url table_name default_limit)
    by done.
  unfold try_finally.
  set (isin_list := map _ _). set (w0 := World _ Connected _ _ _ _).
  destruct (main_body fuel args cfg isin_list base_url table_name default_limit w0)
    as [[[]|e|] w1] eqn:Hbody; unfold bind, close, print; simpl; intros Hd; try done.
  - by rewrite !last_snoc.
  - by rewrite !last_snoc.
Qed.

Lemma main_closes_after_the_try_block_witness :
  let out := @main ascii_str three_bonds_server keyed_storage 0
               (Args quotas (Some "RU000A0JX0J2") update 3652059 3652059) example_config
               (initial_world []) in
  out.1 = Raise OverflowError
  /\ conn out.2 = Closed
  /\ last (statements out.2) = Some Close
  /\ last (output out.2) = Some MsgClosed.
Proof.
  cbv zeta.
  assert ((@main ascii_str three_bonds_server keyed_storage 0
             (Args quotas (Some "RU000A0JX0J2") update 3652059 3652059) example_config
             (initial_world [])).1 = Raise OverflowError) as Hout.
  { vm_compute. reflexivity. }
  split; [exact Hout|].
  destruct (@main_closes_after_the_try_block ascii_str three_bonds_server keyed_storage 0
              (Args quotas (Some "RU000A0JX0J2") update 3652059 3652059) example_config
              (initial_world []) "https://iss.moex.com/iss" "quotas" 100
              eq_refl eq_refl eq_refl eq_refl eq_refl) as (H1 & H2 & H3 & _).
  { rewrite Hout. discriminate. }
  split; [exact H1|]. split; [exact H2 | exact H3].
Defined.

(** ** Storage errors and the result of a run *)

Section Agree.
Context {py : PyStr} {net : Network}.

Lemma agree_ret {A} (a : A) : agree (ret a) (ret a).
Proof. by intros w1 w2 H. Qed.

Lemma agree_raise {A} (e : exn) : agree (@raise A e) (raise e).
Proof. by intros w1 w2 H. Qed.

Lemma agree_lift {A} (r : result A) : agree (lift r) (lift r).
Proof. by intros w1 w2 H. Qed.

Lemma agree_print (m : message) : agree (print m) (print m).
Proof. by intros w1 w2 H. Qed.

Lemma agree_fetch url params : agree (fetch_moex_data url params) (fetch_moex_data url params).
Proof. intros w1 w2 H. unfold fetch_moex_data. simpl. by rewrite H. Qed.

Lemma agree_bind {A B} (m1 m2 : M A) (f1 f2 : A -> M B) :
  agree m1 m2 -> (forall a, agree (f1 a) (f2 a)) -> agree (bind m1 f1) (bind m2 f2).
Proof.
  intros Hm Hf w1 w2 H. rewrite !bind_unfold.
  destruct (Hm w1 w2 H) as [Hr Hq].
  destruct (m1 w1) as [r1 w1'], (m2 w2) as [r2 w2']. simpl in *. subst r2.
  destruct r1 as [a|e|]; [by apply Hf|done|done].
Qed.

Lemma agree_for_each {A} (l : list A) (body1 body2 : A -> M unit) :
  (forall x, agree (body1 x) (body2 x)) -> agree (for_each l body1) (for_each l body2).
Proof.
  intros Hbody. induction l as [|x l IH]; simpl; [apply agree_ret|].
  apply agree_bind; [apply Hbody | by intros _].
Qed.

Lemma agree_date_loop (days : nat) (date : Z) (body1 body2 : Z -> M unit) :
  (forall d, agree (body1 d) (body2 d)) ->
  agree (date_loop days date body1) (date_loop days date body2).
Proof.
  intros Hbody. revert date. induction days as [|days IH]; intros date; simpl;
    [apply agree_ret|].
  apply agree_bind; [apply Hbody|]. intros _.
  destruct (date_max <? date + 1); [apply agree_raise | apply IH].
Qed.

Lemma agree_try_finally {A} (body1 body2 : M A) (final1 final2 : M unit) :
  agree body1 body2 -> agree final1 final2 ->
  agree (try_finally body1 final1) (try_finally body2 final2).
Proof.
  intros Hb Hf w1 w2 H. unfold try_finally.
  destruct (Hb w1 w2 H) as [Hr Hq].
  destruct (body1 w1) as [r1 w1'], (body2 w2) as [r2 w2']. simpl in *. subst r2.
  destruct (Hf w1' w2' Hq) as [Hr' Hq'].
  destruct (final1 w1') as [s1 w1''], (final2 w2') as [s2 w2'']. simpl in *. subst s2.
  destruct r1 as [a|e|]; [| |done]; by destruct s1 as [[]|e'|].
Qed.

Lemma agree_get_all_securities_loop (fuel : nat) (securities_url : string)
    (limit start : Z) (securities : list row) :
  agree (get_all_securities_loop fuel securities_url limit start securities)
        (get_all_securities_loop fuel securities_url limit start securities).
Proof.
  revert start securities. induction fuel as [|fuel IH]; intros start securities.
  - by intros w1 w2 H.
  - simpl. apply agree_bind; [apply agree_fetch|]. intros d.
    destruct (page_of d "securities") as [page|]; [|apply agree_ret].
    apply agree_bind; [apply agree_lift|]. intros [start'|]; [apply IH | apply agree_ret].
Qed.

Lemma agree_get_all_securities (fuel : nat) (cfg : config) :
  agree (get_all_securities fuel cfg) (get_all_securities fuel cfg).
Proof.
  unfold get_all_securities.
  apply agree_bind; [apply agree_lift|]. intros base_url.
  apply agree_bind; [apply agree_lift|]. intros limit.
  apply agree_get_all_securities_loop.
Qed.

Lemma agree_get_isin_list (fuel : nat) (args : arguments) (cfg : config) :
  agree (get_isin_list fuel args cfg) (get_isin_list fuel args cfg).
Proof.
  unfold get_isin_list. destruct (isin_given args); [apply agree_ret|].
  apply agree_bind; [apply agree_get_all_securities|]. intros rows.
  destruct (negb (truthy_list rows)).
  - apply agree_bind; [apply agree_print|]. intros _. apply agree_ret.
  - rewrite !str_in_rows_false. apply agree_ret.
Qed.

(** Two storages: what the one rejects, the other may accept. *)
Context (st1 st2 : Storage).

Lemma agree_insert table_name page cfg tk :
  agree (@insert_data_generic st1 py table_name page cfg tk)
        (@insert_data_generic st2 py table_name page cfg tk).
Proof.
  intros w1 w2 H.
  by rewrite !insert_data_generic_returns, !insert_data_generic_requests.
Qed.

Lemma agree_clear_table table_name cfg :
  agree (@clear_table st1 table_name cfg) (@clear_table st2 table_name cfg).
Proof.
  intros w1 w2 H.
  unfold clear_table, try_except, execute_truncate, bind, log_stmt, raise, set_working,
    commit, rollback, print.
  simpl. by destruct (@truncate_denied st1), (@truncate_denied st2).
Qed.

Lemma agree_close : agree (@close) (@close).
Proof. by intros w1 w2 H. Qed.

Lemma agree_fetch_and_load (url : string) (params : gmap string param)
    (data_block table_name : string) (cfg : config) (tk : string) :
  agree (bind (fetch_moex_data url params) (fun d =>
           match page_of d data_block with
           | Some page => @insert_data_generic st1 py table_name page cfg tk
           | None => ret tt
           end))
        (bind (fetch_moex_data url params) (fun d =>
           match page_of d data_block with
           | Some page => @insert_data_generic st2 py table_name page cfg tk
           | None => ret tt
           end)).
Proof.
  apply agree_bind; [apply agree_fetch|]. intros d.
  destruct (page_of d data_block); [apply agree_insert | apply agree_ret].
Qed.

Lemma agree_page_loop (fuel : nat) (url : string) (fixed_params : gmap string param)
    (data_block table_name : string) (cfg : config) (tk : table_key) (start : Z) :
  agree (@page_loop py net st1 fuel url fixed_params data_block table_name cfg tk start)
        (@page_loop py net st2 fuel url fixed_params data_block table_name cfg tk start).
Proof.
  revert start. induction fuel as [|fuel IH]; intros start.
  - by intros w1 w2 H.
  - simpl. apply agree_bind; [apply agree_fetch|]. intros d.
    apply agree_bind.
    { destruct (page_of d data_block); [apply agree_insert | apply agree_ret]. }
    intros _. apply agree_bind; [apply agree_lift|]. intros has_more.
    destruct (negb (truthy_response d)); [apply agree_ret|].
    destruct has_more as [start'|]; [apply IH | apply agree_ret].
Qed.

Lemma agree_main_body (fuel : nat) (args : arguments) (cfg : config)
    (isin_list : list string) (base_url table_name : string) (default_limit : Z) :
  agree (@main_body py net st1 fuel args cfg isin_list base_url table_name default_limit)
        (@main_body py net st2 fuel args cfg isin_list base_url table_name default_limit).
Proof.
  unfold main_body.
  assert (agree (match args_table args with
                 | bonds => @process_bonds py net st1 fuel args cfg isin_list base_url
                              table_name
                 | quotas => @process_quotas py net st1 fuel args cfg isin_list base_url
                               table_name default_limit
                 | coupons | amortizations | offers =>
                     @process_bondization py net st1 fuel args cfg isin_list base_url
                       table_name default_limit
                 end)
                (match args_table args with
                 | bonds => @process_bonds py net st2 fuel args cfg isin_list base_url
                              table_name
                 | quotas => @process_quotas py net st2 fuel args cfg isin_list base_url
                               table_name default_limit
                 | coupons | amortizations | offers =>
                     @process_bondization py net st2 fuel args cfg isin_list base_url
                       table_name default_limit
                 end)) as Htable.
  { assert (agree (@process_bondization py net st1 fuel args cfg isin_list base_url
                     table_name default_limit)
                  (@process_bondization py net st2 fuel args cfg isin_list base_url
                     table_name default_limit)) as Hb.
    { unfold process_bondization. destruct (isin_given args).
      - apply agree_for_each. intros isin. apply agree_page_loop.
      - apply agree_page_loop. }
    destruct (args_table args); try exact Hb.
    - unfold process_bonds. destruct (isin_given args).
      + apply agree_for_each. intros isin. apply agree_fetch_and_load.
      + apply agree_bind; [apply agree_get_all_securities|]. intros rows.
        rewrite !str_in_rows_false. destruct (truthy_list rows); apply agree_ret.
    - unfold process_quotas. apply agree_date_loop. intros date.
      destruct (isin_given args).
      + apply agree_for_each. intros isin. apply agree_fetch_and_load.
      + apply agree_page_loop. }
  destruct (args_mode args).
  - apply agree_clear_table.
  - apply agree_bind; [apply agree_ret | by intros _].
  - apply agree_bind; [apply agree_clear_table | by intros _].
Qed.

(** The result of a run does not depend on what the storage rejects. *)
Lemma agree_main (fuel : nat) (args : arguments) (cfg : config) :
  @connect_ok st1 = @connect_ok st2 ->
  agree (@main py net st1 fuel args cfg) (@main py net st2 fuel args cfg).
Proof.
  intros Hc. unfold main.
  apply agree_bind; [apply agree_get_isin_list|]. intros isin_list.
  destruct (_ && _); [apply agree_print|].
  apply agree_bind.
  { intros w1 w2 H. unfold get_db_connection. rewrite Hc. by destruct (@connect_ok st2). }
  intros connected. destruct (negb connected); [apply agree_ret|].
  apply agree_bind; [apply agree_lift|]. intros base_url.
  apply agree_bind; [apply agree_lift|]. intros default_limit.
  apply agree_bind; [apply agree_lift|]. intros table_name.
  apply agree_try_finally; [apply agree_main_body|].
  apply agree_bind; [apply agree_close|]. intros _. apply agree_print.
Qed.
End Agree.

Section Loads.
Context {py : PyStr} {net : Network} {st : Storage}.
Context (data_block : string) (cfg : config) (tk : string).

Lemma loaded_refl (w : world) : clean w -> loaded data_block cfg tk w w.
Proof. intros Hclean. split; [done|]. exists []. by rewrite app_nil_r. Qed.

Lemma loaded_trans (w1 w2 w3 : world) :
  loaded data_block cfg tk w1 w2 -> loaded data_block cfg tk w2 w3 ->
  loaded data_block cfg tk w1 w3.
Proof.
  intros (_ & l1 & Hr1 & Hc1) (Hcl & l2 & Hr2 & Hc2). split; [done|].
  exists (l1 ++ l2). rewrite Hr2, Hr1, <- app_assoc. split; [done|].
  rewrite Hc2, Hc1, Hr1, length_app, fetched_pages_app, fold_left_app. done.
Qed.

(** A step that leaves the requests and the table as they are. *)
Lemma loaded_same (w w' : world) :
  clean w' -> requests w' = requests w -> committed w' = committed w ->
  loaded data_block cfg tk w w'.
Proof.
  intros Hclean Hr Hc. split; [done|]. exists []. by rewrite app_nil_r.
Qed.

Lemma loads_ret {A} (a : A) : loads data_block cfg tk (ret a).
Proof. intros w Hclean. by apply loaded_refl. Qed.

Lemma loads_raise {A} (e : exn) : loads data_block cfg tk (@raise A e).
Proof. intros w Hclean. by apply loaded_refl. Qed.

Lemma loads_lift {A} (r : result A) : loads data_block cfg tk (lift r).
Proof. intros w Hclean. by apply loaded_refl. Qed.

Lemma loads_print (m : message) : loads data_block cfg tk (print m).
Proof. intros w Hclean. by apply loaded_same. Qed.

Lemma loads_close : loads data_block cfg tk close.
Proof. intros w Hclean. by apply loaded_same. Qed.

Lemma loads_bind {A B} (m : M A) (f : A -> M B) :
  loads data_block cfg tk m -> (forall a, loads data_block cfg tk (f a)) ->
  loads data_block cfg tk (bind m f).
Proof.
  intros Hm Hf w Hclean. rewrite bind_unfold. specialize (Hm w Hclean).
  destruct (m w) as [[a|e|] w1]; simpl in *; [|done|done].
  eapply loaded_trans; [exact Hm|]. apply Hf. by destruct Hm.
Qed.

Lemma loads_for_each {A} (l : list A) (body : A -> M unit) :
  (forall x, loads data_block cfg tk (body x)) -> loads data_block cfg tk (for_each l body).
Proof.
  intros Hbody. induction l as [|x l IH]; simpl; [apply loads_ret|].
  apply loads_bind; [apply Hbody | by intros _].
Qed.

Lemma loads_date_loop (days : nat) (date : Z) (body : Z -> M unit) :
  (forall d, loads data_block cfg tk (body d)) ->
  loads data_block cfg tk (date_loop days date body).
Proof.
  intros Hbody. revert date. induction days as [|days IH]; intros date; simpl;
    [apply loads_ret|].
  apply loads_bind; [apply Hbody|]. intros _.
  destruct (date_max <? date + 1); [apply loads_raise | apply IH].
Qed.

Lemma loads_try_finally {A} (body : M A) (final : M unit) :
  loads data_block cfg tk body -> loads data_block cfg tk final ->
  loads data_block cfg tk (try_finally body final).
Proof.
  intros Hb Hf w Hclean. unfold try_finally. specialize (Hb w Hclean).
  destruct (body w) as [r w1]. simpl in Hb.
  assert (loaded data_block cfg tk w (final w1).2) as Hall.
  { eapply loaded_trans; [exact Hb|]. apply Hf. by destruct Hb. }
  destruct r as [a|e|]; [| |done]; by destruct (final w1) as [[[]|e'|] w2].
Qed.

Lemma loads_fetch_and_load (url : string) (params : gmap string param)
    (table_name : string) :
  loads data_block cfg tk
    (bind (fetch_moex_data url params) (fun d =>
       match page_of d data_block with
       | Some page => insert_data_generic table_name page cfg tk
       | None => ret tt
       end)).
Proof.
  intros w Hclean.
  destruct (for_each_fetch_load (fun _ : unit => url) (fun _ => params) data_block
              table_name cfg tk [tt] w Hclean) as (w' & Hrun & Hcl & Hrq & Hcm & _).
  simpl for_each in Hrun. rewrite bind_unfold in Hrun.
  destruct (bind (fetch_moex_data url params) _ w) as [[[]|e|] w1]; try done.
  injection Hrun as ->. split; [done|]. by eexists.
Qed.
End Loads.

Section LoadsMain.
Context {py : PyStr} {net : Network} {st : Storage}.

Lemma loads_page_loop (fuel : nat) (url : string) (fixed_params : gmap string param)
    (data_block table_name : string) (cfg : config) (tk : table_key) (start : Z) :
  loads data_block cfg (table_key_name tk)
    (page_loop fuel url fixed_params data_block table_name cfg tk start).
Proof.
  intros w Hclean.
  destruct (page_loop_loads fuel url fixed_params data_block table_name cfg tk start w Hclean)
    as (starts & r & w' & -> & _ & Hrq & Hcm & Hcl & _).
  split; [done|]. by eexists.
Qed.

(** The branch of [main] for a table, in a run with [--isin]. *)
Lemma loads_process_table (fuel : nat) (args : arguments) (cfg : config)
    (isin_list : list string) (base_url table_name : string) (default_limit : Z) :
  isin_given args = true ->
  loads (data_block_of (args_table args)) cfg (table_key_name (args_table args))
    (match args_table args with
     | bonds => process_bonds fuel args cfg isin_list base_url table_name
     | quotas => process_quotas fuel args cfg isin_list base_url table_name default_limit
     | coupons | amortizations | offers =>
         process_bondization fuel args cfg isin_list base_url table_name default_limit
     end).
Proof.
  intros Hisin.
  assert (forall t, args_table args = t -> data_block_of t = table_key_name t ->
            loads (data_block_of t) cfg (table_key_name t)
              (process_bondization fuel args cfg isin_list base_url table_name
                                   default_limit)) as Hb.
  { intros t Ht Hblock. unfold process_bondization. rewrite Hisin, Ht, Hblock.
    apply loads_for_each. intros isin. apply loads_page_loop. }
  destruct (args_table args) eqn:Ht; try (by apply Hb).
  - unfold process_bonds. rewrite Hisin, Ht.
    apply loads_for_each. intros isin. apply loads_fetch_and_load.
  - unfold process_quotas. rewrite Hisin, Ht. apply loads_date_loop. intros date.
    apply loads_for_each. intros isin. apply loads_fetch_and_load.
Qed.

(** What a run with [--isin] that does not only clear leaves in the table:
    the table it started to load into, with the pages of the answers to its
    requests loaded one by one. *)
Lemma main_loads_fetched_pages (fuel : nat) (args : arguments) (cfg : config) (w : world) :
  isin_given args = true ->
  args_mode args <> clear ->
  exists (t0 : list db_row) (reqs : list request),
    (t0 = committed w \/ (args_mode args = overwrite /\ t0 = []))
    /\ requests (main fuel args cfg w).2 = requests w ++ reqs
    /\ committed (main fuel args cfg w).2
       = fold_left (page_effect cfg (table_key_name (args_table args)))
           (fetched_pages (data_block_of (args_table args)) (length (requests w)) reqs) t0.
Proof.
  intros Hisin Hmode.
  assert (forall w', requests w' = requests w -> committed w' = committed w ->
            exists (t0 : list db_row) (reqs : list request),
              (t0 = committed w \/ (args_mode args = overwrite /\ t0 = []))
              /\ requests w' = requests w ++ reqs
              /\ committed w'
                 = fold_left (page_effect cfg (table_key_name (args_table args)))
                     (fetched_pages (data_block_of (args_table args))
                        (length (requests w)) reqs) t0) as Hsame.
  { intros w' Hr Hc. exists (committed w), []. rewrite app_nil_r. auto. }
  remember (main fuel args cfg w) as out eqn:Hrun.
  unfold main, get_isin_list in Hrun. rewrite Hisin in Hrun.
  unfold bind at 1 in Hrun. unfold ret at 1 in Hrun. cbv beta iota in Hrun.
  simpl negb in Hrun. rewrite andb_false_r in Hrun. cbv iota in Hrun.
  rewrite bind_unfold in Hrun. unfold get_db_connection in Hrun.
  destruct connect_ok; [|subst out; by apply Hsame].
  cbv beta iota in Hrun. change (negb true) with false in Hrun. cbv iota in Hrun.
  set (w0 := World (requests w) Connected (committed w) (committed w) (statements w)
                   (output w)) in Hrun.
  rewrite bind_unfold in Hrun. unfold lift at 1 in Hrun.
  destruct (config_get (api_base_url cfg)) as [base_url|e|];
    [|subst out; by apply Hsame..].
  rewrite bind_unfold in Hrun. unfold lift at 1 in Hrun.
  destruct (get_default_limit cfg) as [default_limit|e|];
    [|subst out; by apply Hsame..].
  rewrite bind_unfold in Hrun. unfold lift at 1 in Hrun.
  destruct (config_get (tables cfg !! table_key_name (args_table args)))
    as [table_name|e|]; [|subst out; by apply Hsame..].
  set (isin_list := map _ _) in Hrun.
  set (process :=
         match args_table args with
         | bonds => process_bonds fuel args cfg isin_list base_url table_name
         | quotas => process_quotas fuel args cfg isin_list base_url table_name default_limit
         | coupons | amortizations | offers =>
             process_bondization fuel args cfg isin_list base_url table_name default_limit
         end).
  assert (loads (data_block_of (args_table args)) cfg (table_key_name (args_table args))
            (try_finally process (bind close (fun _ => print MsgClosed)))) as Hloads.
  { apply loads_try_finally; [by apply loads_process_table|].
    apply loads_bind; [apply loads_close|]. intros _. apply loads_print. }
  unfold main_body in Hrun. fold process in Hrun.
  destruct (args_mode args) eqn:Hm; [done| |].
  - assert (out = try_finally process (bind close (fun _ => print MsgClosed)) w0) as ->
      by exact Hrun.
    destruct (Hloads w0 eq_refl) as (_ & reqs & Hr & Hc).
    exists (committed w), reqs. split; [by left|]. by split.
  - destruct (main_body_overwrite_is_clear_then_update fuel
                (Args (args_table args) (args_isin args) overwrite (start_date args)
                      (end_date args))
                cfg isin_list base_url table_name default_limit w0 eq_refl)
      as (Hclear & _ & _).
    cbv zeta in Hclear.
    set (w1 := World _ _ _ _ _ _) in Hclear.
    assert (out = try_finally process (bind close (fun _ => print MsgClosed)) w1) as ->.
    { rewrite Hrun. unfold try_finally. by rewrite bind_unfold, Hclear. }
    destruct (Hloads w1 eq_refl) as (_ & reqs & Hr & Hc).
    exists (committed w1), reqs. split; [|by split].
    unfold w1. simpl. destruct truncate_denied; [by left | by right].
Qed.
End LoadsMain.

(** C3 (amended).  A storage error does not reach the exit status.
    (1) The result of [main], and so the status the process exits with, is
    the same against a storage that rejects rows as against any other
    storage that can be connected to as well, for instance one that rejects
    nothing: there is no failure counter, and a run that returns exits with
    status 0.  (2) No storage error escapes [main].  (3) A page whose insert
    attempt fails is reported and rolled back where it fails:
    [insert_data_generic] prints the error, issues ROLLBACK last, leaves
    the committed table as it was and returns normally.  (4) The pages that
    succeeded stay committed: in a run with [--isin] in update or overwrite
    mode the committed table is the table the load started into (the table
    before, or the empty table after the TRUNCATE of overwrite) with the
    pages received loaded one by one in the order of the requests, a failed
    page contributing nothing, and each row of each page that got to the row
    loop and had every row accepted is in the final table, or a row with its
    unique key is. *)
Theorem storage_errors_are_contained {py : PyStr} {net : Network} {st : Storage} :
  (forall (st' : Storage) (fuel : nat) (args : arguments) (cfg : config) (w : world),
     @connect_ok st' = @connect_ok st ->
     (@main py net st fuel args cfg w).1 = (@main py net st' fuel args cfg w).1
     /\ exit_status (@main py net st fuel args cfg w).1
        = exit_status (@main py net st' fuel args cfg w).1
     /\ requests (@main py net st fuel args cfg w).2
        = requests (@main py net st' fuel args cfg w).2)
  /\ (forall (fuel : nat) (args : arguments) (cfg : config) (w : world),
        (main fuel args cfg w).1 <> Raise DatabaseError)
  /\ (forall (table_name : string) (page : block) (cfg : config) (tk : string) (w : world),
        loadable cfg tk page = true ->
        accepted (page_db_rows cfg tk page) = false ->
        let out := insert_data_generic table_name page cfg tk w in
        out.1 = Ok tt
        /\ output out.2 = output w ++ [MsgInsertError (qualified cfg table_name)]
        /\ last (statements out.2) = Some Rollback
        /\ committed out.2 = committed w
        /\ working out.2 = committed w)
  /\ (forall (fuel : nat) (args : arguments) (cfg : config) (w : world),
        isin_given args = true ->
        args_mode args <> clear ->
        let out := main fuel args cfg w in
        let tk := table_key_name (args_table args) in
        exists (t0 : list db_row) (reqs : list request),
          (t0 = committed w \/ (args_mode args = overwrite /\ t0 = []))
          /\ requests out.2 = requests w ++ reqs
          /\ let pages := fetched_pages (data_block_of (args_table args))
                                        (length (requests w)) reqs in
             committed out.2 = fold_left (page_effect cfg tk) pages t0
             /\ Forall (fun page =>
                          loadable cfg tk page && accepted (page_db_rows cfg tk page) = true ->
                          Forall (fun r => r ∈ committed out.2
                                           \/ key_taken r (committed out.2) = true)
                                 (page_db_rows cfg tk page))
                       pages).
Proof.
  split; [|split; [|split]].
  - intros st' fuel args cfg w Hc.
    destruct (@agree_main py net st st' fuel args cfg (eq_sym Hc) w w eq_refl) as [Hr Hq].
    by rewrite Hr.
  - apply main_no_db_error.
  - intros table_name page cfg tk w Hl Ha. cbv zeta.
    destruct (insert_data_generic_rolled_back table_name page cfg tk w Hl Ha) as [k ->].
    simpl. by rewrite app_assoc, last_snoc.
  - intros fuel args cfg w Hisin Hmode. cbv zeta.
    destruct (main_loads_fetched_pages fuel args cfg w Hisin Hmode)
      as (t0 & reqs & Ht0 & Hr & Hc).
    exists t0, reqs. split; [done|]. split; [done|]. split; [done|].
    rewrite Hc. apply pages_effect_present.
Qed.

Lemma storage_errors_are_contained_witness :
  let args := Args bonds (Some "RU000A0JX0J2,RU000A0JXFM1,RU000A0JS3W6") update 0 0 in
  let failing := @main ascii_str three_bonds_server keyed_storage 0 args example_config
                   (initial_world []) in
  let accepting := @main ascii_str three_bonds_server unique_secid_storage 0 args
                     example_config (initial_world []) in
  output failing.2 <> output accepting.2
  /\ failing.1 = accepting.1
  /\ exit_status failing.1 = exit_status accepting.1.
Proof.
  cbv zeta. split; [vm_compute; discriminate|].
  destruct (proj1 (@storage_errors_are_contained ascii_str three_bonds_server keyed_storage)
              unique_secid_storage 0%nat
              (Args bonds (Some "RU000A0JX0J2,RU000A0JXFM1,RU000A0JS3W6") update 0 0)
              example_config (initial_world []) eq_refl) as (Hr & He & _).
  split; [exact Hr | exact He].
Defined.

(** * Properties of the table manager *)

Section ManagerFacts.
Import table_manager.
Context {py : PyStr} {srv : Server}.

Lemma manager_bind_unfold {A B} (m : M A) (f : A -> M B) (w : world) :
  bind m f w = match m w with
               | (Return a, w') => f a w'
               | (Throw e, w') => (Throw e, w')
               end.
Proof. reflexivity. Qed.

Lemma respects_ret {A} (P : event -> Prop) (E : exn -> Prop) (Q : A -> Prop) (a : A) :
  Q a -> respects P E Q (ret a).
Proof. intros Ha w. simpl. split; [done|]. split; [|done]. exists []. by rewrite app_nil_r. Qed.

Lemma respects_throw {A} (P : event -> Prop) (E : exn -> Prop) (Q : A -> Prop) (e : exn) :
  E e -> respects P E Q (throw e).
Proof. intros He w. simpl. split; [done|]. split; [|done]. exists []. by rewrite app_nil_r. Qed.

Lemma respects_print (P : event -> Prop) (E : exn -> Prop) (m : message) :
  respects P E (fun _ => True) (print m).
Proof. intros w. simpl. split; [done|]. split; [|done]. exists []. by rewrite app_nil_r. Qed.

Lemma respects_bind {A B} (P : event -> Prop) (E : exn -> Prop) (Q : A -> Prop)
    (Q' : B -> Prop) (m : M A) (f : A -> M B) :
  respects P E Q m ->
  (forall a, Q a -> respects P E Q' (f a)) ->
  respects P E Q' (bind m f).
Proof.
  intros Hm Hf w. rewrite manager_bind_unfold.
  destruct (Hm w) as (Hc & (l & Hl & HP) & Hr).
  destruct (m w) as [[a|e] w1]; simpl in *.
  - destruct (Hf a Hr w1) as (Hc' & (l' & Hl' & HP') & Hr').
    split; [congruence|]. split; [|done].
    exists (l ++ l'). rewrite Hl', Hl, <- app_assoc. split; [done|]. by apply Forall_app.
  - split; [done|]. split; [|done]. by exists l.
Qed.

Lemma respects_for_each {A} (P : event -> Prop) (E : exn -> Prop) (l : list A)
    (body : A -> M unit) :
  (forall x, respects P E (fun _ => True) (body x)) ->
  respects P E (fun _ => True) (for_each l body).
Proof.
  intros Hbody. induction l as [|x l IH]; simpl.
  - by apply respects_ret.
  - eapply respects_bind; [apply Hbody|]. intros _ _. exact IH.
Qed.

Lemma respects_index (P : event -> Prop) (E : exn -> Prop) (r : row) (i : nat) :
  E IndexError -> respects P E (fun _ => True) (index r i).
Proof.
  intros He. unfold index. destruct (r !! i); [by apply respects_ret | by apply respects_throw].
Qed.

Lemma respects_mono {A} (P P' : event -> Prop) (E E' : exn -> Prop) (Q Q' : A -> Prop)
    (m : M A) :
  respects P E Q m ->
  (forall e, P e -> P' e) -> (forall e, E e -> E' e) -> (forall a, Q a -> Q' a) ->
  respects P' E' Q' m.
Proof.
  intros Hm HP HE HQ w. destruct (Hm w) as (Hc & (l & Hl & Hall) & Hr).
  split; [done|]. split.
  - exists l. split; [done|]. eapply Forall_impl; [exact Hall | exact HP].
  - destruct (m w).1; auto.
Qed.

Lemma respects_try_except {A} (P : event -> Prop) (E E' : exn -> Prop) (Q : A -> Prop)
    (body handler : M A) :
  respects P E Q body ->
  respects P E' Q handler ->
  (forall e, E e -> is_exception e = false -> E' e) ->
  respects P E' Q (try_except body handler).
Proof.
  intros Hb Hh HE w. unfold try_except.
  destruct (Hb w) as (Hc & (l & Hl & HP) & Hr).
  destruct (body w) as [[a|e] w1]; simpl in *.
  - split; [done|]. split; [|done]. by exists l.
  - destruct (is_exception e) eqn:He.
    + destruct (Hh w1) as (Hc' & (l' & Hl' & HP') & Hr').
      split; [congruence|]. split; [|done].
      exists (l ++ l'). rewrite Hl', Hl, <- app_assoc. split; [done|]. by apply Forall_app.
    + split; [done|]. split; [by exists l|]. simpl. by apply HE.
Qed.

(** [execute_query], step by step: a query that is fetched from, and a
    statement without parameters. *)
Lemma respects_execute_query_fetch (P : event -> Prop) (E : exn -> Prop)
    (query : string) (params : option (list string)) :
  P (Execute query params) -> P Rollback ->
  respects P E (fun r => r <> Done) (execute_query query params true).
Proof.
  intros HP HR w. unfold execute_query.
  destruct (answer (events w) query params); simpl.
  - split; [done|]. split; [|done]. eexists. split; [reflexivity|]. by repeat constructor.
  - split; [done|]. split; [|done]. eexists. split; [reflexivity|]. by repeat constructor.
Qed.

Lemma execute_statement_run (query : string) (w : world) :
  let ok := bool_decide (is_Some (answer (events w) query None)) in
  execute_query query None false w
  = (Return (if ok then Done else Failed),
     World (conn w) (events w ++ attempt query ok)
           (output w ++ if ok then [] else [MsgQueryError])).
Proof.
  cbv zeta. unfold execute_query, attempt.
  destruct (answer (events w) query None) as [rows|]; simpl.
  - by rewrite app_nil_r.
  - done.
Qed.

Lemma respects_execute_statement (P : event -> Prop) (E : exn -> Prop) (query : string) :
  P (Execute query None) -> P Commit -> P Rollback ->
  respects P E (fun _ => True) (execute_query query None false).
Proof.
  intros HP HC HR w. rewrite execute_statement_run. simpl.
  split; [done|]. split; [|done]. eexists. split; [reflexivity|].
  unfold attempt. destruct (bool_decide _); by repeat constructor.
Qed.

(** ** Dropping and clearing *)

Lemma drop_table_run (tk : string) (cfg : config) (w : world) :
  let ok := bool_decide (is_Some (answer (events w) (drop_query cfg tk) None)) in
  exists w' : world,
    drop_table tk cfg w = (Return (if ok then Done else Failed), w')
    /\ conn w' = conn w
    /\ events w' = events w ++ attempt (drop_query cfg tk) ok.
Proof.
  cbv zeta. unfold drop_table. fold (drop_query cfg tk).
  rewrite manager_bind_unfold, execute_statement_run.
  destruct (bool_decide _); simpl; eexists; split; reflexivity || (split; reflexivity).
Qed.

Lemma clear_table_run (tk : string) (cfg : config) (w : world) :
  let ok := bool_decide (is_Some (answer (events w) (clear_query cfg tk) None)) in
  exists w' : world,
    clear_table tk cfg w = (Return (if ok then Done else Failed), w')
    /\ conn w' = conn w
    /\ events w' = events w ++ attempt (clear_query cfg tk) ok.
Proof.
  cbv zeta. unfold clear_table. fold (clear_query cfg tk).
  rewrite manager_bind_unfold, execute_statement_run.
  destruct (bool_decide _); simpl; eexists; split; reflexivity || (split; reflexivity).
Qed.

(** The loop of [main] for the actions [drop] and [clear]: every table is
    attempted, whatever became of the tables before it. *)
Lemma process_tables_drop_clear (a : action) (cfg : config) (tables : list string)
    (success : bool) (w : world) :
  a = act_drop \/ a = act_clear ->
  let query_of := match a with act_drop => drop_query cfg | _ => clear_query cfg end in
  exists (outcomes : list bool) (w' : world),
    length outcomes = length tables
    /\ process_tables a cfg tables success w = (Return (success && forallb id outcomes), w')
    /\ conn w' = conn w
    /\ events w'
       = events w ++ concat (zip_with (fun tk ok => attempt (query_of tk) ok) tables outcomes).
Proof.
  intros Ha. cbv zeta. revert success w.
  induction tables as [|tk tables IH]; intros success w.
  - exists [], w. simpl. by rewrite andb_true_r, app_nil_r.
  - simpl process_tables. rewrite manager_bind_unfold.
    destruct Ha as [-> | ->].
    + rewrite manager_bind_unfold.
      destruct (drop_table_run tk cfg w) as (w1 & -> & Hc & He). unfold ret at 1.
      set (ok := bool_decide _) in *.
      destruct (IH (if negb (truthy_result (if ok then Done else Failed)) then false
                    else success) w1) as (outcomes & w' & Hlen & -> & Hc' & He').
      exists (ok :: outcomes), w'. split; [simpl; by rewrite Hlen|]. split.
      * f_equal. f_equal. simpl. by destruct ok, success.
      * split; [congruence|]. rewrite He', He. simpl. by rewrite <- app_assoc.
    + rewrite manager_bind_unfold.
      destruct (clear_table_run tk cfg w) as (w1 & -> & Hc & He). unfold ret at 1.
      set (ok := bool_decide _) in *.
      destruct (IH (if negb (truthy_result (if ok then Done else Failed)) then false
                    else success) w1) as (outcomes & w' & Hlen & -> & Hc' & He').
      exists (ok :: outcomes), w'. split; [simpl; by rewrite Hlen|]. split.
      * f_equal. f_equal. simpl. by destruct ok, success.
      * split; [congruence|]. rewrite He', He. simpl. by rewrite <- app_assoc.
Qed.

(** ** Creating a table *)



(** ** Reading *)

Lemma respects_column_exists (result : query_result) :
  result <> Done ->
  respects reads (fun e => e = IndexError) (fun _ => True) (column_exists result).
Proof.
  intros Hr. unfold column_exists. destruct result as [[|r rows]| |]; [..|done|].
  - by apply respects_ret.
  - eapply respects_bind; [by apply respects_index|]. intros v _. by apply respects_ret.
  - by apply respects_ret.
Qed.

Lemma respects_date_statistics (db_schema table_name : string) (date_columns : list string) :
  respects reads (fun e => e = IndexError) (fun _ => True)
    (date_statistics db_schema table_name date_columns).
Proof.
  induction date_columns as [|date_col rest IH]; simpl.
  - by apply respects_ret.
  - eapply respects_bind; [by apply respects_execute_query_fetch|]. intros r Hr.
    eapply respects_bind; [by apply respects_column_exists|]. intros [] _; [|exact IH].
    eapply respects_bind; [by apply respects_execute_query_fetch|]. intros [rows| |] Hd.
    + eapply respects_bind; [apply respects_print|]. intros _ _.
      eapply respects_bind; [|intros _ _; by apply respects_ret].
      apply respects_for_each. intros row.
      eapply respects_bind; [by apply respects_index|]. intros date _.
      eapply respects_bind; [by apply respects_index|]. intros count _.
      apply respects_print.
    + done.
    + eapply respects_bind; [apply respects_print|]. intros _ _. exact IH.
Qed.

Lemma respects_key_statistics (db_schema table_name : string)
    (key_columns_to_check : list string) :
  respects reads (fun e => e = IndexError) (fun _ => True)
    (key_statistics db_schema table_name key_columns_to_check).
Proof.
  induction key_columns_to_check as [|key_col rest IH]; simpl.
  - by apply respects_ret.
  - eapply respects_bind; [by apply respects_execute_query_fetch|]. intros r Hr.
    eapply respects_bind; [by apply respects_column_exists|]. intros [] _; [|exact IH].
    eapply respects_bind; [by apply respects_execute_query_fetch|].
    intros [[|row rows]| |] Hd.
    + eapply respects_bind; [apply respects_print|]. intros _ _. exact IH.
    + eapply respects_bind; [by apply respects_index|]. intros v _.
      eapply respects_bind; [apply respects_print|]. intros _ _. by apply respects_ret.
    + done.
    + eapply respects_bind; [apply respects_print|]. intros _ _. exact IH.
Qed.

Lemma respects_gather_statistics (tk : string) (cfg : config) :
  respects reads (fun e => e = IndexError) (fun _ => True) (gather_statistics tk cfg).
Proof.
  unfold gather_statistics.
  eapply respects_bind; [by apply respects_execute_query_fetch|]. intros r Hr.
  eapply respects_bind.
  { destruct r as [[|row rows]| |]; [apply respects_print| |done|apply respects_print].
    eapply respects_bind; [by apply respects_index|]. intros v _. apply respects_print. }
  intros _ _.
  eapply respects_bind; [apply respects_date_statistics|]. intros found _.
  eapply respects_bind with (Q := fun _ => True).
  { destruct found; [by apply respects_ret | apply respects_print]. }
  intros _ _.
  eapply respects_bind; [apply respects_key_statistics|]. intros found' _.
  eapply respects_bind with (Q := fun _ => True).
  { destruct found'; [by apply respects_ret | apply respects_print]. }
  intros _ _.
  eapply respects_bind; [by apply respects_execute_query_fetch|]. intros r' Hr'.
  eapply respects_bind; [|intros _ _; by apply respects_ret].
  destruct r' as [[|[|v row] rows]| |]; try apply respects_print. done.
Qed.

Lemma respects_list_tables (cfg : config) :
  respects reads (fun _ => False) (fun _ => True) (list_tables cfg).
Proof.
  unfold list_tables. apply respects_for_each. intros tk.
  eapply respects_bind; [by apply respects_execute_query_fetch|]. intros r Hr.
  destruct r as [[|[|v row] rows]| |]; try apply respects_print. done.
Qed.

(** ** Everything but closing *)

Lemma respects_drop_table (tk : string) (cfg : config) :
  respects (fun e => e <> Close) (fun _ => False) (fun _ => True) (drop_table tk cfg).
Proof.
  unfold drop_table.
  eapply respects_bind; [by apply respects_execute_statement|]. intros r _.
  eapply respects_bind; [|intros _ _; by apply respects_ret].
  destruct (truthy_result r); apply respects_print.
Qed.

Lemma respects_clear_table (tk : string) (cfg : config) :
  respects (fun e => e <> Close) (fun _ => False) (fun _ => True) (clear_table tk cfg).
Proof.
  unfold clear_table.
  eapply respects_bind; [by apply respects_execute_statement|]. intros r _.
  eapply respects_bind; [|intros _ _; by apply respects_ret].
  destruct (truthy_result r); apply respects_print.
Qed.

Lemma respects_create_table (tk : string) (cfg : config) :
  respects (fun e => e <> Close) (fun _ => False) (fun _ => True) (create_table tk cfg).
Proof.
  unfold create_table. destruct (table_schemas cfg !! tk) as [items|].
  - destruct (negb (truthy_list items)).
    + eapply respects_bind; [apply respects_print|]. intros _ _. by apply respects_ret.
    + apply respects_try_except with (E := fun e => e = Exception).
      * eapply respects_bind.
        { apply respects_for_each. intros stmt. destruct (truthy_str stmt).
          - eapply respects_bind; [by apply respects_execute_statement|]. intros r _.
            destruct (negb (truthy_result r)); [by apply respects_throw | by apply respects_ret].
          - by apply respects_ret. }
        intros _ _. eapply respects_bind; [apply respects_print|]. intros _ _.
        by apply respects_ret.
      * eapply respects_bind; [apply respects_print|]. intros _ _. by apply respects_ret.
      * by intros e ->.
  - eapply respects_bind; [apply respects_print|]. intros _ _. by apply respects_ret.
Qed.

Lemma reads_not_close (e : event) : reads e -> e <> Close.
Proof. by destruct e. Qed.

Lemma respects_process_tables (a : action) (cfg : config) (tables : list string)
    (success : bool) :
  respects (fun e => e <> Close) (fun e => e = IndexError /\ a = act_stats)
    (fun _ => True) (process_tables a cfg tables success).
Proof.
  revert success. induction tables as [|tk tables IH]; intros success; simpl.
  - by apply respects_ret.
  - eapply respects_bind with (Q := fun _ => True); [|intros s _; apply IH].
    destruct a.
    + eapply respects_bind with (Q := fun _ => True); [|intros b _; by apply respects_ret].
      eapply respects_mono; [apply respects_create_table|done..].
    + eapply respects_bind with (Q := fun _ => True); [|intros r _; by apply respects_ret].
      eapply respects_mono; [apply respects_drop_table|done..].
    + eapply respects_bind with (Q := fun _ => True); [|intros r _; by apply respects_ret].
      eapply respects_mono; [apply respects_clear_table|done..].
    + eapply respects_bind with (Q := fun _ => True); [|intros r _; by apply respects_ret].
      eapply respects_mono; [apply respects_gather_statistics|..]; try done.
      apply reads_not_close.
    + by apply respects_ret.
Qed.

(** The loop of [main] for the action [stats] only reads, and leaves the
    [success] flag as it is. *)
Lemma respects_process_tables_stats (cfg : config) (tables : list string) (success : bool) :
  respects reads (fun e => e = IndexError) (fun s => s = success)
    (process_tables act_stats cfg tables success).
Proof.
  induction tables as [|tk tables IH]; simpl.
  - by apply respects_ret.
  - eapply respects_bind with (Q := fun s => s = success); [|by intros s ->].
    eapply respects_bind with (Q := fun _ => True); [apply respects_gather_statistics|].
    intros _ _. by apply respects_ret.
Qed.

(** [main] once the connection is open: the [try] block and its [finally]. *)
Lemma main_connected (args : arguments) (cfg : config) (w : world) :
  connect_ok = true ->
  main args cfg w
  = let out := main_body args cfg (World Connected (events w) (output w)) in
    (out.1, World Closed (events out.2 ++ [Close]) (output out.2 ++ [MsgClosed])).
Proof.
  intros Hc. unfold main. rewrite manager_bind_unfold. unfold get_db_connection.
  rewrite Hc. cbv beta iota zeta. change (negb true) with false. cbv beta iota.
  unfold try_finally. by destruct (main_body args cfg _) as [r w1].
Qed.

Lemma main_not_connected (args : arguments) (cfg : config) (w : world) :
  connect_ok = false ->
  main args cfg w = (Return tt, World (conn w) (events w) (output w ++ [MsgConnectError])).
Proof.
  intros Hc. unfold main. rewrite manager_bind_unfold. unfold get_db_connection.
  by rewrite Hc.
Qed.

Lemma respects_main_body (args : arguments) (cfg : config) :
  respects (fun e => e <> Close)
    (fun e => e = SystemExit 1 \/ (e = IndexError /\ args_action args = act_stats))
    (fun _ => True) (main_body args cfg).
Proof.
  unfold main_body.
  assert (forall a, a = args_action args ->
            respects (fun e => e <> Close)
              (fun e => e = SystemExit 1 \/ (e = IndexError /\ args_action args = act_stats))
              (fun _ : unit => True)
              (bind (process_tables a cfg
                       (match args_table args with
                        | Some t => [table_key_name t]
                        | None => get_all_table_keys
                        end) true)
                    (fun success =>
                       if negb success then
                         bind (print (MsgSomeFailed a)) (fun _ => throw (SystemExit 1))
                       else
                         print (MsgCompleted a
                                  (match args_table args with
                                   | None =>
                                       String.concat ", "
                                         (match args_table args with
                                          | Some t => [table_key_name t]
                                          | None => get_all_table_keys
                                          end)
                                   | Some t => table_key_name t
                                   end))))) as Hloop.
  { intros a ->. eapply respects_bind with (Q := fun _ => True).
    - eapply respects_mono; [apply respects_process_tables|..]; auto.
    - intros success _. destruct (negb success); [|apply respects_print].
      eapply respects_bind with (Q := fun _ => True); [apply respects_print|].
      intros _ _. apply respects_throw. by left. }
  destruct (args_action args) eqn:Ha; try (by apply Hloop).
  eapply respects_mono; [apply respects_list_tables|..]; try done.
  apply reads_not_close.
Qed.

(** ** A server that refuses every query *)

Section Refused.
Hypothesis refused : forall history query params, answer history query params = None.

Lemma respects_execute_query_refused (query : string) (params : option (list string)) :
  respects reads (fun _ => False) (fun r => r = Failed) (execute_query query params true).
Proof.
  intros w. unfold execute_query. rewrite refused. simpl.
  split; [done|]. split; [|done]. eexists. split; [reflexivity|]. by repeat constructor.
Qed.

Lemma respects_date_statistics_refused (db_schema table_name : string)
    (date_columns : list string) :
  respects reads (fun _ => False) (fun _ => True)
    (date_statistics db_schema table_name date_columns).
Proof.
  induction date_columns as [|date_col rest IH]; simpl.
  - by apply respects_ret.
  - eapply respects_bind; [apply respects_execute_query_refused|]. intros r ->.
    simpl. eapply respects_bind with (Q := fun b => b = false); [by apply respects_ret|].
    by intros b ->.
Qed.

Lemma respects_key_statistics_refused (db_schema table_name : string)
    (key_columns_to_check : list string) :
  respects reads (fun _ => False) (fun _ => True)
    (key_statistics db_schema table_name key_columns_to_check).
Proof.
  induction key_columns_to_check as [|key_col rest IH]; simpl.
  - by apply respects_ret.
  - eapply respects_bind; [apply respects_execute_query_refused|]. intros r ->.
    simpl. eapply respects_bind with (Q := fun b => b = false); [by apply respects_ret|].
    by intros b ->.
Qed.

Lemma respects_gather_statistics_refused (tk : string) (cfg : config) :
  respects reads (fun _ => False) (fun _ => True) (gather_statistics tk cfg).
Proof.
  unfold gather_statistics.
  eapply respects_bind; [apply respects_execute_query_refused|]. intros r ->.
  eapply respects_bind with (Q := fun _ => True); [apply respects_print|]. intros _ _.
  eapply respects_bind; [apply respects_date_statistics_refused|]. intros found _.
  eapply respects_bind with (Q := fun _ => True).
  { destruct found; [by apply respects_ret | apply respects_print]. }
  intros _ _.
  eapply respects_bind; [apply respects_key_statistics_refused|]. intros found' _.
  eapply respects_bind with (Q := fun _ => True).
  { destruct found'; [by apply respects_ret | apply respects_print]. }
  intros _ _.
  eapply respects_bind; [apply respects_execute_query_refused|]. intros r' ->.
  eapply respects_bind with (Q := fun _ => True); [apply respects_print|].
  intros _ _. by apply respects_ret.
Qed.

Lemma respects_process_tables_stats_refused (cfg : config) (tables : list string)
    (success : bool) :
  respects reads (fun _ => False) (fun s => s = success)
    (process_tables act_stats cfg tables success).
Proof.
  induction tables as [|tk tables IH]; simpl.
  - by apply respects_ret.
  - eapply respects_bind with (Q := fun s => s = success); [|by intros s ->].
    eapply respects_bind with (Q := fun _ => True);
      [apply respects_gather_statistics_refused|].
    intros _ _. by apply respects_ret.
Qed.
End Refused.

(** The [try] block of [main] for the actions that only read. *)
Lemma respects_main_body_reading (args : arguments) (cfg : config) (E : exn -> Prop) :
  args_action args = act_stats \/ args_action args = act_list_tables ->
  (args_action args = act_stats ->
   forall tables, respects reads E (fun s => s = true)
                    (process_tables act_stats cfg tables true)) ->
  respects reads E (fun _ => True) (main_body args cfg).
Proof.
  intros Ha Hloop. unfold main_body. destruct Ha as [Ha | Ha]; rewrite Ha.
  - eapply respects_bind; [by apply Hloop|]. intros s ->. apply respects_print.
  - eapply respects_mono; [apply respects_list_tables|..]; done.
Qed.
End ManagerFacts.

Section ManagerTheorems.
Import table_manager.

(** X13.  [main] of the table manager closes its connection on every path:
    once the connection is open, whatever the action, the tables and the
    server do, the run ends with the connection closed, [close] is the last
    thing sent and was sent once, also when the run leaves through
    [sys.exit(1)] or with an exception; the run returns, or exits with
    status 1 after a failed create, drop or clear, or (for [stats] only)
    ends with the [IndexError] of a result row that is too short.  When the
    connection cannot be opened the run prints the error and returns. *)
Theorem manager_main_closes_connection {py : PyStr} {srv : Server}
    (args : arguments) (cfg : config) (w : world) :
  let out := main args cfg w in
  if connect_ok then
    conn out.2 = Closed
    /\ (exists l, events out.2 = events w ++ l ++ [Close]
                  /\ Forall (fun e => e <> Close) l)
    /\ last (output out.2) = Some MsgClosed
    /\ (out.1 = Return tt
        \/ out.1 = Throw (SystemExit 1)
        \/ (out.1 = Throw IndexError /\ args_action args = act_stats))
  else
    out = (Return tt, World (conn w) (events w) (output w ++ [MsgConnectError])).
Proof.
  cbv zeta. destruct connect_ok eqn:Hc.
  - rewrite main_connected by done. cbv zeta.
    destruct (respects_main_body args cfg (World Connected (events w) (output w)))
      as (_ & (l & Hl & HP) & Hr).
    destruct (main_body args cfg _) as [r w1]. simpl in *.
    split; [done|]. split; [|split].
    + exists l. by rewrite Hl, <- app_assoc.
    + by rewrite last_snoc.
    + destruct r as [[]|e]; [by left|]. destruct Hr as [-> | [-> Ha]]; auto.
  - by apply main_not_connected.
Qed.

(** X14.  The actions [drop] and [clear]: every table of the run is
    attempted, in order, whatever became of the tables before it; each
    statement is sent without parameters and then committed or, when the
    server refuses it, rolled back on its own; the table name is the one
    configured in [TABLES], or the key itself when there is none.  The run
    exits with status 1 exactly when some statement was rolled back, and
    returns with status 0 otherwise; the connection is closed either way. *)
Theorem manager_drop_and_clear_attempt_every_table {py : PyStr} {srv : Server}
    (args : arguments) (cfg : config) (w : world) :
  connect_ok = true ->
  args_action args = act_drop \/ args_action args = act_clear ->
  let query_of :=
    match args_action args with act_drop => drop_query cfg | _ => clear_query cfg end in
  let out := main args cfg w in
  exists outcomes : list bool,
    length outcomes = length (tables_of args)
    /\ events out.2
       = events w
         ++ concat (zip_with (fun tk ok => attempt (query_of tk) ok) (tables_of args) outcomes)
         ++ [Close]
    /\ out.1 = (if forallb id outcomes then Return tt else Throw (SystemExit 1))
    /\ exit_status out.1 = (if forallb id outcomes then 0 else 1)
    /\ conn out.2 = Closed.
Proof.
  intros Hc Ha. cbv zeta. rewrite main_connected by done. cbv zeta.
  destruct (process_tables_drop_clear (args_action args) cfg (tables_of args) true
              (World Connected (events w) (output w)) Ha)
    as (outcomes & w1 & Hlen & Hrun & _ & He).
  exists outcomes. split; [done|].
  assert (main_body args cfg (World Connected (events w) (output w))
          = (if forallb id outcomes then Return tt else Throw (SystemExit 1),
             World (conn w1) (events w1)
                   (output w1 ++ [if forallb id outcomes
                                  then MsgCompleted (args_action args)
                                         (match args_table args with
                                          | None => String.concat ", " (tables_of args)
                                          | Some t => table_key_name t
                                          end)
                                  else MsgSomeFailed (args_action args)]))) as ->.
  { unfold main_body. fold (tables_of args).
    destruct Ha as [Ha | Ha]; rewrite Ha in *; rewrite manager_bind_unfold, Hrun;
      simpl; by destruct (forallb id outcomes). }
  simpl. rewrite He. simpl. rewrite <- app_assoc.
  split; [done|]. split; [done|]. split; [|done]. by destruct (forallb id outcomes).
Qed.

Lemma manager_drop_and_clear_attempt_every_table_witness :
  let out := @main ascii_str example_server (Args act_drop None) example_config
               initial_world in
  exists outcomes : list bool,
    length outcomes = 5%nat
    /\ events out.2
       = [] ++ concat (zip_with (fun tk ok => attempt (drop_query example_config tk) ok)
                                get_all_table_keys outcomes)
         ++ [Close]
    /\ out.1 = (if forallb id outcomes then Return tt else Throw (SystemExit 1))
    /\ exit_status out.1 = (if forallb id outcomes then 0 else 1)
    /\ conn out.2 = Closed.
Proof.
  exact (@manager_drop_and_clear_attempt_every_table ascii_str example_server
           (Args act_drop None) example_config initial_world eq_refl (or_introl eq_refl)).
Defined.


(** On a server that makes the table and its first index and refuses the
    second, [create_table] returns [False] and the table stays. *)
Example create_table_leaves_the_table :
  let out := @create_table ascii_str example_server "bonds" example_config initial_world in
  out.1 = Return false
  /\ events out.2
     = [Execute "CREATE TABLE IF NOT EXISTS public.moex_bonds (
    secid VARCHAR(36) PRIMARY KEY,
    isin VARCHAR(12),
    matdate DATE
        )" None;
        Commit;
        Execute "CREATE INDEX IF NOT EXISTS idx_moex_bonds_secid ON public.moex_bonds (secid)"
                None;
        Commit;
        Execute "CREATE INDEX IF NOT EXISTS idx_moex_bonds_isin ON public.moex_bonds (isin)"
                None;
        Rollback].
Proof. vm_compute. split; reflexivity. Qed.

(** X16.  The actions [stats] and [list_tables] only read: what they send
    are queries, and the rollback after a query that failed; nothing is
    committed.  They never leave through [sys.exit]: a query that fails is
    a printed line, and when the server refuses every query the run still
    returns, with status 0.  [list_tables] always returns; [stats] returns
    unless a result row is shorter than the cells it reads. *)
Theorem manager_stats_and_list_only_read {py : PyStr} {srv : Server}
    (args : arguments) (cfg : config) (w : world) :
  connect_ok = true ->
  args_action args = act_stats \/ args_action args = act_list_tables ->
  let out := main args cfg w in
  (exists l, events out.2 = events w ++ l ++ [Close] /\ Forall reads l)
  /\ (out.1 = Return tt \/ (out.1 = Throw IndexError /\ args_action args = act_stats))
  /\ ((forall history query params, answer history query params = None) ->
      out.1 = Return tt /\ exit_status out.1 = 0).
Proof.
  intros Hc Ha. cbv zeta. rewrite main_connected by done. cbv zeta.
  pose proof (respects_main_body_reading args cfg
                (fun e => e = IndexError /\ args_action args = act_stats) Ha) as Hbody.
  destruct (Hbody (fun Hstats tables =>
                     respects_mono _ _ _ _ _ _ _
                       (respects_process_tables_stats cfg tables true)
                       (fun e He => He) (fun e He => conj He Hstats) (fun s Hs => Hs))
                  (World Connected (events w) (output w)))
    as (_ & (l & Hl & HP) & Hr).
  split; [|split].
  - exists l. simpl. by rewrite Hl, <- app_assoc.
  - simpl. destruct (main_body args cfg _) as [[[]|e] w1]; simpl in *; [by left|].
    right. by destruct Hr as [-> ?].
  - intros Hrefused.
    pose proof (respects_main_body_reading args cfg (fun _ => False) Ha
                  (fun _ tables =>
                     respects_process_tables_stats_refused Hrefused cfg tables true)
                  (World Connected (events w) (output w))) as (_ & _ & Hr').
    simpl. by destruct (main_body args cfg _) as [[[]|e] w1].
Qed.

Lemma manager_stats_and_list_only_read_witness :
  let out := @main ascii_str refusing_server (Args act_stats (Some quotas)) example_config
               initial_world in
  out.1 = Return tt /\ exit_status out.1 = 0.
Proof.
  exact (proj2 (proj2 (@manager_stats_and_list_only_read ascii_str refusing_server
                         (Args act_stats (Some quotas)) example_config initial_world
                         eq_refl (or_introl eq_refl)))
               (fun _ _ _ => eq_refl)).
Defined.
End ManagerTheorems.
